(** * SLADE program database (src/General/Database.cpp)

    A shallow embedding of the connection context, its cache of prepared
    statements, the transaction guard and the registry of per-thread
    contexts, together with the properties the specification states about
    them.

    C++ objects live in heaps keyed by their address; a [unique_ptr] or a
    raw pointer is an [option] of an address.  Every function of the source
    is a computation in a state-and-exception monad over the [World]: a
    thrown exception keeps the state reached when it was thrown, exactly as
    a C++ exception leaves the members that were already assigned. *)

From stdpp Require Import gmap strings list.
From Stdlib Require Import ZArith DecimalString.

(** ** Values *)

(** [std::thread::id] and object addresses. *)
Abbreviation thread_id := nat (only parsing).
Abbreviation addr := nat (only parsing).

Inductive exception := Exception (what : string).

Definition what (e : exception) : string := let 'Exception s := e in s.

Inductive level := Info | Warning | Error.

Inductive OpenFlags := OPEN_READONLY | OPEN_READWRITE.

(** The contents of a database file: named tables of integer rows. *)
Record Table := { columns : list string; rows : list (list Z) }.

Abbreviation FileData := (gmap string Table) (only parsing).

(** A live [SQLite::Database]: the file it is open on, the mode, the flag
    [sqlite3_get_autocommit] reads and the counter [sqlite3_changes] reads:
    the rows changed by the last [INSERT], [UPDATE] or [DELETE] that
    completed on the connection, 0 on a new one. *)
Record Database := {
  db_filename : string;
  db_flags : OpenFlags;
  db_autocommit : bool;
  db_changes : Z
}.

(** A live [SQLite::Statement]: its connection, its text and the two
    stepping flags of the wrapper. *)
Record Statement := {
  stmt_database : addr;
  stmt_query : string;
  stmt_has_row : bool;
  stmt_done : bool
}.

Module database.

(** [database::Context]: the members of the class. *)
Record Context := {
  thread_id_ : thread_id;
  file_path_ : string;
  connection_ro_ : option addr;
  connection_rw_ : option addr;
  cached_queries_ : gmap string addr
}.

(** States of a transaction guard. *)
Inductive TxState := INACTIVE | ACTIVE | TERMINATED.

(** [database::Transaction]: the connection it is bound to (a raw pointer)
    and its state. *)
Record Transaction := {
  connection_ : option addr;
  tx_state : TxState
}.

End database.
Import database.

(** ** The world

    The heaps of live objects, the files on disk, the global
    [thread_contexts], the program log, and two records kept by the model:
    [trace], the statements sent to the engine through [exec] with the
    connection they were sent on, in order, and [next_addr], the next
    address the allocator hands out. *)

Record World := {
  contexts : gmap addr Context;
  databases : gmap addr Database;
  statements : gmap addr Statement;
  files : gmap string FileData;
  thread_contexts : list addr;
  log : list (level * string);
  trace : list (addr * string);
  next_addr : addr
}.

(** The address of the static object [db_global]. *)
Definition db_global : addr := 0.

Definition set_contexts (f : gmap addr Context → gmap addr Context) (w : World) : World :=
  {| contexts := f (contexts w); databases := databases w; statements := statements w;
     files := files w; thread_contexts := thread_contexts w; log := log w;
     trace := trace w; next_addr := next_addr w |}.

Definition set_databases (f : gmap addr Database → gmap addr Database) (w : World) : World :=
  {| contexts := contexts w; databases := f (databases w); statements := statements w;
     files := files w; thread_contexts := thread_contexts w; log := log w;
     trace := trace w; next_addr := next_addr w |}.

Definition set_statements (f : gmap addr Statement → gmap addr Statement) (w : World) : World :=
  {| contexts := contexts w; databases := databases w; statements := f (statements w);
     files := files w; thread_contexts := thread_contexts w; log := log w;
     trace := trace w; next_addr := next_addr w |}.

Definition set_files (f : gmap string FileData → gmap string FileData) (w : World) : World :=
  {| contexts := contexts w; databases := databases w; statements := statements w;
     files := f (files w); thread_contexts := thread_contexts w; log := log w;
     trace := trace w; next_addr := next_addr w |}.

Definition set_thread_contexts (f : list addr → list addr) (w : World) : World :=
  {| contexts := contexts w; databases := databases w; statements := statements w;
     files := files w; thread_contexts := f (thread_contexts w); log := log w;
     trace := trace w; next_addr := next_addr w |}.

Definition set_log (f : list (level * string) → list (level * string)) (w : World) : World :=
  {| contexts := contexts w; databases := databases w; statements := statements w;
     files := files w; thread_contexts := thread_contexts w; log := f (log w);
     trace := trace w; next_addr := next_addr w |}.

Definition set_trace (f : list (addr * string) → list (addr * string)) (w : World) : World :=
  {| contexts := contexts w; databases := databases w; statements := statements w;
     files := files w; thread_contexts := thread_contexts w; log := log w;
     trace := f (trace w); next_addr := next_addr w |}.

Definition set_next_addr (f : addr → addr) (w : World) : World :=
  {| contexts := contexts w; databases := databases w; statements := statements w;
     files := files w; thread_contexts := thread_contexts w; log := log w;
     trace := trace w; next_addr := f (next_addr w) |}.

(** ** The monad *)

Inductive outcome (A : Type) :=
| Returns (a : A)
| Throws (e : exception)
| Undefined.
Arguments Returns {A} a.
Arguments Throws {A} e.
Arguments Undefined {A}.

Definition M (A : Type) : Type := World → outcome A * World.

Definition ret {A} (a : A) : M A := λ w, (Returns a, w).

Definition bind {A B} (m : M A) (k : A → M B) : M B :=
  λ w, match m w with
       | (Returns a, w') => k a w'
       | (Throws e, w') => (Throws e, w')
       | (Undefined, w') => (Undefined, w')
       end.

Definition throw {A} (e : exception) : M A := λ w, (Throws e, w).

Definition undefined {A} : M A := λ w, (Undefined, w).

(** [try { m } catch (std::exception& ex) { h ex }] *)
Definition try_catch {A} (m : M A) (h : exception → M A) : M A :=
  λ w, match m w with
       | (Throws e, w') => h e w'
       | r => r
       end.

Definition get_world : M World := λ w, (Returns w, w).

Definition modify (f : World → World) : M unit := λ w, (Returns tt, f w).

#[global] Instance M_ret : MRet M := @ret.
#[global] Instance M_bind : MBind M := λ A B k m, bind m k.

(** Dereferencing: a null pointer, or the address of an object that is no
    longer alive, is undefined behaviour. *)
Definition deref {A} (heap : World → gmap addr A) (p : option addr) : M A :=
  λ w, match p with
       | None => (Undefined, w)
       | Some a => match heap w !! a with
                   | Some x => (Returns x, w)
                   | None => (Undefined, w)
                   end
       end.

(** [new T(...)]: the next free address. *)
Definition fresh : M addr :=
  λ w, (Returns (next_addr w), set_next_addr S w).

Definition log_message (l : level) (s : string) : M unit :=
  modify (set_log (λ lg, lg ++ [(l, s)])).

(** ** The environment

    SQLite, its C++ wrapper and [app::mainThreadId] are not part of
    Database.cpp: what they do is a parameter of the development.  The
    constructor of a connection or of a statement either succeeds or throws
    ([sqlite_open], [sqlite_prepare]: the exception, if any); the destructor
    of a connection may report a fault ([sqlite_close]; [close] has a handler
    for it); [exec] returns the number the wrapper returns, which is
    [sqlite3_changes] of the connection once the statement has run,
    together with the new file contents and connection state, or throws;
    [execAndGet] returns the first column of the first row, or throws. *)

Class Engine := {
  mainThreadId : thread_id;
  sqlite_open : gmap string FileData → string → OpenFlags → option exception;
  sqlite_close : Database → option exception;
  sqlite_prepare : FileData → Database → string → option exception;
  sqlite_exec : FileData → Database → string → exception + (Z * FileData * Database);
  sqlite_execAndGet : FileData → Database → string → exception + Z
}.

Definition file_data (w : World) (db : Database) : FileData :=
  default ∅ (files w !! db_filename db).

(** [sqlite3_get_autocommit]: non-zero in autocommit mode. *)
Definition sqlite3_get_autocommit (db : Database) : Z :=
  if db_autocommit db then 1%Z else 0%Z.

(** [Column::getInt]: the value as a 32-bit signed integer. *)
Definition getInt (c : Z) : Z := ((c + 2 ^ 31) mod 2 ^ 32 - 2 ^ 31)%Z.

(** [fmt::format] of a 64-bit integer. *)
Definition format_int (z : Z) : string := NilZero.string_of_int (Z.to_int z).

Definition stepped (st : Statement) : bool := stmt_has_row st || stmt_done st.

(** A statement put back in its not-yet-stepped state. *)
Definition reset (st : Statement) : Statement :=
  {| stmt_database := stmt_database st; stmt_query := stmt_query st;
     stmt_has_row := false; stmt_done := false |}.

(** The text [rowIdExists] formats:
    [fmt::format("SELECT EXISTS(SELECT 1 FROM {} WHERE {} = {})", table_name, id_col, id)]. *)
Definition exists_query (table_name id_col : string) (id : Z) : string :=
  "SELECT EXISTS(SELECT 1 FROM " +:+ table_name +:+ " WHERE " +:+ id_col
  +:+ " = " +:+ format_int id +:+ ")".

Section Program.
Context {E : Engine}.

(** *** SQLite::Database *)

(** [std::make_unique<SQLite::Database>(filename, flags)] *)
Definition Database_new (filename : string) (flags : OpenFlags) : M addr :=
  w ← get_world;
  match sqlite_open (files w) filename flags with
  | Some e => throw e
  | None =>
      p ← fresh;
      modify (set_databases <[p := {| db_filename := filename; db_flags := flags;
                                      db_autocommit := true; db_changes := 0%Z |}]>);;
      ret p
  end.

(** The destructor of a connection: the object is gone, then the fault of
    the engine, if any, is raised. *)
Definition Database_delete (p : addr) : M unit :=
  db ← deref databases (Some p);
  modify (set_databases (delete p));;
  match sqlite_close db with
  | Some e => throw e
  | None => ret tt
  end.

(** [connection->exec(query)] *)
Definition Database_exec (connection : option addr) (query : string) : M Z :=
  match connection with
  | None => undefined
  | Some p =>
      db ← deref databases (Some p);
      w ← get_world;
      modify (set_trace (λ t, t ++ [(p, query)]));;
      match sqlite_exec (file_data w db) db query with
      | inl e => throw e
      | inr (n, fd, db') =>
          modify (set_files <[db_filename db := fd]>);;
          modify (set_databases <[p := db']>);;
          ret n
      end
  end.

(** [connection->execAndGet(query)] *)
Definition Database_execAndGet (connection : option addr) (query : string) : M Z :=
  db ← deref databases connection;
  w ← get_world;
  match sqlite_execAndGet (file_data w db) db query with
  | inl e => throw e
  | inr c => ret c
  end.

(** *** SQLite::Statement *)

(** [std::make_unique<SQLite::Statement>(db, sql)] *)
Definition Statement_new (db : option addr) (sql : string) : M addr :=
  match db with
  | None => undefined
  | Some a =>
      d ← deref databases (Some a);
      w ← get_world;
      match sqlite_prepare (file_data w d) d sql with
      | Some e => throw e
      | None =>
          s ← fresh;
          modify (set_statements <[s := {| stmt_database := a; stmt_query := sql;
                                           stmt_has_row := false; stmt_done := false |}]>);;
          ret s
      end
  end.

(** Modelled from the spec: [SQLite::Statement::tryReset] is not in
    Database.cpp; the statement is put back in its not-yet-stepped state
    and keeps its identity, its connection and its text. *)
Definition Statement_tryReset (s : addr) : M unit :=
  st ← deref statements (Some s);
  modify (set_statements <[s := reset st]>).

(** Modelled from the spec: [SQLite::Statement::executeStep] is not in
    Database.cpp; a step either yields a row or finishes the statement,
    [row] being the engine's answer. *)
Definition Statement_executeStep (s : addr) (row : bool) : M bool :=
  st ← deref statements (Some s);
  modify (set_statements <[s := {| stmt_database := stmt_database st;
                                   stmt_query := stmt_query st;
                                   stmt_has_row := row; stmt_done := negb row |}]>);;
  ret row.

(** *** database::Context *)

Definition with_file_path (s : string) (c : Context) : Context :=
  {| thread_id_ := thread_id_ c; file_path_ := s; connection_ro_ := connection_ro_ c;
     connection_rw_ := connection_rw_ c; cached_queries_ := cached_queries_ c |}.

Definition with_connection_ro (p : option addr) (c : Context) : Context :=
  {| thread_id_ := thread_id_ c; file_path_ := file_path_ c; connection_ro_ := p;
     connection_rw_ := connection_rw_ c; cached_queries_ := cached_queries_ c |}.

Definition with_connection_rw (p : option addr) (c : Context) : Context :=
  {| thread_id_ := thread_id_ c; file_path_ := file_path_ c; connection_ro_ := connection_ro_ c;
     connection_rw_ := p; cached_queries_ := cached_queries_ c |}.

Definition with_cached_queries (m : gmap string addr) (c : Context) : Context :=
  {| thread_id_ := thread_id_ c; file_path_ := file_path_ c; connection_ro_ := connection_ro_ c;
     connection_rw_ := connection_rw_ c; cached_queries_ := m |}.

(** Assignment to a member of [*this]. *)
Definition update_this (this : addr) (f : Context → Context) : M unit :=
  c ← deref contexts (Some this);
  modify (set_contexts <[this := f c]>).

(** [cached_queries_.clear()]: every owned statement is destroyed. *)
Definition clear_cached_queries (this : addr) : M unit :=
  c ← deref contexts (Some this);
  modify (set_statements (λ h, foldr delete h (map_to_list (cached_queries_ c)).*2));;
  update_this this (with_cached_queries ∅).

(** [connection_ro_ = p] for a [unique_ptr]: the member takes the new
    pointer, then the object it owned before is destroyed. *)
Definition assign_connection_ro (this : addr) (p : option addr) : M unit :=
  c ← deref contexts (Some this);
  update_this this (with_connection_ro p);;
  match connection_ro_ c with
  | Some old => Database_delete old
  | None => ret tt
  end.

Definition assign_connection_rw (this : addr) (p : option addr) : M unit :=
  c ← deref contexts (Some this);
  update_this this (with_connection_rw p);;
  match connection_rw_ c with
  | Some old => Database_delete old
  | None => ret tt
  end.

(** [Context::isForThisThread], called on thread [current]. *)
Definition isForThisThread (this : addr) (current : thread_id) : M bool :=
  c ← deref contexts (Some this);
  ret (bool_decide (thread_id_ c = current)).

(** [Context::close] *)
Definition close (this : addr) : M bool :=
  c ← deref contexts (Some this);
  match connection_ro_ c with
  | None => ret true
  | Some _ =>
      ok ← try_catch
             (clear_cached_queries this;;
              assign_connection_ro this None;;
              assign_connection_rw this None;;
              ret true)
             (λ ex,
                c' ← deref contexts (Some this);
                log_message Error
                  ("Error closing connections for database " +:+ file_path_ c'
                   +:+ ": " +:+ what ex);;
                ret false);
      if ok : bool then update_this this (with_file_path "");; ret true
      else ret false
  end.

(** [Context::open] *)
Definition open (this : addr) (file_path : string) : M bool :=
  closed ← close this;
  if negb closed then ret false
  else
    update_this this (with_file_path file_path);;
    ro ← Database_new file_path OPEN_READONLY;
    assign_connection_ro this (Some ro);;
    rw ← Database_new file_path OPEN_READWRITE;
    assign_connection_rw this (Some rw);;
    ret true.

(** [Context::cachedQuery] *)
Definition cachedQuery (this : addr) (id : string) : M (option addr) :=
  c ← deref contexts (Some this);
  match cached_queries_ c !! id with
  | Some s => Statement_tryReset s;; ret (Some s)
  | None => ret None
  end.

(** [Context::cacheQuery] *)
Definition cacheQuery (this : addr) (id sql : string) (writes : bool) : M (option addr) :=
  c ← deref contexts (Some this);
  match cached_queries_ c !! id with
  | Some s => Statement_tryReset s;; ret (Some s)
  | None =>
      match connection_ro_ c with
      | None => ret None
      | Some _ =>
          ptr ← Statement_new (if writes then connection_rw_ c else connection_ro_ c) sql;
          update_this this (λ c', with_cached_queries (<[id := ptr]> (cached_queries_ c')) c');;
          ret (Some ptr)
      end
  end.

(** [Context::exec] (both overloads) *)
Definition exec (this : addr) (query : string) : M Z :=
  c ← deref contexts (Some this);
  match connection_rw_ c with
  | Some p => Database_exec (Some p) query
  | None => ret 0%Z
  end.

(** [Context::rowIdExists] *)
Definition rowIdExists (this : addr) (table_name : string) (id : Z) (id_col : string) : M bool :=
  c ← deref contexts (Some this);
  let query := exists_query table_name id_col id in
  col ← Database_execAndGet (connection_ro_ c) query;
  ret (0 <? getInt col)%Z.

(** *** database::Transaction *)

(** [database::isTransactionActive] *)
Definition isTransactionActive (connection : option addr) : M bool :=
  db ← deref databases connection;
  ret (sqlite3_get_autocommit db =? 0)%Z.

(** Modelled from the spec: [Transaction::begin] is declared in Database.h,
    which is not among the sources; it issues [BEGIN] on the bound
    connection and the guard becomes active. *)
Definition Transaction_begin (tx : Transaction) : M Transaction :=
  Database_exec (connection_ tx) "BEGIN";;
  ret {| connection_ := connection_ tx; tx_state := ACTIVE |}.

(** [Transaction::beginIfNoActiveTransaction] *)
Definition beginIfNoActiveTransaction (tx : Transaction) : M Transaction :=
  active ← isTransactionActive (connection_ tx);
  if negb active then Transaction_begin tx else ret tx.

(** Modelled from the spec: the constructor of [Transaction] is declared in
    Database.h, which is not among the sources; with the flag set it
    begins a transaction unless the connection already has one, and the
    guard is active either way. *)
Definition Transaction_new (connection : option addr) (begin_if_no_active : bool)
  : M Transaction :=
  let tx := {| connection_ := connection; tx_state := INACTIVE |} in
  if begin_if_no_active then
    tx' ← beginIfNoActiveTransaction tx;
    ret {| connection_ := connection_ tx'; tx_state := ACTIVE |}
  else ret tx.

(** [Context::beginTransaction] *)
Definition beginTransaction (this : addr) (write : bool) : M Transaction :=
  c ← deref contexts (Some this);
  Transaction_new (if write then connection_rw_ c else connection_ro_ c) true.

(** *** The registry of thread contexts *)

(** The scan of [database::global]: the first registered context that was
    created on thread [current]. *)
Fixpoint find_thread_context (current : thread_id) (l : list addr) : M (option addr) :=
  match l with
  | [] => ret None
  | thread_context :: l' =>
      mine ← isForThisThread thread_context current;
      if mine : bool then ret (Some thread_context)
      else find_thread_context current l'
  end.

(** [database::global], called on thread [current]. *)
Definition global (current : thread_id) : M addr :=
  if bool_decide (current ≠ mainThreadId) then
    w ← get_world;
    found ← find_thread_context current (thread_contexts w);
    match found with
    | Some thread_context => ret thread_context
    | None =>
        log_message Warning
          "A non-main thread is requesting the global database connection context";;
        ret db_global
    end
  else ret db_global.

(** [database::registerThreadContext] *)
Definition registerThreadContext (context : addr) : M unit :=
  modify (set_thread_contexts (λ l, l ++ [context])).

(** The loop of [database::deregisterThreadContexts]: the iterations for
    [i = n - 1] down to [0]. *)
Fixpoint deregister_loop (current : thread_id) (n : nat) : M unit :=
  match n with
  | O => ret tt
  | S i =>
      w ← get_world;
      mine ← match thread_contexts w !! i with
             | Some p => isForThisThread p current
             | None => undefined
             end;
      (if mine : bool then modify (set_thread_contexts (delete i)) else ret tt);;
      deregister_loop current i
  end.

(** [database::deregisterThreadContexts], called on thread [current]. *)
Definition deregisterThreadContexts (current : thread_id) : M unit :=
  w ← get_world;
  deregister_loop current (length (thread_contexts w)).

(** The loop of the destructor: the iterations for [i = n - 1] down to
    [0]; the comparison is on addresses. *)
Fixpoint erase_this_loop (this : addr) (n : nat) : M unit :=
  match n with
  | O => ret tt
  | S i =>
      w ← get_world;
      same ← match thread_contexts w !! i with
             | Some p => ret (bool_decide (p = this))
             | None => undefined
             end;
      (if same : bool then modify (set_thread_contexts (delete i)) else ret tt);;
      erase_this_loop this i
  end.

(** [Context::~Context]: the body, then the members are destroyed and the
    object is gone. *)
Definition Context_delete (this : addr) : M unit :=
  close this;;
  w ← get_world;
  erase_this_loop this (length (thread_contexts w));;
  clear_cached_queries this;;
  assign_connection_rw this None;;
  assign_connection_ro this None;;
  modify (set_contexts (delete this)).

(** [Context::Context(file_path)], run on thread [current].  When [open]
    throws, the members built so far are destroyed and no object is left. *)
Definition Context_new (current : thread_id) (file_path : string) : M addr :=
  this ← fresh;
  modify (set_contexts <[this := {| thread_id_ := current; file_path_ := "";
                                    connection_ro_ := None; connection_rw_ := None;
                                    cached_queries_ := ∅ |}]>);;
  (if bool_decide (file_path ≠ "") then
     try_catch (open this file_path;; ret tt)
               (λ ex,
                  clear_cached_queries this;;
                  assign_connection_rw this None;;
                  assign_connection_ro this None;;
                  modify (set_contexts (delete this));;
                  throw ex)
   else ret tt);;
  ret this.

(** *** What a caller does with an open context *)

Inductive Use :=
| UseStep (s : addr) (row : bool)
| UseCachedQuery (id : string)
| UseCacheQuery (id sql : string) (writes : bool)
| UseExec (query : string)
| UseRowIdExists (table_name : string) (id : Z) (id_col : string).

Definition run_use (this : addr) (u : Use) : M unit :=
  match u with
  | UseStep s row => Statement_executeStep s row;; ret tt
  | UseCachedQuery id => cachedQuery this id;; ret tt
  | UseCacheQuery id sql writes => cacheQuery this id sql writes;; ret tt
  | UseExec query => exec this query;; ret tt
  | UseRowIdExists table_name id id_col => rowIdExists this table_name id id_col;; ret tt
  end.

(** [later this w w']: [w'] is reached from [w] by queries, statement steps
    and executions on the context at [this], however each of them ends. *)
Inductive later (this : addr) : World → World → Prop :=
| later_now (w : World) : later this w w
| later_use (w w' : World) (u : Use) :
    later this w w' → later this w (run_use this u w').2.

(** *** What a program does with the module *)

Inductive Op :=
| OpNew (current : thread_id) (file_path : string)
| OpDelete (this : addr)
| OpOpen (this : addr) (file_path : string)
| OpClose (this : addr)
| OpUse (this : addr) (u : Use)
| OpBeginTransaction (this : addr) (write : bool)
| OpRegister (context : addr)
| OpDeregister (current : thread_id)
| OpGlobal (current : thread_id).

(** One call; a reference that is passed refers to a live object. *)
Definition run_op (o : Op) : M unit :=
  match o with
  | OpNew current file_path => Context_new current file_path;; ret tt
  | OpDelete this => Context_delete this
  | OpOpen this file_path => open this file_path;; ret tt
  | OpClose this => close this;; ret tt
  | OpUse this u => run_use this u
  | OpBeginTransaction this write => beginTransaction this write;; ret tt
  | OpRegister context => deref contexts (Some context);; registerThreadContext context
  | OpDeregister current => deregisterThreadContexts current
  | OpGlobal current => global current;; ret tt
  end.

End Program.

(** ** Runs of the program *)

(** The world when [main] starts: the static [db_global] was default
    constructed on the main thread and nothing else exists. *)
Definition initial_world {E : Engine} : World :=
  {| contexts := {[ db_global := {| thread_id_ := mainThreadId; file_path_ := "";
                                     connection_ro_ := None; connection_rw_ := None;
                                     cached_queries_ := ∅ |} ]};
     databases := ∅; statements := ∅; files := ∅; thread_contexts := [];
     log := []; trace := []; next_addr := 1 |}.

(** The worlds a program reaches: it starts with some files on disk and
    makes calls, each of which ends in some way. *)
Inductive reachable {E : Engine} : World → Prop :=
| reachable_start (fs : gmap string FileData) :
    reachable (set_files (λ _, fs) initial_world)
| reachable_step (w : World) (o : Op) :
    reachable w → reachable (run_op o w).2.

(** ** Predicates used by the statements *)

(** Every entry of the registry is the address of a live context. *)
Definition registry_live (w : World) : Prop :=
  ∀ p, p ∈ thread_contexts w → is_Some (contexts w !! p).

(** The thread a live context was created on. *)
Definition thread_of (w : World) (p : addr) : option thread_id :=
  thread_id_ <$> contexts w !! p.

(** Context [p] is alive and was created on thread [t]. *)
Definition created_on (w : World) (p : addr) (t : thread_id) : Prop :=
  ∃ c, contexts w !! p = Some c ∧ thread_id_ c = t.

(** Context [p] is alive and was created on another thread than [t]. *)
Definition created_elsewhere (w : World) (p : addr) (t : thread_id) : Prop :=
  ∃ c, contexts w !! p = Some c ∧ thread_id_ c ≠ t.

(** Both connections of a context are present and alive, and distinct
    objects. *)
Definition is_open (w : World) (c : Context) : Prop :=
  ∃ ro rw, connection_ro_ c = Some ro ∧ connection_rw_ c = Some rw ∧ ro ≠ rw ∧
           is_Some (databases w !! ro) ∧ is_Some (databases w !! rw).

(** Both connections of a context are absent. *)
Definition is_closed (c : Context) : Prop :=
  connection_ro_ c = None ∧ connection_rw_ c = None.

(** The connections a context holds are live objects, and two different
    ones when both are held. *)
Definition connections_live (w : World) (c : Context) : Prop :=
  (∀ p, connection_ro_ c = Some p → is_Some (databases w !! p)) ∧
  (∀ p, connection_rw_ c = Some p → is_Some (databases w !! p)) ∧
  (∀ p q, connection_ro_ c = Some p → connection_rw_ c = Some q → p ≠ q).

(** Both connections are present, or both are absent. *)
Definition both_or_neither (c : Context) : Prop :=
  (is_Some (connection_ro_ c) ∧ is_Some (connection_rw_ c)) ∨ is_closed c.

(** The engine compiles [sql] on the connection [cacheQuery] would pick. *)
Definition compiles {E : Engine} (w : World) (c : Context) (sql : string) (writes : bool) : Prop :=
  ∀ p d, (if writes then connection_rw_ c else connection_ro_ c) = Some p →
         databases w !! p = Some d →
         sqlite_prepare (file_data w d) d sql = None.

(** A context without a read-only connection has an empty cache. *)
Definition cache_closed (c : Context) : Prop :=
  connection_ro_ c = None → cached_queries_ c = ∅.

(** Every cached statement is a live object. *)
Definition cache_live (w : World) (c : Context) : Prop :=
  ∀ id s, cached_queries_ c !! id = Some s → is_Some (statements w !! s).

(** The statement at [s] is alive and has not been stepped since it was
    prepared or last reset. *)
Definition is_reset (w : World) (s : addr) : Prop :=
  ∃ st, statements w !! s = Some st ∧ stepped st = false.

(** The world after the warning of [database::global] was logged. *)
Definition warned (w : World) : World :=
  set_log (λ lg, lg ++ [(Warning,
    "A non-main thread is requesting the global database connection context")]) w.


(** The cache of the context at [this] is empty. *)
Definition nothing_cached (this : addr) (m : gmap addr Context) : Prop :=
  ∃ c, m !! this = Some c ∧ cached_queries_ c = ∅.

(** The handle [p] is cached under [id] in the context at [this] and is a
    live statement. *)
Definition holds (this : addr) (id : string) (p : addr) (w : World) : Prop :=
  ∃ c, contexts w !! this = Some c ∧ cached_queries_ c !! id = Some p ∧
       is_Some (statements w !! p).

(** No context has something cached without a read-only connection. *)
Definition all_cache_closed (m : gmap addr Context) : Prop :=
  ∀ p c, m !! p = Some c → cache_closed c.

(** The same, and the context at [this] has nothing cached. *)
Definition closed_and_empty (this : addr) (m : gmap addr Context) : Prop :=
  all_cache_closed m ∧ nothing_cached this m.

(** A computation that leaves the heap of contexts as it is. *)
Definition keeps_contexts {A} (m : M A) : Prop :=
  ∀ w, contexts (m w).2 = contexts w.

(** From a world with [I], the computation ends in a world with [J]. *)
Definition leads {A} (I J : World → Prop) (m : M A) : Prop :=
  ∀ w, I w → J (m w).2.

(** Every live context has an address below the next free one. *)
Definition contexts_below_next (w : World) : Prop :=
  ∀ p, is_Some (contexts w !! p) → p < next_addr w.

(** The registry points to live contexts, which were all allocated. *)
Definition registry_sound (w : World) : Prop :=
  registry_live w ∧ contexts_below_next w.

(** The same, and [this] is not registered. *)
Definition registry_sound_without (this : addr) (w : World) : Prop :=
  registry_sound w ∧ this ∉ thread_contexts w.

(** A computation that creates and destroys no context, leaves the
    registry as it is and only allocates. *)
Definition steady {A} (m : M A) : Prop :=
  ∀ w, (∀ p, is_Some (contexts (m w).2 !! p) ↔ is_Some (contexts w !! p)) ∧
       thread_contexts (m w).2 = thread_contexts w ∧
       next_addr w ≤ next_addr (m w).2.

(** A property of worlds that a computation keeps, however it ends. *)
Definition preserves {A} (I : World → Prop) (m : M A) : Prop :=
  ∀ w, I w → I (m w).2.

(** A property of the heap of contexts, as a property of worlds. *)
Definition on_contexts (Q : gmap addr Context → Prop) (w : World) : Prop :=
  Q (contexts w).


(** ** A reference engine

    A small engine on which the program runs on concrete inputs: it knows
    [BEGIN], [COMMIT], [ROLLBACK], [DELETE FROM t] and the existence query
    of [rowIdExists], opens the files that exist, and prepares the texts
    it can execute.  As [sqlite3_changes] does, it counts the rows of a
    [DELETE] and reports the count of the last one after every other
    statement. *)
Module Reference.

Definition busy := Exception "cannot start a transaction within a transaction".
Definition idle := Exception "cannot commit - no transaction is active".
Definition cantopen := Exception "unable to open database file".
Definition syntax := Exception "syntax error".
Definition nosuch := Exception "no such table or column".

Definition in_transaction (db : Database) (b : bool) : Database :=
  {| db_filename := db_filename db; db_flags := db_flags db; db_autocommit := negb b;
     db_changes := db_changes db |}.

Definition deleted_table (q : string) : option string :=
  if String.prefix "DELETE FROM " q
  then Some (String.substring 12 (String.length q - 12) q) else None.

Definition counted (n : Z) (db : Database) : Database :=
  {| db_filename := db_filename db; db_flags := db_flags db;
     db_autocommit := db_autocommit db; db_changes := n |}.

Definition run (fd : FileData) (db : Database) (q : string)
  : exception + (Z * FileData * Database) :=
  if String.eqb q "BEGIN" then
    if db_autocommit db then inr (db_changes db, fd, in_transaction db true) else inl busy
  else if String.eqb q "COMMIT" || String.eqb q "ROLLBACK" then
    if db_autocommit db then inl idle else inr (db_changes db, fd, in_transaction db false)
  else match deleted_table q with
       | Some t =>
           match fd !! t with
           | Some T =>
               let n := Z.of_nat (length (rows T)) in
               inr (n, <[t := {| columns := columns T; rows := [] |}]> fd, counted n db)
           | None => inl nosuch
           end
       | None => inl syntax
       end.

Definition answer_in (t : string) (T : Table) (q : string) (kc : nat * string) : option Z :=
  let pre := "SELECT EXISTS(SELECT 1 FROM " +:+ t +:+ " WHERE " +:+ kc.2 +:+ " = " in
  if String.prefix pre q then
    Some (Z.b2z (existsb (λ r, match r !! kc.1 with
                               | Some v => String.eqb q (pre +:+ format_int v +:+ ")")
                               | None => false
                               end) (rows T)))
  else None.

Definition answer (fd : FileData) (q : string) : exception + Z :=
  match omap (λ tT, head (omap (answer_in tT.1 tT.2 q) (imap pair (columns tT.2))))
             (map_to_list fd) with
  | z :: _ => inr z
  | [] => inl nosuch
  end.

Definition prepares (q : string) : bool :=
  String.prefix "SELECT " q || String.prefix "INSERT " q || String.prefix "UPDATE " q
  || String.prefix "DELETE " q.

Definition engine : Engine :=
  {| mainThreadId := 0;
     sqlite_open := λ fs path _, if fs !! path is Some _ then None else Some cantopen;
     sqlite_close := λ _, None;
     sqlite_prepare := λ _ _ q, if prepares q then None else Some syntax;
     sqlite_exec := run;
     sqlite_execAndGet := λ fd _ q, answer fd q |}.

(** The same engine on a system that refuses a second handle on a file:
    the read-only connection opens, the read-write one does not. *)
Definition engine_one_handle : Engine :=
  {| mainThreadId := 0;
     sqlite_open := λ fs path flags,
       match flags with
       | OPEN_READONLY => if fs !! path is Some _ then None else Some cantopen
       | OPEN_READWRITE => Some cantopen
       end;
     sqlite_close := λ _, None;
     sqlite_prepare := λ _ _ q, if prepares q then None else Some syntax;
     sqlite_exec := run;
     sqlite_execAndGet := λ fd _ q, answer fd q |}.

(** A database file with one table of three rows. *)
Definition archive_file : Table :=
  {| columns := ["id"; "size"]; rows := [[1; 100]; [42; 7]; [43; 0]]%Z |}.

Definition slade_sqlite : FileData := {[ "archive_file" := archive_file ]}.

(** The initial world with the program database on disk. *)
Definition world0 : World :=
  set_files (λ _, {[ "slade.sqlite" := slade_sqlite ]}) (initial_world (E := engine)).

(** The program database opened in the main context. *)
Definition world_open : World :=
  (open (E := engine) db_global "slade.sqlite" world0).2.

(** The main context as it is in [world_open]. *)
Definition main_open : Context :=
  {| thread_id_ := 0; file_path_ := "slade.sqlite"; connection_ro_ := Some 1;
     connection_rw_ := Some 2; cached_queries_ := ∅ |}.

(** [world_open] with one query cached. *)
Definition world_cached : World :=
  (cacheQuery (E := engine) db_global "rows" "SELECT id FROM archive_file" false
     world_open).2.

(** A closed context created on thread [t]. *)
Definition worker (t : thread_id) : Context :=
  {| thread_id_ := t; file_path_ := ""; connection_ro_ := None;
     connection_rw_ := None; cached_queries_ := ∅ |}.

(** Three worker contexts, one of thread 5 and two of thread 7, none of
    them registered. *)
Definition world_workers : World :=
  set_next_addr (λ _, 4)
    (set_contexts (λ m, <[3 := worker 7]> (<[2 := worker 7]> (<[1 := worker 5]> m)))
       world0).

(** The same with all three registered in the order of their addresses. *)
Definition world_registered : World :=
  set_thread_contexts (λ _, [1; 2; 3]) world_workers.



End Reference.

(** ** The functions of the namespace *)

Section Namespace.
Context {E : Engine}.

(** Modelled from the spec: [Context::connectionRO] and
    [Context::connectionRW] are declared in Database.h, which is not among
    the sources; they return the read-only and the read-write connection
    the context holds, null when it holds none. *)
Definition Context_connectionRO (this : addr) : M (option addr) :=
  c ← deref contexts (Some this); ret (connection_ro_ c).

Definition Context_connectionRW (this : addr) : M (option addr) :=
  c ← deref contexts (Some this); ret (connection_rw_ c).

(** Modelled from the spec: [database::connectionRO] and
    [database::connectionRW] are declared in Database.h, which is not among
    the sources; as the comment of [database::exec] says of the latter,
    they are the connections of the global context of the calling
    thread. *)
Definition connectionRO (current : thread_id) : M (option addr) :=
  g ← global current; Context_connectionRO g.

Definition connectionRW (current : thread_id) : M (option addr) :=
  g ← global current; Context_connectionRW g.

(** [database::exec(query, connection)] (both overloads), called on thread
    [current]. *)
Definition database_exec (current : thread_id) (query : string) (connection : option addr)
  : M Z :=
  connection ← match connection with
               | None => connectionRW current
               | Some _ => ret connection
               end;
  match connection with
  | None => ret 0%Z
  | Some _ => Database_exec connection query
  end.

(** [database::close] *)
Definition database_close : M unit :=
  close db_global;; ret tt.

End Namespace.

(** ** The program database: creation, update and start-up *)

(** The members of [app::Dir] the module names. *)
Inductive Dir := User | Temp | Executable.

(** An entry of an archive: its name and its bytes. *)
Record ArchiveEntry := { entry_name : string; entry_data : string }.

(** Column 0 of a row of a result, as text and as an integer. *)
Record Column := { column_text : string; column_integer : Z }.

(** What the module reads of an archive. *)
Record Archive := {
  dirAtPath : string → option (list ArchiveEntry);
  entryAtPath : string → option ArchiveEntry
}.

(** The rest of the program and of the engine, as far as creation,
    start-up and the console command call it: the program resource archive
    (null before it is loaded), [app::path], [fileutil::fileExists] and
    [fileutil::copyFile] on the files on disk,
    [strutil::Path::fileNameOf(name, false)], opening a file with
    [OPEN_READWRITE | OPEN_CREATE] (the fault, or the files on disk
    afterwards), [SQLite::Database::tableExists], and what stepping a
    statement to its end gives: column 0 of the rows it yields, then the
    fault if a step throws. *)
Class App := {
  programResource : option Archive;
  app_path : string → Dir → string;
  fileutil_fileExists : gmap string FileData → string → bool;
  fileutil_copyFile : gmap string FileData → string → string → gmap string FileData;
  fileNameOf : string → string;
  sqlite_open_create : gmap string FileData → string → exception + gmap string FileData;
  sqlite_tableExists : FileData → Database → string → exception + bool;
  sqlite_steps : FileData → Database → string → list Column * option exception
}.

(** The world together with the other variables the functions below
    assign: [global::error], the static [template_db_path] and the lines
    written with [log::console]. *)
Record Process := {
  world : World;
  global_error : string;
  template_db_path : string;
  console : list string
}.

Definition set_world (f : World → World) (s : Process) : Process :=
  {| world := f (world s); global_error := global_error s;
     template_db_path := template_db_path s; console := console s |}.

Definition set_global_error (f : string → string) (s : Process) : Process :=
  {| world := world s; global_error := f (global_error s);
     template_db_path := template_db_path s; console := console s |}.

Definition set_template_db_path (f : string → string) (s : Process) : Process :=
  {| world := world s; global_error := global_error s;
     template_db_path := f (template_db_path s); console := console s |}.

Definition set_console (f : list string → list string) (s : Process) : Process :=
  {| world := world s; global_error := global_error s;
     template_db_path := template_db_path s; console := f (console s) |}.

(** Computations on a [Process], with the outcomes of [M]. *)
Definition P (A : Type) : Type := Process → outcome A * Process.

Definition P_ret {A} (a : A) : P A := λ s, (Returns a, s).

Definition P_bind {A B} (m : P A) (k : A → P B) : P B :=
  λ s, let (o, s') := m s in
       match o with
       | Returns a => k a s'
       | Throws e => (Throws e, s')
       | Undefined => (Undefined, s')
       end.

#[global] Instance P_mret : MRet P := @P_ret.
#[global] Instance P_mbind : MBind P := λ A B k m, P_bind m k.

Definition P_throw {A} (e : exception) : P A := λ s, (Throws e, s).

Definition P_undefined {A} : P A := λ s, (Undefined, s).

Definition P_try_catch {A} (m : P A) (h : exception → P A) : P A :=
  λ s, let (o, s') := m s in
       match o with
       | Throws e => h e s'
       | _ => (o, s')
       end.

Definition get_process : P Process := λ s, (Returns s, s).

Definition P_modify (f : Process → Process) : P unit := λ s, (Returns tt, f s).

(** A computation on the world, run in the process. *)
Definition lift {A} (m : M A) : P A :=
  λ s, let (o, w') := m (world s) in (o, set_world (λ _, w') s).

(** [log::console] *)
Definition log_console (line : string) : P unit :=
  P_modify (set_console (λ lines, lines ++ [line])).

Section Bootstrap.
Context {E : Engine} {Ap : App}.

(** [SQLite::Database db(file_path, OPEN_READWRITE | OPEN_CREATE)] *)
Definition Database_new_create (filename : string) : M addr :=
  w ← get_world;
  match sqlite_open_create (files w) filename with
  | inl e => throw e
  | inr fs =>
      modify (set_files (λ _, fs));;
      p ← fresh;
      modify (set_databases <[p := {| db_filename := filename; db_flags := OPEN_READWRITE;
                                      db_autocommit := true; db_changes := 0%Z |}]>);;
      ret p
  end.

(** [db.tableExists(table_name)] *)
Definition Database_tableExists (p : addr) (table_name : string) : M bool :=
  db ← deref databases (Some p);
  w ← get_world;
  match sqlite_tableExists (file_data w db) db table_name with
  | inl e => throw e
  | inr b => ret b
  end.

(** The loop of [createMissingTables] over the entries of the directory. *)
Fixpoint createMissingTables_loop (db : addr) (entries : list ArchiveEntry) : P bool :=
  match entries with
  | [] => mret true
  | entry :: entries' =>
      let table_name := fileNameOf (entry_name entry) in
      there ← lift (Database_tableExists db table_name);
      if there : bool then createMissingTables_loop db entries'
      else
        let sql := entry_data entry in
        created ← P_try_catch
                    (lift (Database_exec (Some db) sql);;
                     lift (log_message Info ("Created database table " +:+ table_name));;
                     mret true)
                    (λ ex,
                       P_modify (set_global_error (λ _,
                         "Failed to create database table " +:+ table_name +:+ ": "
                         +:+ what ex));;
                       mret false);
        if created : bool then createMissingTables_loop db entries' else mret false
  end.

(** [createMissingTables] *)
Definition createMissingTables (db : addr) : P bool :=
  match programResource with
  | None => P_undefined
  | Some resource =>
      match dirAtPath resource "database/tables" with
      | None =>
          P_modify (set_global_error (λ _,
            "Unable to initialize SLADE database: no table definitions in slade.pk3"));;
          mret false
      | Some entries => createMissingTables_loop db entries
      end
  end.

(** A [SQLite::Database] with automatic storage: it is destroyed when
    [body] is left, also by an exception; a fault of its destructor while
    an exception is in flight calls [std::terminate], which is rendered as
    [Undefined]. *)
Definition with_local_database {A} (p : addr) (body : P A) : P A :=
  λ s, let (o, s') := body s in
       match o with
       | Returns a => (lift (Database_delete p);; mret a) s'
       | Throws e =>
           let (o', s'') := lift (Database_delete p) s' in
           match o' with
           | Returns _ => (Throws e, s'')
           | _ => (Undefined, s'')
           end
       | Undefined => (Undefined, s')
       end.

(** [createDatabase] *)
Definition createDatabase (file_path : string) : P bool :=
  db ← lift (Database_new_create file_path);
  with_local_database db (createMissingTables db).

(** [updateDatabase] *)
Definition updateDatabase : P bool :=
  connection ← lift (Context_connectionRW db_global);
  match connection with
  | None => P_undefined
  | Some db =>
      ok ← createMissingTables db;
      if negb ok then mret false else mret true
  end.

(** [templateDbPath] *)
Definition templateDbPath : P string :=
  s ← get_process;
  (if bool_decide (template_db_path s = "") then
     P_modify (set_template_db_path (λ _, app_path "slade_template.sqlite" Temp));;
     s' ← get_process;
     lift (modify (set_files (λ fs,
       fileutil_copyFile fs (app_path "res/Database/slade.sqlite" Executable)
                         (template_db_path s'))))
   else mret tt);;
  s' ← get_process;
  mret (template_db_path s').

(** [database::fileExists] *)
Definition fileExists : M bool :=
  w ← get_world;
  ret (fileutil_fileExists (files w) (app_path "slade.sqlite" User)).

(** [database::programDatabasePath] *)
Definition programDatabasePath : string := app_path "slade.sqlite" User.

(** [database::init] from the opening of the global connections on;
    [created] tells whether the file was created by this call. *)
Definition init_open (db_path : string) (created : bool) : P bool :=
  opened ← lift (open db_global db_path);
  if negb opened then
    P_modify (set_global_error (λ _, "Unable to open global database connections"));;
    mret false
  else if negb created then updateDatabase
  else mret true.

(** [database::init] *)
Definition init : P bool :=
  let db_path := app_path "slade.sqlite" User in
  w ← lift get_world;
  if negb (fileutil_fileExists (files w) db_path) then
    ok ← createDatabase db_path;
    if negb ok then mret false else init_open db_path true
  else init_open db_path false.

(** *** The console command [db] *)

(** A [SQLite::Statement] with automatic storage: it is destroyed when
    [body] is left, also by an exception. *)
Definition with_local_statement {A} (sql : addr) (body : P A) : P A :=
  λ s, let (o, s') := body s in (o, set_world (set_statements (delete sql)) s').

(** [while (sql.executeStep()) log::console(sql.getColumn(0).getString())]
    when the steps yield [rows] and then end, with [fault] if there is
    one. *)
Fixpoint log_rows (sql : addr) (rows : list Column) (fault : option exception) : P unit :=
  match rows with
  | [] =>
      match fault with
      | Some ex => P_throw ex
      | None => lift (Statement_executeStep sql false);; mret tt
      end
  | row :: rows' =>
      lift (Statement_executeStep sql true);;
      log_console (column_text row);;
      log_rows sql rows' fault
  end.

(** The text of the statement of [tables]. *)
Definition tables_query : string :=
  "SELECT name FROM sqlite_master WHERE type = 'table' ORDER BY name".

(** The branch of [c_db] for [tables]. *)
Definition c_db_tables (current : thread_id) : P unit :=
  db ← lift (connectionRO current);
  match db with
  | Some p =>
      let query := tables_query in
      sql ← lift (Statement_new (Some p) query);
      with_local_statement sql
        (d ← lift (deref databases (Some p));
         w ← lift get_world;
         let (rows, fault) := sqlite_steps (file_data w d) d query in
         log_rows sql rows fault)
  | None => mret tt
  end.

(** The branch of [c_db] for [rowcount]. *)
Definition c_db_rowcount (current : thread_id) (args : list string) : P unit :=
  match args !! 1 with
  | None => log_console "No table name given. Usage: db rowcount <tablename>"
  | Some table =>
      db ← lift (connectionRO current);
      match db with
      | Some p =>
          let query := "SELECT COUNT(*) FROM " +:+ table in
          sql ← lift (Statement_new (Some p) query);
          with_local_statement sql
            (d ← lift (deref databases (Some p));
             w ← lift get_world;
             match sqlite_steps (file_data w d) d query with
             | (row :: _, _) =>
                 lift (Statement_executeStep sql true);;
                 log_console (format_int (getInt (column_integer row)) +:+ " rows")
             | ([], Some ex) => P_throw ex
             | ([], None) =>
                 lift (Statement_executeStep sql false);;
                 log_console "No such table"
             end)
      | None => mret tt
      end
  end.

(** The branch of [c_db] for [reset]. *)
Definition c_db_reset (current : thread_id) (args : list string) : P unit :=
  match args !! 1 with
  | None => log_console "No table name given. Usage: db reset <tablename>"
  | Some table =>
      db ← lift (connectionRW current);
      match db with
      | Some p =>
          match programResource with
          | None => P_undefined
          | Some resource =>
              match entryAtPath resource ("database/tables/" +:+ table +:+ ".sql") with
              | None => log_console ("Can't find table sql script for " +:+ table)
              | Some sql_entry =>
                  let sql := entry_data sql_entry in
                  lift (Database_exec (Some p) ("DROP TABLE IF EXISTS " +:+ table));;
                  lift (Database_exec (Some p) sql);;
                  log_console ("Table " +:+ table +:+ " recreated and reset to default")
              end
          end
      | None => mret tt
      end
  end.

(** [c_db], the console command [db], run on thread [current]. *)
Definition c_db (current : thread_id) (args : list string) : P unit :=
  match args with
  | [] => P_undefined
  | command :: _ =>
      P_try_catch
        (if String.eqb command "tables" then c_db_tables current
         else if String.eqb command "rowcount" then c_db_rowcount current args
         else if String.eqb command "reset" then c_db_reset current args
         else mret tt)
        (λ ex, lift (log_message Error (what ex)))
  end.

End Bootstrap.

(** The statement [createMissingTables] runs for an entry, on connection
    [db], as the trace records it. *)
Definition script_of (db : addr) (entry : ArchiveEntry) : addr * string :=
  (db, entry_data entry).

(** The line [createMissingTables] logs after the script of an entry ran. *)
Definition created_line {Ap : App} (entry : ArchiveEntry) : level * string :=
  (Info, "Created database table " +:+ fileNameOf (entry_name entry)).

(** The message [createMissingTables] leaves in [global::error] when the
    script of an entry throws [ex]. *)
Definition failed_message {Ap : App} (entry : ArchiveEntry) (ex : exception) : string :=
  "Failed to create database table " +:+ fileNameOf (entry_name entry) +:+ ": " +:+ what ex.

(** Between [s] and [s'] the scripts of [ran] were run on [db] in this
    order, and nothing else happened to the objects of the program: the
    contexts, the statements, the registry, the other connections, the
    template path and the console are as before, and [db] is still alive. *)
Definition scripts_ran (db : addr) (ran : list ArchiveEntry) (s s' : Process) : Prop :=
  trace (world s') = trace (world s) ++ (script_of db <$> ran) ∧
  contexts (world s') = contexts (world s) ∧
  statements (world s') = statements (world s) ∧
  thread_contexts (world s') = thread_contexts (world s) ∧
  next_addr (world s') = next_addr (world s) ∧
  delete db (databases (world s')) = delete db (databases (world s)) ∧
  is_Some (databases (world s') !! db) ∧
  template_db_path s' = template_db_path s ∧
  console s' = console s.

(** Every table named by [entries] exists in the file of connection
    [d]. *)
Definition tables_exist {Ap : App} (fd : FileData) (d : Database)
    (entries : list ArchiveEntry) : Prop :=
  ∀ entry, entry ∈ entries →
    sqlite_tableExists fd d (fileNameOf (entry_name entry)) = inr true.

(** ** Sample programs

    Engines, a program resource and worlds on which the functions of the
    namespace, creation, start-up and the console command run on concrete
    inputs. *)
Module Sample.
Import Reference.

(** The reference engine on a system that gives no handle on any file. *)
Definition engine_no_handle : Engine :=
  {| mainThreadId := 0;
     sqlite_open := λ _ _ _, Some cantopen;
     sqlite_close := λ _, None;
     sqlite_prepare := λ _ _ q, if prepares q then None else Some syntax;
     sqlite_exec := run;
     sqlite_execAndGet := λ fd _ q, answer fd q |}.

(** The reference engine, which also knows [DROP TABLE IF EXISTS t]. *)
Definition engine_drop : Engine :=
  {| mainThreadId := 0;
     sqlite_open := λ fs path _, if fs !! path is Some _ then None else Some cantopen;
     sqlite_close := λ _, None;
     sqlite_prepare := λ _ _ q, if prepares q then None else Some syntax;
     sqlite_exec := λ fd db q,
       if String.prefix "DROP TABLE IF EXISTS " q
       then inr (db_changes db,
                 delete (String.substring 21 (String.length q - 21) q) fd, db)
       else run fd db q;
     sqlite_execAndGet := λ fd _ q, answer fd q |}.

(** The table a [CREATE TABLE t (...)] statement names. *)
Definition created_table (q : string) : option string :=
  if String.prefix "CREATE TABLE " q then
    match String.index 13 " " q with
    | Some n => Some (String.substring 13 (n - 13) q)
    | None => None
    end
  else None.

(** The reference engine, which also knows [CREATE TABLE t (...)], on a
    system that gives a handle on any file. *)
Definition engine_create : Engine :=
  {| mainThreadId := 0;
     sqlite_open := λ _ _ _, None;
     sqlite_close := λ _, None;
     sqlite_prepare := λ _ _ q, if prepares q then None else Some syntax;
     sqlite_exec := λ fd db q,
       match created_table q with
       | Some t => inr (db_changes db, <[t := {| columns := []; rows := [] |}]> fd, db)
       | None => run fd db q
       end;
     sqlite_execAndGet := λ fd _ q, answer fd q |}.

(** The name of a file without its extension. *)
Definition stem (name : string) : string :=
  match String.index 0 "." name with
  | Some n => String.substring 0 n name
  | None => name
  end.

Definition archive_file_sql : ArchiveEntry :=
  {| entry_name := "archive_file.sql";
     entry_data := "CREATE TABLE archive_file (id INTEGER PRIMARY KEY, size INTEGER)" |}.

Definition archive_map_sql : ArchiveEntry :=
  {| entry_name := "archive_map.sql";
     entry_data := "CREATE TABLE archive_map (id INTEGER PRIMARY KEY)" |}.

(** The table definitions of the program resource. *)
Definition tables : list ArchiveEntry := [archive_file_sql; archive_map_sql].

Definition slade_pk3 : Archive :=
  {| dirAtPath := λ path, if String.eqb path "database/tables" then Some tables else None;
     entryAtPath := λ path,
       if String.eqb path "database/tables/archive_file.sql" then Some archive_file_sql
       else if String.eqb path "database/tables/archive_map.sql" then Some archive_map_sql
       else None |}.

(** A program resource without table definitions. *)
Definition bare_pk3 : Archive :=
  {| dirAtPath := λ _, None; entryAtPath := λ _, None |}.

(** A program whose user and executable directories are the current one
    and whose temporary directory is [temp]. *)
Definition app_with (resource : Archive) : App :=
  {| programResource := Some resource;
     app_path := λ name dir, match dir with
                             | Temp => "temp/" +:+ name
                             | _ => name
                             end;
     fileutil_fileExists := λ fs path, if fs !! path is Some _ then true else false;
     fileutil_copyFile := λ fs from to,
       if fs !! from is Some data then <[to := data]> fs else fs;
     fileNameOf := stem;
     sqlite_open_create := λ fs path,
       inr (if fs !! path is Some _ then fs else <[path := ∅]> fs);
     sqlite_tableExists := λ fd _ table, inr (if fd !! table is Some _ then true else false);
     sqlite_steps := λ fd _ q,
       if String.eqb q tables_query
       then ((λ entry, {| column_text := entry.1; column_integer := 0 |}) <$> map_to_list fd,
             None)
       else ([], Some nosuch) |}.

Definition app : App := app_with slade_pk3.

Definition app_bare : App := app_with bare_pk3.

(** A process that has just started in world [w]. *)
Definition process (w : World) : Process :=
  {| world := w; global_error := ""; template_db_path := ""; console := [] |}.

(** The main context of [world_cached]. *)
Definition main_cached : Context :=
  {| thread_id_ := 0; file_path_ := "slade.sqlite"; connection_ro_ := Some 1;
     connection_rw_ := Some 2; cached_queries_ := {[ "rows" := 3 ]} |}.

(** [world_cached] after the main context was closed. *)
Definition world_closed : World := (close (E := engine) db_global world_cached).2.

(** The world after a context was constructed on thread 7 for the program
    database. *)
Definition world_worker_open : World :=
  (Context_new (E := engine) 7 "slade.sqlite" world0).2.

(** The two connections of [world_open]. *)
Definition connection_ro : Database :=
  {| db_filename := "slade.sqlite"; db_flags := OPEN_READONLY; db_autocommit := true;
     db_changes := 0%Z |}.

Definition connection_rw : Database :=
  {| db_filename := "slade.sqlite"; db_flags := OPEN_READWRITE; db_autocommit := true;
     db_changes := 0%Z |}.

(** A program database with both tables of the program resource. *)
Definition slade_full : FileData :=
  <[ "archive_map" := {| columns := ["id"]; rows := [] |} ]> slade_sqlite.

(** The initial world with that database on disk, and the same with the
    main context opened on it. *)
Definition world0_full : World :=
  set_files (λ _, {[ "slade.sqlite" := slade_full ]}) (initial_world (E := engine)).

Definition world_full : World :=
  (open (E := engine) db_global "slade.sqlite" world0_full).2.

(** A run in which thread 7 creates and registers a context, thread 5
    does the same, thread 7 creates a second context on the program
    database and registers it, and then destroys its first. *)
Definition destroy_first : list Op :=
  [OpNew 7 ""; OpRegister 1; OpNew 5 ""; OpRegister 2;
   OpNew 7 "slade.sqlite"; OpRegister 3; OpDelete 1].

(** The world after the calls of [ops], made one after the other from
    [w]. *)
Definition world_after (ops : list Op) (w : World) : World :=
  foldl (λ w o, (run_op (E := engine) o w).2) w ops.

Definition world_destroyed : World := world_after destroy_first world0.

End Sample.

(** ** Running the monad *)

Section Run.
Context {E : Engine}.

Lemma bind_run {A B} (m : M A) (k : A → M B) (w : World) :
  (m ≫= k) w = match m w with
               | (Returns a, w') => k a w'
               | (Throws e, w') => (Throws e, w')
               | (Undefined, w') => (Undefined, w')
               end.
Proof. reflexivity. Qed.

Lemma bind_returns {A B} (m : M A) (k : A → M B) (w w' : World) (a : A) :
  m w = (Returns a, w') → (m ≫= k) w = k a w'.
Proof. intros Hm. rewrite bind_run, Hm. reflexivity. Qed.

Lemma bind_same {A B} (m m' : M A) (k : A → M B) (w w' : World) :
  m w = m' w' → (m ≫= k) w = (m' ≫= k) w'.
Proof. intros Hm. rewrite !bind_run, Hm. reflexivity. Qed.

Lemma deref_live {A} (heap : World → gmap addr A) (w : World) (p : addr) (x : A) :
  heap w !! p = Some x → deref heap (Some p) w = (Returns x, w).
Proof. intros Hp. unfold deref. rewrite Hp. reflexivity. Qed.

Lemma deref_null {A} (heap : World → gmap addr A) (w : World) :
  deref heap None w = (Undefined, w).
Proof. reflexivity. Qed.

Lemma isForThisThread_run (w : World) (p : addr) (c : Context) (current : thread_id) :
  contexts w !! p = Some c →
  isForThisThread p current w = (Returns (bool_decide (thread_id_ c = current)), w).
Proof.
  intros Hp. unfold isForThisThread.
  rewrite (bind_returns _ _ _ _ _ (deref_live contexts w p c Hp)). reflexivity.
Qed.

(** The scan passes over contexts of other threads. *)
Lemma find_thread_context_skip (current : thread_id) (l1 l2 : list addr) (w : World) :
  (∀ q, q ∈ l1 → created_elsewhere w q current) →
  find_thread_context current (l1 ++ l2) w = find_thread_context current l2 w.
Proof.
  induction l1 as [|q l1 IH]; intros Hl1; [reflexivity|].
  destruct (Hl1 q) as (c & Hc & Hne); [left|].
  cbn [app find_thread_context].
  rewrite (bind_returns _ _ _ _ _ (isForThisThread_run w q c current Hc)).
  rewrite bool_decide_eq_false_2 by exact Hne.
  apply IH. intros q' Hq'. apply Hl1. right. exact Hq'.
Qed.

Lemma find_thread_context_none (current : thread_id) (l : list addr) (w : World) :
  (∀ q, q ∈ l → created_elsewhere w q current) →
  find_thread_context current l w = (Returns None, w).
Proof.
  intros Hl. rewrite <- (app_nil_r l).
  rewrite find_thread_context_skip by exact Hl. reflexivity.
Qed.

Lemma find_thread_context_first (current : thread_id) (l1 l2 : list addr) (p : addr)
    (w : World) :
  (∀ q, q ∈ l1 → created_elsewhere w q current) →
  created_on w p current →
  find_thread_context current (l1 ++ p :: l2) w = (Returns (Some p), w).
Proof.
  intros Hl1 (c & Hc & Heq).
  rewrite find_thread_context_skip by exact Hl1.
  cbn [find_thread_context].
  rewrite (bind_returns _ _ _ _ _ (isForThisThread_run w p c current Hc)).
  rewrite bool_decide_eq_true_2 by exact Heq. reflexivity.
Qed.

Lemma global_main (w : World) : global mainThreadId w = (Returns db_global, w).
Proof.
  unfold global. rewrite bool_decide_eq_false_2; [reflexivity|].
  intros Hne. apply Hne. reflexivity.
Qed.

Lemma global_worker (current : thread_id) (w : World) (found : option addr) :
  current ≠ mainThreadId →
  find_thread_context current (thread_contexts w) w = (Returns found, w) →
  global current w =
    match found with
    | Some p => (Returns p, w)
    | None => (Returns db_global, warned w)
    end.
Proof.
  intros Hne Hfind. unfold global. rewrite bool_decide_eq_true_2 by exact Hne.
  rewrite bind_run. cbn [get_world].
  rewrite bind_run, Hfind. destruct found; reflexivity.
Qed.

End Run.

(** ** The registry loops on lists *)

Section Erase.
Context (P : addr → Prop) `{∀ x, Decision (P x)}.

(** One iteration at index [i] of a loop that erases the entries failing
    [P], seen from the iterations still to come. *)
Lemma erase_iteration (l : list addr) (i : nat) (p : addr) :
  l !! i = Some p →
  filter P (take i (if decide (P p) then l else delete i l))
    ++ drop i (if decide (P p) then l else delete i l)
  = filter P (take (S i) l) ++ drop (S i) l.
Proof.
  intros Hi. rewrite (take_S_r l i p Hi), filter_app.
  destruct (decide (P p)) as [Hp|Hp].
  - rewrite (drop_S l p i Hi), (filter_cons_True P p []) by exact Hp.
    rewrite filter_nil, <- app_assoc. reflexivity.
  - rewrite (filter_cons_False P p []) by exact Hp. rewrite filter_nil, app_nil_r.
    assert (Hlen : i < length l) by (apply lookup_lt_is_Some; eauto).
    rewrite delete_take_drop.
    rewrite take_app_le by (rewrite length_take; lia).
    rewrite take_take, Nat.min_id.
    rewrite drop_app_length' by (rewrite length_take; lia).
    reflexivity.
Qed.

Lemma erase_all (l : list addr) :
  filter P (take (length l) l) ++ drop (length l) l = filter P l.
Proof. rewrite firstn_all, drop_all, app_nil_r. reflexivity. Qed.

End Erase.

Lemma set_thread_contexts_id (w : World) (f : list addr → list addr) :
  f (thread_contexts w) = thread_contexts w → set_thread_contexts f w = w.
Proof. intros Hf. destruct w. unfold set_thread_contexts. cbn in *. rewrite Hf. reflexivity. Qed.

Lemma set_thread_contexts_ext (w : World) (f g : list addr → list addr) :
  f (thread_contexts w) = g (thread_contexts w) →
  set_thread_contexts f w = set_thread_contexts g w.
Proof. intros Hf. unfold set_thread_contexts. rewrite Hf. reflexivity. Qed.

Lemma set_thread_contexts_compose (w : World) (f g : list addr → list addr) :
  set_thread_contexts f (set_thread_contexts g w) = set_thread_contexts (λ l, f (g l)) w.
Proof. reflexivity. Qed.

Section Registry.
Context {E : Engine}.

(** The destructor's loop keeps exactly the entries that are not [this]
    among the first [n], and does not touch the others. *)
Lemma erase_this_loop_run (this : addr) (n : nat) (w : World) :
  n ≤ length (thread_contexts w) →
  erase_this_loop this n w =
    (Returns tt,
     set_thread_contexts (λ l, filter (λ p, p ≠ this) (take n l) ++ drop n l) w).
Proof.
  revert w. induction n as [|i IH]; intros w Hn.
  - cbn. rewrite set_thread_contexts_id; [reflexivity|]. reflexivity.
  - destruct (lookup_lt_is_Some_2 (thread_contexts w) i) as [p Hp]; [lia|].
    cbn [erase_this_loop]. rewrite bind_run. cbn [get_world].
    rewrite Hp. rewrite bind_run. cbn [mret M_ret ret].
    destruct (decide (p = this)) as [Heq|Hne].
    + rewrite bool_decide_eq_true_2 by exact Heq.
      rewrite bind_run. cbn [modify].
      rewrite IH by (cbn; rewrite length_delete by eauto; lia).
      f_equal. rewrite set_thread_contexts_compose.
      apply set_thread_contexts_ext.
      rewrite <- (erase_iteration (λ p, p ≠ this) _ i p Hp).
      rewrite decide_False by (intros Hc; apply Hc; exact Heq). reflexivity.
    + rewrite bool_decide_eq_false_2 by exact Hne.
      rewrite bind_run. cbn [mret M_ret ret].
      rewrite IH by lia. f_equal.
      apply set_thread_contexts_ext.
      rewrite <- (erase_iteration (λ p, p ≠ this) _ i p Hp).
      rewrite decide_True by exact Hne. reflexivity.
Qed.

(** The deregistration loop keeps exactly the entries of other threads
    among the first [n], and does not touch the others. *)
Lemma deregister_loop_run (current : thread_id) (n : nat) (w : World) :
  n ≤ length (thread_contexts w) →
  (∀ j p, j < n → thread_contexts w !! j = Some p → is_Some (contexts w !! p)) →
  deregister_loop current n w =
    (Returns tt,
     set_thread_contexts
       (λ l, filter (λ p, thread_of w p ≠ Some current) (take n l) ++ drop n l) w).
Proof.
  revert w. induction n as [|i IH]; intros w Hn Hlive.
  - cbn. rewrite set_thread_contexts_id; [reflexivity|]. reflexivity.
  - destruct (lookup_lt_is_Some_2 (thread_contexts w) i) as [p Hp]; [lia|].
    destruct (Hlive i p) as [c Hc]; [lia|exact Hp|].
    assert (Hth : thread_of w p = Some (thread_id_ c))
      by (unfold thread_of; rewrite Hc; reflexivity).
    cbn [deregister_loop]. rewrite bind_run. cbn [get_world].
    rewrite Hp. rewrite (bind_returns _ _ _ _ _ (isForThisThread_run w p c current Hc)).
    destruct (decide (thread_id_ c = current)) as [Heq|Hne].
    + rewrite bool_decide_eq_true_2 by exact Heq.
      rewrite bind_run. cbn [modify].
      rewrite IH.
      * f_equal. rewrite set_thread_contexts_compose.
        apply set_thread_contexts_ext.
        rewrite <- (erase_iteration (λ p, thread_of w p ≠ Some current) _ i p Hp).
        rewrite decide_False by (rewrite Hth, Heq; intros Hc'; apply Hc'; reflexivity).
        reflexivity.
      * cbn. rewrite length_delete by eauto. lia.
      * cbn. intros j q Hj Hq. rewrite list_lookup_delete_lt in Hq by lia.
        apply (Hlive j q); [lia|exact Hq].
    + rewrite bool_decide_eq_false_2 by exact Hne.
      rewrite bind_run. cbn [mret M_ret ret].
      rewrite IH.
      * f_equal. apply set_thread_contexts_ext.
        rewrite <- (erase_iteration (λ p, thread_of w p ≠ Some current) _ i p Hp).
        rewrite decide_True by (rewrite Hth; congruence). reflexivity.
      * lia.
      * intros j q Hj Hq. apply (Hlive j q); [lia|exact Hq].
Qed.

Lemma deregisterThreadContexts_run (current : thread_id) (w : World) :
  registry_live w →
  deregisterThreadContexts current w =
    (Returns tt,
     set_thread_contexts (filter (λ p, thread_of w p ≠ Some current)) w).
Proof.
  intros Hlive. unfold deregisterThreadContexts. rewrite bind_run. cbn [get_world].
  rewrite deregister_loop_run.
  - f_equal. apply set_thread_contexts_ext. apply erase_all.
  - lia.
  - intros j p _ Hp. apply Hlive. apply list_elem_of_lookup. eauto.
Qed.


Lemma global_first (current : thread_id) (w : World) (l1 l2 : list addr) (p : addr) :
  current ≠ mainThreadId →
  thread_contexts w = l1 ++ p :: l2 →
  (∀ q, q ∈ l1 → created_elsewhere w q current) →
  created_on w p current →
  global current w = (Returns p, w).
Proof.
  intros Hne Hreg Hl1 Hp.
  rewrite (global_worker current w (Some p) Hne); [reflexivity|].
  rewrite Hreg. apply find_thread_context_first; assumption.
Qed.

Lemma global_fallback (current : thread_id) (w : World) :
  current ≠ mainThreadId →
  (∀ q, q ∈ thread_contexts w → created_elsewhere w q current) →
  global current w = (Returns db_global, warned w).
Proof.
  intros Hne Hall.
  rewrite (global_worker current w None Hne); [reflexivity|].
  apply find_thread_context_none. exact Hall.
Qed.

(** C1. Global resolution: on the main thread the main context is returned
    whatever the registry holds and the world is left as it was; on any
    other thread the first registered context created on the calling
    thread is returned, in registry order; when there is none, the warning
    is logged and the main context is returned. *)
Theorem global_resolution (current : thread_id) (w : World) :
  (current = mainThreadId → global current w = (Returns db_global, w)) ∧
  (current ≠ mainThreadId →
   (∀ l1 p l2,
      thread_contexts w = l1 ++ p :: l2 →
      (∀ q, q ∈ l1 → created_elsewhere w q current) →
      created_on w p current →
      global current w = (Returns p, w)) ∧
   ((∀ q, q ∈ thread_contexts w → created_elsewhere w q current) →
    global current w = (Returns db_global, warned w))).
Proof.
  split; [intros ->; apply global_main|].
  intros Hne. split.
  - intros l1 p l2 Hreg Hl1 Hp. exact (global_first current w l1 l2 p Hne Hreg Hl1 Hp).
  - intros Hall. exact (global_fallback current w Hne Hall).
Qed.

(** Registering a context of thread [t] on a registry that has none for
    [t], then resolving from [t], returns it; after deregistration the
    resolution falls back to the main context with a warning. *)
Lemma register_resolve_deregister (t : thread_id) (c : addr) (w : World) :
  t ≠ mainThreadId → registry_live w →
  (∀ q, q ∈ thread_contexts w → created_elsewhere w q t) →
  created_on w c t →
  let w1 := set_thread_contexts (λ l, l ++ [c]) w in
  let w2 := set_thread_contexts (filter (λ p, thread_of w p ≠ Some t)) w1 in
  (registerThreadContext c;; global t) w = (Returns c, w1) ∧
  (deregisterThreadContexts t;; global t) w1 = (Returns db_global, warned w2).
Proof.
  intros Hne Hlive Hothers Hc w1 w2. split.
  - rewrite bind_run. unfold registerThreadContext, modify. fold w1.
    apply (global_first t w1 (thread_contexts w) [] c Hne);
      [reflexivity|exact Hothers|exact Hc].
  - rewrite bind_run. rewrite deregisterThreadContexts_run.
    + fold w2. apply (global_fallback t w2 Hne).
      intros q Hq. cbn in Hq. apply list_elem_of_filter in Hq as [Hq1 Hq2].
      apply elem_of_app in Hq2 as [Hq2|Hq2].
      * apply Hothers. exact Hq2.
      * apply list_elem_of_singleton in Hq2 as ->.
        destruct Hc as (cc & Hcc & Ht). exfalso. apply Hq1.
        unfold thread_of. rewrite Hcc. cbn. congruence.
    + intros q Hq. cbn in Hq. apply elem_of_app in Hq as [Hq|Hq].
      * apply Hlive. exact Hq.
      * apply list_elem_of_singleton in Hq as ->.
        destruct Hc as (cc & Hcc & _). exists cc. exact Hcc.
Qed.


End Registry.

(** ** The context: how its operations run *)

Section ContextRuns.
Context {E : Engine}.

Lemma try_catch_run {A} (m : M A) (h : exception → M A) (w : World) :
  try_catch m h w = match m w with
                    | (Throws e, w') => h e w'
                    | r => r
                    end.
Proof. reflexivity. Qed.

Lemma try_catch_bind_returns {A B} (m : M A) (k : A → M B) (h : exception → M B)
    (w w1 : World) (a : A) :
  m w = (Returns a, w1) → try_catch (m ≫= k) h w = try_catch (k a) h w1.
Proof. intros Hm. rewrite !try_catch_run, bind_run, Hm. reflexivity. Qed.

Lemma update_this_run (w : World) (this : addr) (c : Context) (f : Context → Context) :
  contexts w !! this = Some c →
  update_this this f w = (Returns tt, set_contexts <[this := f c]> w).
Proof.
  intros Hc. unfold update_this.
  rewrite (bind_returns _ _ _ _ _ (deref_live contexts w this c Hc)). reflexivity.
Qed.

Lemma clear_cached_queries_run (w : World) (this : addr) (c : Context) :
  contexts w !! this = Some c →
  clear_cached_queries this w =
    (Returns tt,
     set_contexts <[this := with_cached_queries ∅ c]>
       (set_statements (λ h, foldr delete h (map_to_list (cached_queries_ c)).*2) w)).
Proof.
  intros Hc. unfold clear_cached_queries.
  rewrite (bind_returns _ _ _ _ _ (deref_live contexts w this c Hc)).
  rewrite bind_run. unfold modify at 1.
  rewrite (update_this_run _ this c) by exact Hc. reflexivity.
Qed.

Lemma Database_delete_run (w : World) (p : addr) (db : Database) :
  databases w !! p = Some db →
  Database_delete p w =
    (match sqlite_close db with Some e => Throws e | None => Returns tt end,
     set_databases (delete p) w).
Proof.
  intros Hp. unfold Database_delete.
  rewrite (bind_returns _ _ _ _ _ (deref_live databases w p db Hp)).
  rewrite bind_run. unfold modify at 1.
  destruct (sqlite_close db); reflexivity.
Qed.

Lemma assign_connection_ro_run (w : World) (this : addr) (c : Context) (p : option addr) :
  contexts w !! this = Some c →
  assign_connection_ro this p w =
    match connection_ro_ c with
    | Some old => Database_delete old (set_contexts <[this := with_connection_ro p c]> w)
    | None => (Returns tt, set_contexts <[this := with_connection_ro p c]> w)
    end.
Proof.
  intros Hc. unfold assign_connection_ro.
  rewrite (bind_returns _ _ _ _ _ (deref_live contexts w this c Hc)).
  rewrite (bind_returns _ _ _ _ _ (update_this_run w this c _ Hc)).
  destruct (connection_ro_ c); reflexivity.
Qed.

Lemma assign_connection_rw_run (w : World) (this : addr) (c : Context) (p : option addr) :
  contexts w !! this = Some c →
  assign_connection_rw this p w =
    match connection_rw_ c with
    | Some old => Database_delete old (set_contexts <[this := with_connection_rw p c]> w)
    | None => (Returns tt, set_contexts <[this := with_connection_rw p c]> w)
    end.
Proof.
  intros Hc. unfold assign_connection_rw.
  rewrite (bind_returns _ _ _ _ _ (deref_live contexts w this c Hc)).
  rewrite (bind_returns _ _ _ _ _ (update_this_run w this c _ Hc)).
  destruct (connection_rw_ c); reflexivity.
Qed.

(** A context without a read-only connection is left alone by [close]. *)
Lemma close_noop (w : World) (this : addr) (c : Context) :
  contexts w !! this = Some c → connection_ro_ c = None →
  close this w = (Returns true, w).
Proof.
  intros Hc Hro. unfold close.
  rewrite (bind_returns _ _ _ _ _ (deref_live contexts w this c Hc)).
  rewrite Hro. reflexivity.
Qed.

Local Ltac live :=
  cbn; first [ apply lookup_insert_eq
             | rewrite lookup_delete_ne by congruence; eassumption
             | eassumption ].

(** What [close] leaves behind, in every case: it returns, the registry
    and the other contexts are as before, and the context itself has no
    read-only connection and (when it had one) nothing cached; when [close]
    reports success after having had something to close, both connections
    are gone. *)
Lemma close_run (w : World) (this : addr) (c : Context) :
  contexts w !! this = Some c → connections_live w c →
  ∃ b w' c',
    close this w = (Returns b, w') ∧
    contexts w' = <[this := c']> (contexts w) ∧
    thread_contexts w' = thread_contexts w ∧
    thread_id_ c' = thread_id_ c ∧
    connections_live w' c' ∧
    connection_ro_ c' = None ∧
    (is_Some (connection_ro_ c) → cached_queries_ c' = ∅) ∧
    (connection_ro_ c = None → c' = c ∧ b = true) ∧
    (b = true → is_Some (connection_ro_ c) → connection_rw_ c' = None).
Proof.
  intros Hc (Hlro & Hlrw & Hne).
  destruct (connection_ro_ c) as [a|] eqn:Hro.
  2:{ exists true, w, c. rewrite (close_noop w this c Hc Hro).
      rewrite insert_id by exact Hc.
      repeat split; try assumption; try reflexivity; try congruence.
      - intros [? ?]; discriminate.
      - intros _ [? ?]; discriminate. }
  destruct (Hlro a eq_refl) as [da Ha].
  unfold close.
  rewrite (bind_returns _ _ _ _ _ (deref_live contexts w this c Hc)).
  rewrite Hro. rewrite bind_run, try_catch_run.
  rewrite (bind_returns _ _ _ _ _ (clear_cached_queries_run w this c Hc)).
  erewrite bind_run, assign_connection_ro_run by live.
  cbn [connection_ro_ with_cached_queries]. rewrite Hro.
  erewrite Database_delete_run by live.
  destruct (sqlite_close da) as [e|].
  { erewrite bind_returns by (apply deref_live; live).
    rewrite bind_run. cbn.
    eexists false, _, _. split; [reflexivity|]. cbn.
    rewrite !insert_insert_eq. split; [reflexivity|].
    repeat split; cbn; try congruence.
    intros q Hq. rewrite lookup_delete_ne by (intros ->; eapply Hne; eauto).
    apply Hlrw. exact Hq. }
  erewrite bind_run, assign_connection_rw_run by live.
  cbn [connection_rw_ with_connection_ro with_cached_queries].
  destruct (connection_rw_ c) as [b|] eqn:Hrw.
  - destruct (Hlrw b eq_refl) as [db_ Hb].
    assert (Hab : a ≠ b) by (apply Hne; reflexivity).
    erewrite Database_delete_run by live.
    destruct (sqlite_close db_) as [e|].
    + erewrite bind_returns by (apply deref_live; live).
      rewrite bind_run. cbn.
      eexists false, _, _. split; [reflexivity|]. cbn.
      rewrite !insert_insert_eq. split; [reflexivity|].
      repeat split; cbn; congruence.
    + cbn [mret M_ret ret]. erewrite bind_returns by (apply update_this_run; live).
      eexists true, _, _. split; [reflexivity|]. cbn.
      rewrite !insert_insert_eq. split; [reflexivity|].
      repeat split; cbn; congruence.
  - cbn [mret M_ret ret]. erewrite bind_returns by (apply update_this_run; live).
    eexists true, _, _. split; [reflexivity|]. cbn.
    rewrite !insert_insert_eq. split; [reflexivity|].
    repeat split; cbn; congruence.
Qed.

(** When [close] reports success on a context that has both connections
    or none, the context is closed. *)
Lemma close_success_closes (w w' : World) (this : addr) (c : Context) :
  contexts w !! this = Some c → connections_live w c → both_or_neither c →
  close this w = (Returns true, w') →
  ∃ c', contexts w' !! this = Some c' ∧ is_closed c' ∧ connections_live w' c'.
Proof.
  intros Hc Hlive Hpair Hclose.
  destruct (close_run w this c Hc Hlive)
    as (b & w1 & c1 & Hrun & Hctx & _ & _ & Hlive1 & Hro1 & _ & Hnone & Hsome).
  rewrite Hclose in Hrun. injection Hrun as <- <-.
  exists c1. split; [rewrite Hctx; apply lookup_insert_eq|]. split; [|exact Hlive1].
  split; [exact Hro1|].
  destruct (connection_ro_ c) as [a|] eqn:Hro.
  - apply Hsome; [reflexivity|eauto].
  - destruct (Hnone eq_refl) as [-> _].
    destruct Hpair as [[[x Hx] _]|[_ Hrw]]; [congruence|exact Hrw].
Qed.

Lemma Database_new_run (w : World) (filename : string) (flags : OpenFlags) :
  Database_new filename flags w =
    match sqlite_open (files w) filename flags with
    | Some e => (Throws e, w)
    | None =>
        (Returns (next_addr w),
         set_databases <[next_addr w := {| db_filename := filename; db_flags := flags;
                                           db_autocommit := true; db_changes := 0%Z |}]>
           (set_next_addr S w))
    end.
Proof.
  unfold Database_new. rewrite bind_run. cbn [get_world].
  destruct (sqlite_open (files w) filename flags); reflexivity.
Qed.

(** When [open] reports success on a context that has both connections
    or none, the context has both connections. *)
Lemma open_success_opens (w w' : World) (this : addr) (c : Context) (file_path : string) :
  contexts w !! this = Some c → connections_live w c → both_or_neither c →
  open this file_path w = (Returns true, w') →
  ∃ c', contexts w' !! this = Some c' ∧
        is_Some (connection_ro_ c') ∧ is_Some (connection_rw_ c') ∧
        file_path_ c' = file_path.
Proof.
  intros Hc Hlive Hpair Hopen.
  destruct (close_run w this c Hc Hlive)
    as (b & w1 & c1 & Hrun & Hctx & _ & _ & Hlive1 & Hro1 & _ & Hnone & Hsome).
  assert (Hc1 : contexts w1 !! this = Some c1) by (rewrite Hctx; apply lookup_insert_eq).
  unfold open in Hopen. rewrite (bind_returns _ _ _ _ _ Hrun) in Hopen.
  destruct b; cbn [negb] in Hopen; [|discriminate].
  destruct (close_success_closes w w1 this c Hc Hlive Hpair Hrun)
    as (c1' & Hc1' & [_ Hrw1] & _).
  assert (c1' = c1) as -> by congruence.
  erewrite bind_returns in Hopen by (apply update_this_run; exact Hc1).
  rewrite bind_run, Database_new_run in Hopen. cbn [files set_contexts] in Hopen.
  destruct (sqlite_open (files w1) file_path OPEN_READONLY); [discriminate|].
  erewrite bind_run, assign_connection_ro_run in Hopen by live.
  cbn [connection_ro_ with_file_path] in Hopen. rewrite Hro1 in Hopen.
  rewrite bind_run, Database_new_run in Hopen.
  cbn [files set_contexts set_databases set_next_addr] in Hopen.
  destruct (sqlite_open (files w1) file_path OPEN_READWRITE); [discriminate|].
  erewrite bind_run, assign_connection_rw_run in Hopen by live.
  cbn [connection_rw_ with_file_path with_connection_ro] in Hopen. rewrite Hrw1 in Hopen.
  injection Hopen as <-.
  eexists. split; [cbn; apply lookup_insert_eq|]. cbn. eauto.
Qed.

End ContextRuns.

(** ** Properties kept by every step of a computation *)

Section Preserves.
Context {E : Engine} (I : World → Prop).

Lemma preserves_ret {A} (a : A) : preserves I (mret a : M A).
Proof. intros w Hw. exact Hw. Qed.

Lemma preserves_throw {A} (e : exception) : preserves I (throw e : M A).
Proof. intros w Hw. exact Hw. Qed.

Lemma preserves_undefined {A} : preserves I (undefined : M A).
Proof. intros w Hw. exact Hw. Qed.

Lemma preserves_get_world : preserves I get_world.
Proof. intros w Hw. exact Hw. Qed.

Lemma preserves_deref {A} (heap : World → gmap addr A) (p : option addr) :
  preserves I (deref heap p).
Proof.
  intros w Hw. unfold deref. destruct p as [a|]; [|exact Hw].
  destruct (heap w !! a); exact Hw.
Qed.

Lemma preserves_modify (f : World → World) :
  (∀ w, I w → I (f w)) → preserves I (modify f).
Proof. intros Hf w Hw. apply Hf. exact Hw. Qed.

Lemma preserves_bind {A B} (m : M A) (k : A → M B) :
  preserves I m → (∀ a, preserves I (k a)) → preserves I (m ≫= k).
Proof.
  intros Hm Hk w Hw. rewrite bind_run. specialize (Hm w Hw).
  destruct (m w) as [[a|e|] w1]; cbn in *; [apply Hk|..]; exact Hm.
Qed.

Lemma preserves_try_catch {A} (m : M A) (h : exception → M A) :
  preserves I m → (∀ e, preserves I (h e)) → preserves I (try_catch m h).
Proof.
  intros Hm Hh w Hw. rewrite try_catch_run. specialize (Hm w Hw).
  destruct (m w) as [[a|e|] w1]; cbn in *; [|apply Hh|]; exact Hm.
Qed.

(** A step that reads the context and writes it back changed. *)
Lemma preserves_update_this (this : addr) (f : Context → Context) :
  (∀ w c, I w → contexts w !! this = Some c → I (set_contexts <[this := f c]> w)) →
  preserves I (update_this this f).
Proof.
  intros Hf w Hw. unfold update_this, deref. rewrite bind_run.
  destruct (contexts w !! this) as [c|] eqn:Hc; cbn; [|exact Hw].
  apply Hf; assumption.
Qed.

End Preserves.

Section OnContexts.
Context {E : Engine} (Q : gmap addr Context → Prop).

Lemma on_contexts_Database_delete (p : addr) :
  preserves (on_contexts Q) (Database_delete p).
Proof.
  unfold Database_delete.
  apply preserves_bind; [apply preserves_deref|]. intros db.
  apply preserves_bind; [apply preserves_modify; intros w Hw; exact Hw|]. intros _.
  destruct (sqlite_close db); [apply preserves_throw|apply preserves_ret].
Qed.

Lemma on_contexts_log_message (l : level) (s : string) :
  preserves (on_contexts Q) (log_message l s).
Proof. apply preserves_modify. intros w Hw. exact Hw. Qed.

Lemma on_contexts_assign_connection_ro (this : addr) (p : option addr) :
  (∀ m c, Q m → m !! this = Some c → Q (<[this := with_connection_ro p c]> m)) →
  preserves (on_contexts Q) (assign_connection_ro this p).
Proof.
  intros HQ. unfold assign_connection_ro.
  apply preserves_bind; [apply preserves_deref|]. intros c.
  apply preserves_bind.
  - apply preserves_update_this. intros w c' Hw Hc'. apply HQ; assumption.
  - intros _. destruct (connection_ro_ c);
      [apply on_contexts_Database_delete|apply preserves_ret].
Qed.

Lemma on_contexts_assign_connection_rw (this : addr) (p : option addr) :
  (∀ m c, Q m → m !! this = Some c → Q (<[this := with_connection_rw p c]> m)) →
  preserves (on_contexts Q) (assign_connection_rw this p).
Proof.
  intros HQ. unfold assign_connection_rw.
  apply preserves_bind; [apply preserves_deref|]. intros c.
  apply preserves_bind.
  - apply preserves_update_this. intros w c' Hw Hc'. apply HQ; assumption.
  - intros _. destruct (connection_rw_ c);
      [apply on_contexts_Database_delete|apply preserves_ret].
Qed.

End OnContexts.

(** ** Computations that leave the contexts alone *)

Section Keeps.
Context {E : Engine}.

Lemma keeps_ret {A} (a : A) : keeps_contexts (mret a : M A).
Proof. intros w. reflexivity. Qed.

Lemma keeps_throw {A} (e : exception) : keeps_contexts (throw e : M A).
Proof. intros w. reflexivity. Qed.

Lemma keeps_undefined {A} : keeps_contexts (undefined : M A).
Proof. intros w. reflexivity. Qed.

Lemma keeps_get_world : keeps_contexts get_world.
Proof. intros w. reflexivity. Qed.

Lemma keeps_fresh : keeps_contexts fresh.
Proof. intros w. reflexivity. Qed.

Lemma keeps_deref {A} (heap : World → gmap addr A) (p : option addr) :
  keeps_contexts (deref heap p).
Proof.
  intros w. unfold deref. destruct p as [a|]; [|reflexivity].
  destruct (heap w !! a); reflexivity.
Qed.

Lemma keeps_modify (f : World → World) :
  (∀ w, contexts (f w) = contexts w) → keeps_contexts (modify f).
Proof. intros Hf w. apply Hf. Qed.

Lemma keeps_bind {A B} (m : M A) (k : A → M B) :
  keeps_contexts m → (∀ a, keeps_contexts (k a)) → keeps_contexts (m ≫= k).
Proof.
  intros Hm Hk w. rewrite bind_run. specialize (Hm w).
  destruct (m w) as [[a|e|] w1]; cbn in *; [rewrite Hk|..]; exact Hm.
Qed.

Lemma keeps_on_contexts {A} (Q : gmap addr Context → Prop) (m : M A) :
  keeps_contexts m → preserves (on_contexts Q) m.
Proof. intros Hm w Hw. unfold on_contexts. rewrite Hm. exact Hw. Qed.

End Keeps.

Ltac keeps :=
  repeat first
    [ apply keeps_ret | apply keeps_throw | apply keeps_undefined
    | apply keeps_get_world | apply keeps_fresh | apply keeps_deref
    | apply keeps_modify; intros ?; reflexivity
    | apply keeps_bind; [|intros ?]
    | match goal with
      | |- keeps_contexts (match ?x with _ => _ end) => destruct x
      | |- keeps_contexts (if ?x then _ else _) => destruct x
      | |- keeps_contexts (let (_, _) := ?x in _) => destruct x
      end
    | assumption ].

Section KeepsOperations.
Context {E : Engine}.

Lemma keeps_Database_new (filename : string) (flags : OpenFlags) :
  keeps_contexts (Database_new filename flags).
Proof. unfold Database_new. keeps. Qed.

Lemma keeps_Database_delete (p : addr) : keeps_contexts (Database_delete p).
Proof. unfold Database_delete. keeps. Qed.

Lemma keeps_Database_exec (connection : option addr) (query : string) :
  keeps_contexts (Database_exec connection query).
Proof. unfold Database_exec. keeps. Qed.

Lemma keeps_Database_execAndGet (connection : option addr) (query : string) :
  keeps_contexts (Database_execAndGet connection query).
Proof. unfold Database_execAndGet. keeps. Qed.

Lemma keeps_Statement_new (db : option addr) (sql : string) :
  keeps_contexts (Statement_new db sql).
Proof. unfold Statement_new. keeps. Qed.

Lemma keeps_Statement_tryReset (s : addr) : keeps_contexts (Statement_tryReset s).
Proof. unfold Statement_tryReset. keeps. Qed.

Lemma keeps_Statement_executeStep (s : addr) (row : bool) :
  keeps_contexts (Statement_executeStep s row).
Proof. unfold Statement_executeStep. keeps. Qed.

Lemma keeps_log_message (l : level) (s : string) : keeps_contexts (log_message l s).
Proof. unfold log_message. keeps. Qed.

Lemma keeps_isForThisThread (this : addr) (current : thread_id) :
  keeps_contexts (isForThisThread this current).
Proof. unfold isForThisThread. keeps. Qed.

Lemma keeps_cachedQuery (this : addr) (id : string) : keeps_contexts (cachedQuery this id).
Proof. unfold cachedQuery. keeps. Qed.

Lemma keeps_exec (this : addr) (query : string) : keeps_contexts (exec this query).
Proof. unfold exec. keeps. Qed.

Lemma keeps_rowIdExists (this : addr) (table_name : string) (id : Z) (id_col : string) :
  keeps_contexts (rowIdExists this table_name id id_col).
Proof. unfold rowIdExists. keeps. Qed.

Lemma keeps_beginTransaction (this : addr) (write : bool) :
  keeps_contexts (beginTransaction this write).
Proof.
  unfold beginTransaction, Transaction_new, beginIfNoActiveTransaction,
    isTransactionActive, Transaction_begin.
  keeps. apply keeps_Database_exec.
Qed.

Lemma keeps_find_thread_context (current : thread_id) (l : list addr) :
  keeps_contexts (find_thread_context current l).
Proof.
  induction l as [|p l IH]; cbn [find_thread_context]; keeps.
Qed.

Lemma keeps_global (current : thread_id) : keeps_contexts (global current).
Proof.
  unfold global. keeps. apply keeps_find_thread_context.
Qed.

Lemma keeps_registerThreadContext (context : addr) :
  keeps_contexts (registerThreadContext context).
Proof. unfold registerThreadContext. keeps. Qed.

Lemma keeps_deregister_loop (current : thread_id) (n : nat) :
  keeps_contexts (deregister_loop current n).
Proof.
  induction n as [|i IH]; cbn [deregister_loop]; keeps.
Qed.

Lemma keeps_deregisterThreadContexts (current : thread_id) :
  keeps_contexts (deregisterThreadContexts current).
Proof. unfold deregisterThreadContexts. keeps. apply keeps_deregister_loop. Qed.

Lemma keeps_erase_this_loop (this : addr) (n : nat) :
  keeps_contexts (erase_this_loop this n).
Proof. induction n as [|i IH]; cbn [erase_this_loop]; keeps. Qed.

End KeepsOperations.

(** ** Nothing is cached without a read-only connection *)

Section Invariant.
Context {E : Engine}.

Lemma nothing_cached_update (this : addr) (f : Context → Context)
    (m : gmap addr Context) (c : Context) :
  (∀ c, cached_queries_ (f c) = cached_queries_ c) →
  nothing_cached this m → m !! this = Some c →
  nothing_cached this (<[this := f c]> m).
Proof.
  intros Hf (c' & Hc' & Hempty) Hc. exists (f c). rewrite lookup_insert_eq.
  split; [reflexivity|]. rewrite Hf. congruence.
Qed.

Lemma leads_bind {A B} (I J K : World → Prop) (m : M A) (k : A → M B) :
  leads I J m → (∀ w, J w → K w) → (∀ a, leads J K (k a)) → leads I K (m ≫= k).
Proof.
  intros Hm HJK Hk w Hw. rewrite bind_run. specialize (Hm w Hw).
  destruct (m w) as [[a|e|] w1]; cbn in *; [apply Hk|apply HJK..]; exact Hm.
Qed.

Lemma leads_try_catch {A} (I J K : World → Prop) (m : M A) (h : exception → M A) :
  leads I J m → (∀ w, J w → K w) → (∀ e, leads J K (h e)) → leads I K (try_catch m h).
Proof.
  intros Hm HJK Hh w Hw. rewrite try_catch_run. specialize (Hm w Hw).
  destruct (m w) as [[a|e|] w1]; cbn in *; [apply HJK|apply Hh|apply HJK]; exact Hm.
Qed.

Lemma deref_dead {A B} (heap : World → gmap addr A) (w : World) (p : addr) (k : A → M B) :
  heap w !! p = None → (deref heap (Some p) ≫= k) w = (Undefined, w).
Proof. intros Hp. rewrite bind_run. unfold deref. rewrite Hp. reflexivity. Qed.

Lemma closed_and_empty_update (this : addr) (f : Context → Context)
    (m : gmap addr Context) (c : Context) :
  (∀ c, cached_queries_ (f c) = cached_queries_ c) →
  closed_and_empty this m → m !! this = Some c →
  closed_and_empty this (<[this := f c]> m).
Proof.
  intros Hf [Hall Hempty] Hc. split.
  - intros p cp Hp. destruct (decide (p = this)) as [->|Hne].
    + rewrite lookup_insert_eq in Hp. injection Hp as <-. intros _. rewrite Hf.
      destruct Hempty as (c' & Hc' & He). congruence.
    + rewrite lookup_insert_ne in Hp by congruence. apply (Hall p). exact Hp.
  - apply nothing_cached_update; assumption.
Qed.

Lemma closed_and_empty_clear (this : addr) (m : gmap addr Context) (c : Context) :
  all_cache_closed m → m !! this = Some c →
  closed_and_empty this (<[this := with_cached_queries ∅ c]> m).
Proof.
  intros Hall Hc. split.
  - intros p cp Hp. destruct (decide (p = this)) as [->|Hne].
    + rewrite lookup_insert_eq in Hp. injection Hp as <-. intros _. reflexivity.
    + rewrite lookup_insert_ne in Hp by congruence. apply (Hall p). exact Hp.
  - exists (with_cached_queries ∅ c). rewrite lookup_insert_eq. split; reflexivity.
Qed.

Lemma all_cache_closed_delete (this : addr) (m : gmap addr Context) :
  all_cache_closed m → all_cache_closed (delete this m).
Proof.
  intros Hall p c Hp. apply lookup_delete_Some in Hp as [_ Hp]. apply (Hall p). exact Hp.
Qed.

Lemma empty_update_this (this : addr) (f : Context → Context) :
  (∀ c, cached_queries_ (f c) = cached_queries_ c) →
  preserves (on_contexts (closed_and_empty this)) (update_this this f).
Proof.
  intros Hf. apply preserves_update_this. intros w c Hw Hc.
  apply closed_and_empty_update; assumption.
Qed.

Lemma empty_clear_cached_queries (this : addr) :
  preserves (on_contexts (closed_and_empty this)) (clear_cached_queries this).
Proof.
  unfold clear_cached_queries.
  apply preserves_bind; [apply preserves_deref|]. intros c.
  apply preserves_bind; [apply preserves_modify; intros w Hw; exact Hw|]. intros _.
  apply preserves_update_this. intros w c' [Hall _] Hc'.
  apply closed_and_empty_clear; assumption.
Qed.

Lemma empty_assign_connection_ro (this : addr) (p : option addr) :
  preserves (on_contexts (closed_and_empty this)) (assign_connection_ro this p).
Proof.
  apply on_contexts_assign_connection_ro. intros m c Hm Hc.
  apply closed_and_empty_update; [reflexivity|assumption..].
Qed.

Lemma empty_assign_connection_rw (this : addr) (p : option addr) :
  preserves (on_contexts (closed_and_empty this)) (assign_connection_rw this p).
Proof.
  apply on_contexts_assign_connection_rw. intros m c Hm Hc.
  apply closed_and_empty_update; [reflexivity|assumption..].
Qed.

(** [close], from the point where the cache has been cleared: a property
    of the contexts that holds then, and that no later assignment to the
    other members breaks, holds when [close] ends. *)
Lemma close_from_clear (Q : gmap addr Context → Prop) (w : World) (this : addr)
    (c : Context) :
  contexts w !! this = Some c →
  (∀ m c' f, (∀ c, cached_queries_ (f c) = cached_queries_ c) →
             Q m → m !! this = Some c' → Q (<[this := f c']> m)) →
  (connection_ro_ c = None → Q (contexts w)) →
  (is_Some (connection_ro_ c) → Q (<[this := with_cached_queries ∅ c]> (contexts w))) →
  on_contexts Q (close this w).2.
Proof.
  intros Hc Hupd Hnone Hsome.
  destruct (connection_ro_ c) as [a|] eqn:Hro.
  2:{ rewrite (close_noop w this c Hc Hro). apply Hnone. reflexivity. }
  unfold close.
  rewrite (bind_returns _ _ _ _ _ (deref_live contexts w this c Hc)). rewrite Hro.
  erewrite bind_same by
    (apply try_catch_bind_returns, (clear_cached_queries_run w this c Hc)).
  set (w1 := set_contexts _ _).
  assert (H1 : on_contexts Q w1) by (apply Hsome; eauto).
  revert H1. generalize w1. apply preserves_bind.
  - apply preserves_try_catch.
    + apply preserves_bind; [|intros _; apply preserves_bind; [|intros _; apply preserves_ret]].
      * apply on_contexts_assign_connection_ro. intros m c' Hm Hc'.
        apply Hupd; [reflexivity|assumption..].
      * apply on_contexts_assign_connection_rw. intros m c' Hm Hc'.
        apply Hupd; [reflexivity|assumption..].
    + intros e. apply preserves_bind; [apply preserves_deref|]. intros c'.
      apply preserves_bind; [apply on_contexts_log_message|].
      intros _. apply preserves_ret.
  - intros [|]; [|apply preserves_ret].
    apply preserves_bind; [|intros _; apply preserves_ret].
    apply preserves_update_this. intros w' c' Hw' Hc'.
    apply Hupd; [reflexivity|assumption..].
Qed.

Lemma close_empties (w : World) (this : addr) (c : Context) :
  contexts w !! this = Some c → all_cache_closed (contexts w) →
  on_contexts (closed_and_empty this) (close this w).2.
Proof.
  intros Hc Hall. apply (close_from_clear _ w this c Hc).
  - intros m c' f Hf Hm Hc'. apply closed_and_empty_update; assumption.
  - intros Hro. split; [exact Hall|]. exists c. split; [exact Hc|].
    apply (Hall this c Hc). exact Hro.
  - intros _. apply closed_and_empty_clear; assumption.
Qed.

Lemma empty_close (this : addr) :
  preserves (on_contexts (closed_and_empty this)) (close this).
Proof.
  intros w [Hall (c & Hc & _)]. apply (close_empties w this c); assumption.
Qed.

Lemma empty_open (this : addr) (file_path : string) :
  preserves (on_contexts (closed_and_empty this)) (open this file_path).
Proof.
  unfold open. apply preserves_bind; [apply empty_close|]. intros [|]; cbn [negb].
  2:{ apply preserves_ret. }
  apply preserves_bind; [apply empty_update_this; reflexivity|]. intros _.
  apply preserves_bind; [apply keeps_on_contexts, keeps_Database_new|]. intros ro.
  apply preserves_bind; [apply empty_assign_connection_ro|]. intros _.
  apply preserves_bind; [apply keeps_on_contexts, keeps_Database_new|]. intros rw.
  apply preserves_bind; [apply empty_assign_connection_rw|]. intros _.
  apply preserves_ret.
Qed.

(** The members are destroyed and the object is removed. *)
Lemma empty_destroy (this : addr) :
  leads (on_contexts (closed_and_empty this)) (on_contexts all_cache_closed)
    (clear_cached_queries this;;
     assign_connection_rw this None;;
     assign_connection_ro this None;;
     modify (set_contexts (delete this))).
Proof.
  assert (Hweak : ∀ w, on_contexts (closed_and_empty this) w →
                       on_contexts all_cache_closed w) by (intros w [Hall _]; exact Hall).
  eapply leads_bind; [apply empty_clear_cached_queries|exact Hweak|]. intros _.
  eapply leads_bind; [apply empty_assign_connection_rw|exact Hweak|]. intros _.
  eapply leads_bind; [apply empty_assign_connection_ro|exact Hweak|]. intros _.
  intros w [Hall _]. apply all_cache_closed_delete. exact Hall.
Qed.

Lemma closed_close (this : addr) :
  preserves (on_contexts all_cache_closed) (close this).
Proof.
  intros w Hw. destruct (contexts w !! this) as [c|] eqn:Hc.
  - apply (close_empties w this c Hc Hw).
  - unfold close. rewrite deref_dead by exact Hc. exact Hw.
Qed.

Lemma weaken_empty (this : addr) (w : World) :
  on_contexts (closed_and_empty this) w → on_contexts all_cache_closed w.
Proof. intros [Hall _]. exact Hall. Qed.

Lemma closed_open (this : addr) (file_path : string) :
  preserves (on_contexts all_cache_closed) (open this file_path).
Proof.
  intros w Hw. destruct (contexts w !! this) as [c|] eqn:Hc.
  2:{ unfold open, close. rewrite bind_run, deref_dead by exact Hc. exact Hw. }
  apply (weaken_empty this). unfold open.
  apply (leads_bind (λ w', w' = w) (on_contexts (closed_and_empty this))
           (on_contexts (closed_and_empty this)) (close this)); [| | |reflexivity].
  - intros w' ->. apply (close_empties w this c Hc Hw).
  - intros w' Hw'. exact Hw'.
  - intros [|]; cbn [negb]; [|apply preserves_ret].
    apply preserves_bind; [apply empty_update_this; reflexivity|]. intros _.
    apply preserves_bind; [apply keeps_on_contexts, keeps_Database_new|]. intros ro.
    apply preserves_bind; [apply empty_assign_connection_ro|]. intros _.
    apply preserves_bind; [apply keeps_on_contexts, keeps_Database_new|]. intros rw.
    apply preserves_bind; [apply empty_assign_connection_rw|]. intros _.
    apply preserves_ret.
Qed.

Lemma closed_Context_delete (this : addr) :
  preserves (on_contexts all_cache_closed) (Context_delete this).
Proof.
  intros w Hw. destruct (contexts w !! this) as [c|] eqn:Hc.
  2:{ unfold Context_delete, close. rewrite bind_run, deref_dead by exact Hc. exact Hw. }
  unfold Context_delete.
  apply (leads_bind (λ w', w' = w) (on_contexts (closed_and_empty this))
           (on_contexts all_cache_closed) (close this)); [| | |reflexivity].
  - intros w' ->. apply (close_empties w this c Hc Hw).
  - apply weaken_empty.
  - intros _.
    eapply leads_bind; [apply keeps_on_contexts, keeps_get_world|apply weaken_empty|].
    intros w0.
    eapply leads_bind;
      [apply keeps_on_contexts, keeps_erase_this_loop|apply weaken_empty|].
    intros _. apply empty_destroy.
Qed.

Lemma closed_Context_new (current : thread_id) (file_path : string) :
  preserves (on_contexts all_cache_closed) (Context_new current file_path).
Proof.
  unfold Context_new.
  apply preserves_bind; [apply keeps_on_contexts, keeps_fresh|]. intros this.
  eapply (leads_bind _ (on_contexts (closed_and_empty this))).
  - intros w Hw. unfold on_contexts in *. cbn. split.
    + intros p c Hp. destruct (decide (p = this)) as [->|Hne].
      * rewrite lookup_insert_eq in Hp. injection Hp as <-. intros _. reflexivity.
      * rewrite lookup_insert_ne in Hp by congruence. apply (Hw p). exact Hp.
    + eexists. rewrite lookup_insert_eq. split; reflexivity.
  - apply weaken_empty.
  - intros _. eapply leads_bind; [|intros w Hw; exact Hw|intros _; apply preserves_ret].
    destruct (bool_decide (file_path ≠ "")); [|intros w; apply weaken_empty].
    eapply leads_try_catch; [|apply weaken_empty|].
    + apply preserves_bind; [apply empty_open|intros _; apply preserves_ret].
    + intros ex.
      eapply leads_bind; [apply empty_clear_cached_queries|apply weaken_empty|]. intros _.
      eapply leads_bind; [apply empty_assign_connection_rw|apply weaken_empty|]. intros _.
      eapply leads_bind; [apply empty_assign_connection_ro|apply weaken_empty|]. intros _.
      eapply leads_bind; [|intros w Hw; exact Hw|intros _; apply preserves_throw].
      intros w [Hall _]. apply all_cache_closed_delete. exact Hall.
Qed.

Lemma closed_cacheQuery (this : addr) (id sql : string) (writes : bool) :
  preserves (on_contexts all_cache_closed) (cacheQuery this id sql writes).
Proof.
  intros w Hw. destruct (contexts w !! this) as [c|] eqn:Hc.
  2:{ unfold cacheQuery. rewrite deref_dead by exact Hc. exact Hw. }
  unfold cacheQuery.
  rewrite (bind_returns _ _ _ _ _ (deref_live contexts w this c Hc)).
  destruct (cached_queries_ c !! id) as [s|].
  { clear Hc. revert w Hw. apply keeps_on_contexts. keeps. }
  destruct (connection_ro_ c) as [ro|] eqn:Hro; [|exact Hw].
  apply (leads_bind (λ w', w' = w) (λ w', contexts w' = contexts w)
           (on_contexts all_cache_closed) (Statement_new _ sql)); [| | |reflexivity].
  - intros w' ->. apply keeps_Statement_new.
  - intros w' Hw'. unfold on_contexts. rewrite Hw'. exact Hw.
  - intros ptr w' Hw'. rewrite bind_run.
    erewrite update_this_run by (rewrite Hw'; exact Hc).
    cbn. unfold on_contexts. cbn. rewrite Hw'.
    intros p cp Hp. destruct (decide (p = this)) as [->|Hne].
    + rewrite lookup_insert_eq in Hp. injection Hp as <-. intros Hnone.
      cbn in Hnone. congruence.
    + rewrite lookup_insert_ne in Hp by congruence. apply (Hw p). exact Hp.
Qed.

Lemma closed_run_use (this : addr) (u : Use) :
  preserves (on_contexts all_cache_closed) (run_use this u).
Proof.
  destruct u as [s row|id|id sql writes|query|table_name i id_col]; cbn [run_use];
    (apply preserves_bind; [|intros _; apply preserves_ret]).
  - apply keeps_on_contexts, keeps_Statement_executeStep.
  - apply keeps_on_contexts, keeps_cachedQuery.
  - apply closed_cacheQuery.
  - apply keeps_on_contexts, keeps_exec.
  - apply keeps_on_contexts, keeps_rowIdExists.
Qed.

Lemma closed_run_op (o : Op) : preserves (on_contexts all_cache_closed) (run_op o).
Proof.
  destruct o; cbn [run_op].
  - apply preserves_bind; [apply closed_Context_new|intros _; apply preserves_ret].
  - apply closed_Context_delete.
  - apply preserves_bind; [apply closed_open|intros _; apply preserves_ret].
  - apply preserves_bind; [apply closed_close|intros _; apply preserves_ret].
  - apply closed_run_use.
  - apply preserves_bind; [|intros _; apply preserves_ret].
    apply keeps_on_contexts, keeps_beginTransaction.
  - apply keeps_on_contexts. keeps.
  - apply keeps_on_contexts, keeps_deregisterThreadContexts.
  - apply preserves_bind; [|intros _; apply preserves_ret].
    apply keeps_on_contexts, keeps_global.
Qed.

(** In every world a program reaches, a context without a read-only
    connection has nothing cached. *)
Lemma reachable_cache_closed (w : World) :
  reachable w → all_cache_closed (contexts w).
Proof.
  induction 1 as [fs|w o _ IH].
  - intros p c Hp. cbn in Hp. apply lookup_singleton_Some in Hp as [_ <-].
    intros _. reflexivity.
  - apply (closed_run_op o w IH).
Qed.

Lemma cachedQuery_none (w : World) (this : addr) (id : string) :
  on_contexts (nothing_cached this) w →
  cachedQuery this id w = (Returns None, w).
Proof.
  intros (c & Hc & Hempty). unfold cachedQuery.
  rewrite (bind_returns _ _ _ _ _ (deref_live contexts w this c Hc)).
  rewrite Hempty, lookup_empty. reflexivity.
Qed.

(** C4. In every world a program reaches, when [close] succeeds on a
    context, a later [cachedQuery] finds nothing, whatever the id: [close]
    clears the cache before it releases the connections, and a context it
    has nothing to close for has nothing cached. *)
Theorem close_clears_cache (w w' : World) (this : addr) :
  reachable w →
  close this w = (Returns true, w') →
  ∀ id, cachedQuery this id w' = (Returns None, w').
Proof.
  intros Hreach Hclose id. apply cachedQuery_none.
  destruct (contexts w !! this) as [c|] eqn:Hc.
  - replace w' with (close this w).2 by (rewrite Hclose; reflexivity).
    apply (close_empties w this c Hc). apply reachable_cache_closed. exact Hreach.
  - unfold close in Hclose. rewrite deref_dead in Hclose by exact Hc. discriminate.
Qed.

End Invariant.

(** ** The registry points to live contexts *)

Section Steady.
Context {E : Engine}.

Lemma steady_same {A} (m : M A) :
  (∀ w, contexts (m w).2 = contexts w ∧ thread_contexts (m w).2 = thread_contexts w ∧
        next_addr (m w).2 = next_addr w) →
  steady m.
Proof.
  intros Hm w. destruct (Hm w) as (Hc & Ht & Hn). rewrite Hc, Ht, Hn.
  repeat split; auto.
Qed.

Lemma steady_ret {A} (a : A) : steady (mret a : M A).
Proof. apply steady_same. intros w. repeat split. Qed.

Lemma steady_throw {A} (e : exception) : steady (throw e : M A).
Proof. apply steady_same. intros w. repeat split. Qed.

Lemma steady_undefined {A} : steady (undefined : M A).
Proof. apply steady_same. intros w. repeat split. Qed.

Lemma steady_get_world : steady get_world.
Proof. apply steady_same. intros w. repeat split. Qed.

Lemma steady_fresh : steady fresh.
Proof. intros w. cbn. repeat split; auto. Qed.

Lemma steady_deref {A} (heap : World → gmap addr A) (p : option addr) :
  steady (deref heap p).
Proof.
  apply steady_same. intros w. unfold deref. destruct p as [a|]; [|repeat split].
  destruct (heap w !! a); repeat split.
Qed.

Lemma steady_modify (f : World → World) :
  (∀ w, contexts (f w) = contexts w ∧ thread_contexts (f w) = thread_contexts w ∧
        next_addr (f w) = next_addr w) →
  steady (modify f).
Proof. intros Hf. apply steady_same. exact Hf. Qed.

Lemma steady_bind {A B} (m : M A) (k : A → M B) :
  steady m → (∀ a, steady (k a)) → steady (m ≫= k).
Proof.
  intros Hm Hk w. rewrite bind_run. specialize (Hm w).
  destruct (m w) as [[a|e|] w1]; cbn in *; [|exact Hm..].
  destruct Hm as (Hc & Ht & Hn). destruct (Hk a w1) as (Hc' & Ht' & Hn').
  split; [|split].
  - intros p. rewrite Hc'. apply Hc.
  - congruence.
  - lia.
Qed.

Lemma steady_try_catch {A} (m : M A) (h : exception → M A) :
  steady m → (∀ e, steady (h e)) → steady (try_catch m h).
Proof.
  intros Hm Hh w. rewrite try_catch_run. specialize (Hm w).
  destruct (m w) as [[a|e|] w1]; cbn in *; [exact Hm| |exact Hm].
  destruct Hm as (Hc & Ht & Hn). destruct (Hh e w1) as (Hc' & Ht' & Hn').
  split; [|split].
  - intros p. rewrite Hc'. apply Hc.
  - congruence.
  - lia.
Qed.

Lemma steady_update_this (this : addr) (f : Context → Context) :
  steady (update_this this f).
Proof.
  intros w. unfold update_this, deref. rewrite bind_run.
  destruct (contexts w !! this) as [c|] eqn:Hc; cbn; [|repeat split; auto].
  repeat split; auto.
  - destruct (decide (p = this)) as [->|Hne]; [rewrite Hc; eauto|].
    rewrite lookup_insert_ne by congruence. auto.
  - destruct (decide (p = this)) as [->|Hne]; [rewrite lookup_insert_eq; eauto|].
    rewrite lookup_insert_ne by congruence. auto.
Qed.

End Steady.

Ltac steady :=
  repeat first
    [ apply steady_ret | apply steady_throw | apply steady_undefined
    | apply steady_get_world | apply steady_fresh | apply steady_deref
    | apply steady_update_this
    | apply steady_modify; intros ?; split; [reflexivity|split; reflexivity]
    | apply steady_bind; [|intros ?]
    | apply steady_try_catch; [|intros ?]
    | match goal with
      | |- steady (match ?x with _ => _ end) => destruct x
      | |- steady (if ?x then _ else _) => destruct x
      | |- steady (let (_, _) := ?x in _) => destruct x
      end
    | assumption ].

Section SteadyOperations.
Context {E : Engine}.

Lemma steady_Database_new (filename : string) (flags : OpenFlags) :
  steady (Database_new filename flags).
Proof. unfold Database_new. steady. Qed.

Lemma steady_Database_delete (p : addr) : steady (Database_delete p).
Proof. unfold Database_delete. steady. Qed.

Lemma steady_Database_exec (connection : option addr) (query : string) :
  steady (Database_exec connection query).
Proof. unfold Database_exec. steady. Qed.

Lemma steady_Statement_new (db : option addr) (sql : string) :
  steady (Statement_new db sql).
Proof. unfold Statement_new. steady. Qed.

Lemma steady_clear_cached_queries (this : addr) : steady (clear_cached_queries this).
Proof. unfold clear_cached_queries. steady. Qed.

Lemma steady_assign_connection_ro (this : addr) (p : option addr) :
  steady (assign_connection_ro this p).
Proof. unfold assign_connection_ro. steady. Qed.

Lemma steady_assign_connection_rw (this : addr) (p : option addr) :
  steady (assign_connection_rw this p).
Proof. unfold assign_connection_rw. steady. Qed.

Lemma steady_close (this : addr) : steady (close this).
Proof.
  unfold close. steady.
Qed.

Lemma steady_open (this : addr) (file_path : string) : steady (open this file_path).
Proof.
  unfold open. apply steady_bind; [apply steady_close|]. intros closed. steady.
Qed.

Lemma steady_run_use (this : addr) (u : Use) : steady (run_use this u).
Proof.
  destruct u; cbn [run_use].
  all: unfold Statement_executeStep, cachedQuery, cacheQuery, exec, rowIdExists,
         Database_execAndGet, Statement_tryReset.
  all: steady.
  all: first [apply steady_Statement_new|apply steady_Database_exec].
Qed.

Lemma steady_beginTransaction (this : addr) (write : bool) :
  steady (beginTransaction this write).
Proof.
  unfold beginTransaction, Transaction_new, beginIfNoActiveTransaction,
    isTransactionActive, Transaction_begin.
  steady; try apply steady_Database_exec.
Qed.

Lemma steady_find_thread_context (current : thread_id) (l : list addr) :
  steady (find_thread_context current l).
Proof. induction l as [|p l IH]; cbn [find_thread_context]; steady. Qed.

Lemma steady_global (current : thread_id) : steady (global current).
Proof. unfold global. steady; try apply steady_find_thread_context. Qed.

(** What [steady] computations keep. *)
Lemma steady_registry_sound {A} (m : M A) : steady m → preserves registry_sound m.
Proof.
  intros Hm w [Hlive Hbelow]. destruct (Hm w) as (Hc & Ht & Hn). split.
  - intros p Hp. rewrite Ht in Hp. apply Hc, Hlive, Hp.
  - intros p Hp. apply Hc, Hbelow in Hp. lia.
Qed.

Lemma steady_registry_sound_without {A} (this : addr) (m : M A) :
  steady m → preserves (registry_sound_without this) m.
Proof.
  intros Hm w [Hsound Hnot]. split; [apply steady_registry_sound; assumption|].
  destruct (Hm w) as (_ & Ht & _). rewrite Ht. exact Hnot.
Qed.

Lemma registry_sound_delete (this : addr) (w : World) :
  registry_sound_without this w → registry_sound (set_contexts (delete this) w).
Proof.
  intros [[Hlive Hbelow] Hnot]. split.
  - intros p Hp. cbn in *. rewrite lookup_delete_ne by (intros ->; apply Hnot; exact Hp).
    apply Hlive. exact Hp.
  - intros p Hp. cbn in *. apply Hbelow.
    destruct Hp as [c Hp]. apply lookup_delete_Some in Hp as [_ Hp]. eauto.
Qed.

Lemma registry_sound_weaken (this : addr) (w : World) :
  registry_sound_without this w → registry_sound w.
Proof. intros [Hsound _]. exact Hsound. Qed.

(** The members are destroyed and the object is removed. *)
Lemma registry_destroy (this : addr) :
  leads (registry_sound_without this) registry_sound
    (clear_cached_queries this;;
     assign_connection_rw this None;;
     assign_connection_ro this None;;
     modify (set_contexts (delete this))).
Proof.
  eapply leads_bind;
    [apply steady_registry_sound_without, steady_clear_cached_queries
    |apply registry_sound_weaken|]. intros _.
  eapply leads_bind;
    [apply steady_registry_sound_without, steady_assign_connection_rw
    |apply registry_sound_weaken|]. intros _.
  eapply leads_bind;
    [apply steady_registry_sound_without, steady_assign_connection_ro
    |apply registry_sound_weaken|]. intros _.
  intros w Hw. apply registry_sound_delete. exact Hw.
Qed.

Lemma registry_Context_delete (this : addr) :
  preserves registry_sound (Context_delete this).
Proof.
  unfold Context_delete.
  eapply leads_bind; [apply steady_registry_sound, steady_close|intros w Hw; exact Hw|].
  intros _ w Hw. rewrite bind_run. cbn [get_world].
  rewrite bind_run, erase_this_loop_run by lia.
  apply registry_destroy. destruct Hw as [Hlive Hbelow]. split; [split|].
  - intros p Hp. cbn in *. rewrite erase_all in Hp.
    apply list_elem_of_filter in Hp as [_ Hp]. apply Hlive. exact Hp.
  - exact Hbelow.
  - cbn. rewrite erase_all. intros Hin. apply list_elem_of_filter in Hin as [Hne _].
    apply Hne. reflexivity.
Qed.

Lemma registry_Context_new (current : thread_id) (file_path : string) :
  preserves registry_sound (Context_new current file_path).
Proof.
  intros w [Hlive Hbelow]. unfold Context_new. rewrite bind_run. cbn [fresh].
  set (this := next_addr w).
  assert (Hnew : registry_sound_without this
            (set_contexts <[this := {| thread_id_ := current; file_path_ := "";
                                       connection_ro_ := None; connection_rw_ := None;
                                       cached_queries_ := ∅ |}]> (set_next_addr S w))).
  { split; [split|].
    - intros p Hp. cbn in *. destruct (decide (p = this)) as [->|Hne].
      + rewrite lookup_insert_eq. eauto.
      + rewrite lookup_insert_ne by congruence. apply Hlive. exact Hp.
    - intros p Hp. cbn in *. destruct (decide (p = this)) as [->|Hne]; [unfold this; lia|].
      rewrite lookup_insert_ne in Hp by congruence. apply Hbelow in Hp. lia.
    - cbn. intros Hin. apply Hlive, Hbelow in Hin. unfold this in Hin. lia. }
  rewrite bind_run. cbn [modify]. revert Hnew. generalize (set_contexts
    <[this := {| thread_id_ := current; file_path_ := ""; connection_ro_ := None;
                 connection_rw_ := None; cached_queries_ := ∅ |}]> (set_next_addr S w)).
  eapply leads_bind; [|intros w' Hw'; exact Hw'|intros _; apply preserves_ret].
  destruct (bool_decide (file_path ≠ "")); [|intros w'; apply registry_sound_weaken].
  eapply leads_try_catch; [|apply registry_sound_weaken|].
  - apply steady_registry_sound_without.
    apply steady_bind; [apply steady_open|intros _; apply steady_ret].
  - intros ex.
    eapply leads_bind;
      [apply steady_registry_sound_without, steady_clear_cached_queries
      |apply registry_sound_weaken|]. intros _.
    eapply leads_bind;
      [apply steady_registry_sound_without, steady_assign_connection_rw
      |apply registry_sound_weaken|]. intros _.
    eapply leads_bind;
      [apply steady_registry_sound_without, steady_assign_connection_ro
      |apply registry_sound_weaken|]. intros _.
    eapply leads_bind; [|intros w' Hw'; exact Hw'|intros _; apply preserves_throw].
    intros w' Hw'. apply registry_sound_delete. exact Hw'.
Qed.

Lemma registry_deregister_loop (current : thread_id) (n : nat) :
  preserves registry_sound (deregister_loop current n).
Proof.
  induction n as [|i IH]; cbn [deregister_loop]; [apply preserves_ret|].
  apply preserves_bind; [apply preserves_get_world|]. intros w0.
  apply preserves_bind.
  { destruct (thread_contexts w0 !! i); [|apply preserves_undefined].
    apply steady_registry_sound. unfold isForThisThread. steady. }
  intros [|]; (apply preserves_bind; [|intros _; exact IH]); [|apply preserves_ret].
  apply preserves_modify. intros w [Hlive Hbelow]. split; [|exact Hbelow].
  intros p Hp. cbn in *. apply Hlive.
  apply (list_elem_of_delete_inv p i). exact Hp.
Qed.

Lemma registry_run_op (o : Op) : preserves registry_sound (run_op o).
Proof.
  destruct o; cbn [run_op].
  - apply preserves_bind; [apply registry_Context_new|intros _; apply preserves_ret].
  - apply registry_Context_delete.
  - apply steady_registry_sound. apply steady_bind; [apply steady_open|intros _; apply steady_ret].
  - apply steady_registry_sound. apply steady_bind; [apply steady_close|intros _; apply steady_ret].
  - apply steady_registry_sound, steady_run_use.
  - apply steady_registry_sound.
    apply steady_bind; [apply steady_beginTransaction|intros _; apply steady_ret].
  - intros w [Hlive Hbelow]. rewrite bind_run. unfold deref.
    destruct (contexts w !! context) as [c|] eqn:Hc; [|split; assumption].
    cbn. split; [|exact Hbelow].
    intros p Hp. cbn in *. apply elem_of_app in Hp as [Hp|Hp]; [apply Hlive; exact Hp|].
    apply list_elem_of_singleton in Hp as ->. eauto.
  - unfold deregisterThreadContexts.
    apply preserves_bind; [apply preserves_get_world|]. intros w0.
    apply registry_deregister_loop.
  - apply steady_registry_sound.
    apply steady_bind; [apply steady_global|intros _; apply steady_ret].
Qed.

(** In every world a program reaches, every entry of the registry points
    to a live context. *)
Lemma reachable_registry_live (w : World) : reachable w → registry_live w.
Proof.
  intros Hreach. assert (Hsound : registry_sound w); [|exact (proj1 Hsound)].
  induction Hreach as [fs|w o _ IH].
  - split.
    + intros p Hp. cbn in Hp. apply elem_of_nil in Hp. destruct Hp.
    + intros p [c Hp]. cbn in *. apply lookup_singleton_Some in Hp as [<- _].
      unfold db_global. lia.
  - apply (registry_run_op o w IH).
Qed.

End SteadyOperations.

Section Destructor.
Context {E : Engine}.

Local Ltac live :=
  cbn; first [ apply lookup_insert_eq
             | rewrite lookup_delete_ne by congruence; eassumption
             | eassumption ].

(** What is left to show once the registry and the contexts after the
    destructor are known. *)
Lemma unregistered (w w' : World) (this : addr) (r : outcome unit) :
  thread_contexts w' = filter (λ p, p ≠ this) (thread_contexts w) →
  (r = Returns tt → contexts w' = delete this (contexts w)) →
  thread_contexts w' = filter (λ p, p ≠ this) (thread_contexts w) ∧
  (this ∉ thread_contexts w') ∧
  (r = Returns tt →
     contexts w' = delete this (contexts w) ∧ (registry_live w → registry_live w')).
Proof.
  intros Hreg Hctx. split; [exact Hreg|]. split.
  - rewrite Hreg. intros Hin. apply list_elem_of_filter in Hin as [Hne _].
    apply Hne. reflexivity.
  - intros Hr. split; [apply Hctx; exact Hr|].
    intros Hlive p Hp. rewrite Hreg in Hp. apply list_elem_of_filter in Hp as [Hne Hp].
    rewrite (Hctx Hr), lookup_delete_ne by congruence. apply Hlive. exact Hp.
Qed.

(** C9. Destroying a context removes every registry entry that refers to
    it and no other: the destructor does not run into undefined behaviour
    on a context whose connections are alive, the registry afterwards is
    the old one without the entries equal to [this], and once the object is
    gone (the destructor returned) every remaining entry still points to a
    live context if it did before.  With an engine whose connections close
    without a fault the destructor always returns. *)
Theorem destructor_unregisters (w : World) (this : addr) (c : Context) :
  contexts w !! this = Some c → connections_live w c →
  ∃ r w',
    Context_delete this w = (r, w') ∧
    ((∀ db, sqlite_close db = None) → r = Returns tt) ∧
    r ≠ Undefined ∧
    thread_contexts w' = filter (λ p, p ≠ this) (thread_contexts w) ∧
    (this ∉ thread_contexts w') ∧
    (r = Returns tt →
       contexts w' = delete this (contexts w) ∧ (registry_live w → registry_live w')).
Proof.
  intros Hc Hlive.
  destruct (close_run w this c Hc Hlive)
    as (b & w1 & c1 & Hclose & Hctx1 & Hreg1 & _ & (_ & Hlrw1 & _) & Hro1 & _).
  assert (Hc1 : contexts w1 !! this = Some c1)
    by (rewrite Hctx1; apply lookup_insert_eq).
  unfold Context_delete.
  rewrite (bind_returns _ _ _ _ _ Hclose).
  rewrite bind_run. cbn [get_world].
  rewrite bind_run, erase_this_loop_run by lia.
  erewrite bind_returns by (apply clear_cached_queries_run; live).
  erewrite bind_run, assign_connection_rw_run by live.
  cbn [connection_rw_ with_cached_queries].
  destruct (connection_rw_ c1) as [q|] eqn:Hrw1.
  - destruct (Hlrw1 q eq_refl) as [dq Hq].
    erewrite Database_delete_run by live.
    destruct (sqlite_close dq) as [e|] eqn:Hfault.
    + eexists _, _. split; [reflexivity|]. split; [|split; [discriminate|]].
      * intros Hnofault. rewrite Hnofault in Hfault. discriminate.
      * apply unregistered; [|discriminate].
        cbn. rewrite erase_all, Hreg1. reflexivity.
    + erewrite bind_run, assign_connection_ro_run by live.
      cbn [connection_ro_ with_cached_queries with_connection_rw]. rewrite Hro1.
      eexists _, _. split; [reflexivity|]. split; [reflexivity|]. split; [discriminate|].
      apply unregistered.
      * cbn. rewrite erase_all, Hreg1. reflexivity.
      * intros _. cbn. rewrite Hctx1, !delete_insert_eq. reflexivity.
  - erewrite bind_run, assign_connection_ro_run by live.
    cbn [connection_ro_ with_cached_queries with_connection_rw]. rewrite Hro1.
    eexists _, _. split; [reflexivity|]. split; [reflexivity|]. split; [discriminate|].
    apply unregistered.
    + cbn. rewrite erase_all, Hreg1. reflexivity.
    + intros _. cbn. rewrite Hctx1, !delete_insert_eq. reflexivity.
Qed.

End Destructor.

(** ** The statement cache *)

Section StatementCache.
Context {E : Engine}.

Lemma Statement_tryReset_run (w : World) (s : addr) (st : Statement) :
  statements w !! s = Some st →
  Statement_tryReset s w = (Returns tt, set_statements <[s := reset st]> w).
Proof.
  intros Hs. unfold Statement_tryReset.
  rewrite (bind_returns _ _ _ _ _ (deref_live statements w s st Hs)). reflexivity.
Qed.

(** A cached id: the statement is reset and handed back. *)
Lemma cacheQuery_cached (w : World) (this : addr) (c : Context) (id sql : string)
    (writes : bool) (s : addr) (st : Statement) :
  contexts w !! this = Some c → cached_queries_ c !! id = Some s →
  statements w !! s = Some st →
  cacheQuery this id sql writes w =
    (Returns (Some s), set_statements <[s := reset st]> w).
Proof.
  intros Hc Hid Hs. unfold cacheQuery.
  rewrite (bind_returns _ _ _ _ _ (deref_live contexts w this c Hc)). rewrite Hid.
  rewrite (bind_returns _ _ _ _ _ (Statement_tryReset_run w s st Hs)). reflexivity.
Qed.

(** A new id on an open context whose text compiles: a statement is
    prepared on the chosen connection and stored. *)
Lemma cacheQuery_new (w : World) (this : addr) (c : Context) (id sql : string)
    (writes : bool) (ro p : addr) (d : Database) :
  contexts w !! this = Some c → cached_queries_ c !! id = None →
  connection_ro_ c = Some ro →
  (if writes then connection_rw_ c else connection_ro_ c) = Some p →
  databases w !! p = Some d →
  sqlite_prepare (file_data w d) d sql = None →
  cacheQuery this id sql writes w =
    (Returns (Some (next_addr w)),
     set_contexts <[this := with_cached_queries (<[id := next_addr w]> (cached_queries_ c)) c]>
       (set_statements <[next_addr w := {| stmt_database := p; stmt_query := sql;
                                           stmt_has_row := false; stmt_done := false |}]>
          (set_next_addr S w))).
Proof.
  intros Hc Hid Hro Hp Hd Hprep. unfold cacheQuery.
  rewrite (bind_returns _ _ _ _ _ (deref_live contexts w this c Hc)). rewrite Hid, Hp, Hro.
  unfold Statement_new.
  rewrite bind_run.
  rewrite (bind_returns _ _ _ _ _ (deref_live databases w p d Hd)).
  rewrite bind_run. cbn [get_world]. rewrite Hprep.
  rewrite bind_run. cbn [fresh]. rewrite bind_run. cbn [modify mret M_ret ret].
  erewrite bind_returns by (apply update_this_run; cbn; exact Hc).
  reflexivity.
Qed.

Lemma holds_set_statement (this : addr) (id : string) (p s : addr) (st : Statement)
    (w : World) :
  holds this id p w → holds this id p (set_statements <[s := st]> w).
Proof.
  intros (c & Hc & Hid & Hp). exists c. repeat split; [exact Hc|exact Hid|]. cbn.
  destruct (decide (s = p)) as [->|Hne].
  - rewrite lookup_insert_eq. eauto.
  - rewrite lookup_insert_ne by exact Hne. exact Hp.
Qed.

Lemma holds_Statement_tryReset (this : addr) (id : string) (p s : addr) :
  preserves (holds this id p) (Statement_tryReset s).
Proof.
  unfold Statement_tryReset.
  apply preserves_bind; [apply preserves_deref|]. intros st.
  apply preserves_modify. intros w Hw. apply holds_set_statement. exact Hw.
Qed.

Lemma holds_Statement_executeStep (this : addr) (id : string) (p s : addr) (row : bool) :
  preserves (holds this id p) (Statement_executeStep s row).
Proof.
  unfold Statement_executeStep.
  apply preserves_bind; [apply preserves_deref|]. intros st.
  apply preserves_bind; [|intros _; apply preserves_ret].
  apply preserves_modify. intros w Hw. apply holds_set_statement. exact Hw.
Qed.

Lemma holds_Statement_new (this : addr) (id : string) (p : addr) (db : option addr)
    (sql : string) :
  preserves (holds this id p) (Statement_new db sql).
Proof.
  unfold Statement_new. destruct db as [a|]; [|apply preserves_undefined].
  apply preserves_bind; [apply preserves_deref|]. intros d.
  apply preserves_bind; [apply preserves_get_world|]. intros w0.
  destruct (sqlite_prepare _ d sql); [apply preserves_throw|].
  apply preserves_bind; [intros w Hw; exact Hw|]. intros s.
  apply preserves_bind; [|intros _; apply preserves_ret].
  apply preserves_modify. intros w Hw. apply holds_set_statement. exact Hw.
Qed.

Lemma holds_cachedQuery (this : addr) (id id' : string) (p : addr) :
  preserves (holds this id p) (cachedQuery this id').
Proof.
  unfold cachedQuery.
  apply preserves_bind; [apply preserves_deref|]. intros c.
  destruct (cached_queries_ c !! id'); [|apply preserves_ret].
  apply preserves_bind; [apply holds_Statement_tryReset|].
  intros _. apply preserves_ret.
Qed.

Lemma holds_cacheQuery (this : addr) (id id' sql : string) (writes : bool) (p : addr) :
  preserves (holds this id p) (cacheQuery this id' sql writes).
Proof.
  intros w Hw. pose proof Hw as (c & Hc & Hid & Hp).
  unfold cacheQuery.
  rewrite (bind_returns _ _ _ _ _ (deref_live contexts w this c Hc)).
  destruct (cached_queries_ c !! id') as [s|] eqn:Hid'.
  - refine (preserves_bind _ _ _ _ _ w Hw); [apply holds_Statement_tryReset|].
    intros _. apply preserves_ret.
  - assert (Hne : id' ≠ id) by congruence.
    destruct (connection_ro_ c); [|exact Hw].
    refine (preserves_bind _ _ _ _ _ w Hw); [apply holds_Statement_new|].
    intros ptr. apply preserves_bind; [|intros _; apply preserves_ret].
    apply preserves_update_this. intros w' c' (c0 & Hc0 & Hid0 & Hp0) Hc'.
    exists (with_cached_queries (<[id' := ptr]> (cached_queries_ c')) c').
    cbn. rewrite lookup_insert_eq. split; [reflexivity|].
    cbn. rewrite lookup_insert_ne by exact Hne.
    split; [congruence|exact Hp0].
Qed.

Lemma holds_Database_exec (this : addr) (id : string) (p : addr)
    (connection : option addr) (query : string) :
  preserves (holds this id p) (Database_exec connection query).
Proof.
  unfold Database_exec. destruct connection as [a|]; [|apply preserves_undefined].
  apply preserves_bind; [apply preserves_deref|]. intros d.
  apply preserves_bind; [apply preserves_get_world|]. intros w0.
  apply preserves_bind; [apply preserves_modify; intros w Hw; exact Hw|]. intros _.
  destruct (sqlite_exec _ d query) as [e|[[n fd] d']]; [apply preserves_throw|].
  apply preserves_bind; [apply preserves_modify; intros w Hw; exact Hw|]. intros _.
  apply preserves_bind; [apply preserves_modify; intros w Hw; exact Hw|]. intros _.
  apply preserves_ret.
Qed.

Lemma holds_run_use (this : addr) (id : string) (p : addr) (u : Use) :
  preserves (holds this id p) (run_use this u).
Proof.
  destruct u as [s row|id'|id' sql writes|query|table_name i id_col]; cbn [run_use];
    (apply preserves_bind; [|intros _; apply preserves_ret]).
  - apply holds_Statement_executeStep.
  - apply holds_cachedQuery.
  - apply holds_cacheQuery.
  - unfold exec. apply preserves_bind; [apply preserves_deref|]. intros c.
    destruct (connection_rw_ c); [apply holds_Database_exec|apply preserves_ret].
  - unfold rowIdExists. apply preserves_bind; [apply preserves_deref|]. intros c.
    apply preserves_bind; [|intros col; apply preserves_ret].
    unfold Database_execAndGet.
    apply preserves_bind; [apply preserves_deref|]. intros d.
    apply preserves_bind; [apply preserves_get_world|]. intros w0.
    destruct (sqlite_execAndGet _ d _); [apply preserves_throw|apply preserves_ret].
Qed.

Lemma holds_later (this : addr) (id : string) (p : addr) (w w' : World) :
  later this w w' → holds this id p w → holds this id p w'.
Proof.
  induction 1 as [w|w w' u _ IH]; intros Hw; [exact Hw|].
  apply holds_run_use. apply IH. exact Hw.
Qed.

(** C2. On an open context, when the text compiles (which matters only if
    the id is not cached yet), [cacheQuery] returns a handle, and every
    later [cacheQuery] with the same id, whatever was done with the
    context and its statements in between and whatever text and flag are
    passed, returns the same handle, reset to its not-yet-stepped state. *)
Theorem cacheQuery_same_handle (w : World) (this : addr) (c : Context)
    (id sql : string) (writes : bool) :
  contexts w !! this = Some c → is_open w c → cache_live w c →
  (cached_queries_ c !! id = None → compiles w c sql writes) →
  ∃ p w1,
    cacheQuery this id sql writes w = (Returns (Some p), w1) ∧
    ∀ w2, later this w1 w2 →
      ∀ sql' writes', ∃ w3,
        cacheQuery this id sql' writes' w2 = (Returns (Some p), w3) ∧
        is_reset w3 p.
Proof.
  intros Hc (ro & rw & Hro & Hrw & _ & [dro Hdro] & [drw Hdrw]) Hlive Hcompiles.
  assert (Hfirst : ∃ p w1, cacheQuery this id sql writes w = (Returns (Some p), w1) ∧
                           holds this id p w1).
  { destruct (cached_queries_ c !! id) as [s|] eqn:Hid.
    - destruct (Hlive id s Hid) as [st Hst].
      eexists s, _. split; [apply (cacheQuery_cached w this c id sql writes s st); assumption|].
      apply holds_set_statement. exists c. eauto.
    - specialize (Hcompiles eq_refl).
      assert (Hpick : ∃ p d, (if writes then connection_rw_ c else connection_ro_ c) = Some p
                             ∧ databases w !! p = Some d).
      { destruct writes; eauto. }
      destruct Hpick as (p & d & Hp & Hd).
      eexists _, _. split.
      + apply (cacheQuery_new w this c id sql writes ro p d); try assumption.
        apply (Hcompiles p d); assumption.
      + eexists. cbn. rewrite lookup_insert_eq. split; [reflexivity|].
        cbn. rewrite !lookup_insert_eq. eauto. }
  destruct Hfirst as (p & w1 & Hcall & Hholds).
  exists p, w1. split; [exact Hcall|].
  intros w2 Hlater sql' writes'.
  destruct (holds_later this id p w1 w2 Hlater Hholds) as (c2 & Hc2 & Hid2 & [st Hst]).
  eexists. split; [apply (cacheQuery_cached w2 this c2 id sql' writes' p st); assumption|].
  exists (reset st). cbn. rewrite lookup_insert_eq. split; reflexivity.
Qed.

End StatementCache.

(** ** Execution, row lookup and transactions *)

Section Queries.
Context {E : Engine}.

Lemma Database_exec_run (w : World) (p : addr) (db : Database) (query : string) :
  databases w !! p = Some db →
  Database_exec (Some p) query w =
    match sqlite_exec (file_data w db) db query with
    | inl e => (Throws e, set_trace (λ t, t ++ [(p, query)]) w)
    | inr (n, fd, db') =>
        (Returns n,
         set_databases <[p := db']>
           (set_files <[db_filename db := fd]>
              (set_trace (λ t, t ++ [(p, query)]) w)))
    end.
Proof.
  intros Hp. unfold Database_exec.
  rewrite (bind_returns _ _ _ _ _ (deref_live databases w p db Hp)).
  rewrite bind_run. cbn [get_world]. rewrite bind_run. cbn [modify].
  destruct (sqlite_exec (file_data w db) db query) as [e|[[n fd] db']]; reflexivity.
Qed.


Lemma exec_closed (w : World) (this : addr) (c : Context) (query : string) :
  contexts w !! this = Some c → connection_rw_ c = None →
  exec this query w = (Returns 0%Z, w).
Proof.
  intros Hc Hrw. unfold exec.
  rewrite (bind_returns _ _ _ _ _ (deref_live contexts w this c Hc)).
  rewrite Hrw. reflexivity.
Qed.

Lemma exec_connected (w : World) (this : addr) (c : Context) (query : string) (p : addr) :
  contexts w !! this = Some c → connection_rw_ c = Some p →
  exec this query w = Database_exec (Some p) query w.
Proof.
  intros Hc Hrw. unfold exec.
  rewrite (bind_returns _ _ _ _ _ (deref_live contexts w this c Hc)).
  rewrite Hrw. reflexivity.
Qed.

(** Without a read-write connection [exec] returns 0, raises nothing and
    changes nothing; with one, the statement is run on that connection and
    [exec] returns the number the engine reports, the file and the
    connection being as the engine left them; a fault of the engine is
    raised to the caller. *)
Theorem exec_rows_or_zero (w : World) (this : addr) (c : Context) (query : string) :
  contexts w !! this = Some c →
  (connection_rw_ c = None → exec this query w = (Returns 0%Z, w)) ∧
  (∀ p db, connection_rw_ c = Some p → databases w !! p = Some db →
     (∀ n fd db', sqlite_exec (file_data w db) db query = inr (n, fd, db') →
        ∃ w', exec this query w = (Returns n, w') ∧
              trace w' = trace w ++ [(p, query)] ∧
              files w' = <[db_filename db := fd]> (files w) ∧
              databases w' = <[p := db']> (databases w) ∧
              contexts w' = contexts w) ∧
     (∀ e, sqlite_exec (file_data w db) db query = inl e →
        ∃ w', exec this query w = (Throws e, w') ∧ contexts w' = contexts w)).
Proof.
  intros Hc. split; [apply exec_closed; exact Hc|].
  intros p db Hrw Hp.
  rewrite (exec_connected w this c query p Hc Hrw), (Database_exec_run w p db query Hp).
  split.
  - intros n fd db' ->. eexists. split; [reflexivity|]. cbn. repeat split.
  - intros e ->. eexists. split; reflexivity.
Qed.




Lemma isTransactionActive_run (w : World) (p : addr) (db : Database) :
  databases w !! p = Some db →
  isTransactionActive (Some p) w = (Returns (negb (db_autocommit db)), w).
Proof.
  intros Hp. unfold isTransactionActive.
  rewrite (bind_returns _ _ _ _ _ (deref_live databases w p db Hp)).
  unfold sqlite3_get_autocommit. destruct (db_autocommit db); reflexivity.
Qed.

(** On a connection that is inside a transaction the guard joins: nothing
    is issued and nothing changes. *)
Lemma beginIfNoActiveTransaction_joins (w : World) (tx : Transaction) (p : addr)
    (db : Database) :
  connection_ tx = Some p → databases w !! p = Some db → db_autocommit db = false →
  beginIfNoActiveTransaction tx w = (Returns tx, w).
Proof.
  intros Htx Hp Hactive. unfold beginIfNoActiveTransaction. rewrite Htx.
  rewrite (bind_returns _ _ _ _ _ (isTransactionActive_run w p db Hp)).
  rewrite Hactive. reflexivity.
Qed.

(** On a connection in autocommit mode the guard begins: [BEGIN] is sent
    to the engine. *)
Lemma beginIfNoActiveTransaction_begins (w : World) (tx : Transaction) (p : addr)
    (db : Database) :
  connection_ tx = Some p → databases w !! p = Some db → db_autocommit db = true →
  beginIfNoActiveTransaction tx w =
    (Database_exec (Some p) "BEGIN";;
     mret {| connection_ := Some p; tx_state := ACTIVE |}) w.
Proof.
  intros Htx Hp Hidle. unfold beginIfNoActiveTransaction. rewrite Htx.
  rewrite (bind_returns _ _ _ _ _ (isTransactionActive_run w p db Hp)).
  rewrite Hidle. cbn [negb]. unfold Transaction_begin. rewrite Htx. reflexivity.
Qed.

(** C3. Constructing a guard on a connection that already reports a
    transaction (not in autocommit mode) returns an active guard, issues
    nothing to the engine and raises no fault: the world, and with it the
    trace of what was sent to the engine, is unchanged.  Constructing it
    on a connection in autocommit mode issues one [BEGIN] on that
    connection, and with an engine whose [BEGIN] succeeds there and leaves
    autocommit mode, the guard is active and the connection reports a
    transaction.  The same holds of [beginIfNoActiveTransaction] on any
    guard bound to the connection. *)
Theorem guard_begins_if_none_active (w : World) (tx : Transaction) (p : addr)
    (db : Database) :
  connection_ tx = Some p → databases w !! p = Some db →
  (db_autocommit db = false →
     beginIfNoActiveTransaction tx w = (Returns tx, w) ∧
     Transaction_new (Some p) true w
       = (Returns {| connection_ := Some p; tx_state := ACTIVE |}, w)) ∧
  (db_autocommit db = true →
     ∀ n fd db', sqlite_exec (file_data w db) db "BEGIN" = inr (n, fd, db') →
                 db_autocommit db' = false →
     ∃ w', beginIfNoActiveTransaction tx w
             = (Returns {| connection_ := Some p; tx_state := ACTIVE |}, w') ∧
           Transaction_new (Some p) true w
             = (Returns {| connection_ := Some p; tx_state := ACTIVE |}, w') ∧
           trace w' = trace w ++ [(p, "BEGIN")] ∧
           isTransactionActive (Some p) w' = (Returns true, w')).
Proof.
  intros Htx Hp. split.
  - intros Hactive.
    split; [apply (beginIfNoActiveTransaction_joins w tx p db); assumption|].
    unfold Transaction_new.
    erewrite bind_returns by
      (apply (beginIfNoActiveTransaction_joins w _ p db); [reflexivity|assumption..]).
    reflexivity.
  - intros Hidle n fd db' Hbegin Hleft.
    eexists. split; [|split; [|split]].
    + rewrite (beginIfNoActiveTransaction_begins w tx p db) by assumption.
      rewrite bind_run, (Database_exec_run w p db "BEGIN" Hp), Hbegin. reflexivity.
    + unfold Transaction_new. rewrite bind_run.
      rewrite (beginIfNoActiveTransaction_begins w _ p db) by (reflexivity || assumption).
      rewrite bind_run, (Database_exec_run w p db "BEGIN" Hp), Hbegin. reflexivity.
    + reflexivity.
    + erewrite isTransactionActive_run by (cbn; apply lookup_insert_eq).
      rewrite Hleft. reflexivity.
Qed.

(** C10. On a closed context [rowIdExists] and [beginTransaction] reach a
    dereference of the absent connection, whatever their arguments
    (undefined behaviour: an open context is their precondition), while
    [exec] has its guarded branch and returns 0. *)
Theorem closed_context_dereferences (w : World) (this : addr) (c : Context) :
  contexts w !! this = Some c → is_closed c →
  (∀ table_name id id_col, rowIdExists this table_name id id_col w = (Undefined, w)) ∧
  (∀ write, beginTransaction this write w = (Undefined, w)) ∧
  (∀ query, exec this query w = (Returns 0%Z, w)).
Proof.
  intros Hc [Hro Hrw]. repeat split.
  - intros table_name id id_col. unfold rowIdExists.
    rewrite (bind_returns _ _ _ _ _ (deref_live contexts w this c Hc)). rewrite Hro.
    reflexivity.
  - intros write. unfold beginTransaction.
    rewrite (bind_returns _ _ _ _ _ (deref_live contexts w this c Hc)).
    rewrite Hro, Hrw. destruct write; reflexivity.
  - intros query. apply (exec_closed w this c); assumption.
Qed.

End Queries.

(** ** Concrete runs on the reference engine *)

Section Concrete.
Import Reference.

(** C6. A program reaches a context with one connection: when the
    read-only connection opens and the constructor of the read-write
    connection throws, [open] on the closed main context ends with the
    read-only connection present and the read-write one absent.  A later
    [cacheQuery] for a writing statement, which tests the read-only
    connection only, then dereferences the absent one. *)
Theorem open_leaves_one_connection :
  ∃ e w' c',
    reachable (E := engine_one_handle) world0 ∧
    contexts world0 !! db_global = Some (worker 0) ∧ both_or_neither (worker 0) ∧
    open (E := engine_one_handle) db_global "slade.sqlite" world0 = (Throws e, w') ∧
    reachable (E := engine_one_handle) w' ∧
    contexts w' !! db_global = Some c' ∧
    connection_ro_ c' = Some 1 ∧ connection_rw_ c' = None ∧
    ¬ both_or_neither c' ∧
    cacheQuery (E := engine_one_handle) db_global "q" "UPDATE t SET x = 1" true w'
      = (Undefined, w').
Proof.
  assert (H0 : reachable (E := engine_one_handle) world0)
    by apply (reachable_start (E := engine_one_handle) {[ "slade.sqlite" := slade_sqlite ]}).
  eexists _, _, _. split; [exact H0|].
  split; [vm_compute; reflexivity|].
  split; [right; split; reflexivity|].
  split; [vm_compute; reflexivity|].
  split.
  { match goal with |- reachable ?w =>
      replace w with
        (run_op (E := engine_one_handle) (OpOpen db_global "slade.sqlite") world0).2
        by (vm_compute; reflexivity)
    end.
    apply reachable_step. exact H0. }
  split; [vm_compute; reflexivity|].
  split; [reflexivity|]. split; [reflexivity|]. split.
  - intros [[_ [x Hx]]|[Hro _]]; discriminate.
  - vm_compute. reflexivity.
Qed.


(** C7. [exec] returns what the connection reports, and the connection
    reports its change counter, which only an [INSERT], [UPDATE] or
    [DELETE] sets.  On the open program database [exec] of the statement
    that deletes the three rows of a table returns 3; [exec] of [BEGIN],
    which modifies no row and leaves the files as they are, then returns 3
    again, where the comment of [exec] promises the number of rows modified
    by the query.  On the connection as it was opened the same [BEGIN]
    returns 0. *)
Theorem exec_returns_stale_count :
  ∃ w1 w2 w3,
    reachable (E := engine) world_open ∧
    exec (E := engine) db_global "DELETE FROM archive_file" world_open
      = (Returns 3%Z, w1) ∧
    files w1 !! "slade.sqlite"
      = Some {[ "archive_file" := {| columns := ["id"; "size"]; rows := [] |} ]} ∧
    exec (E := engine) db_global "BEGIN" w1 = (Returns 3%Z, w2) ∧
    files w2 = files w1 ∧
    exec (E := engine) db_global "BEGIN" world_open = (Returns 0%Z, w3).
Proof.
  eexists _, _, _. split.
  { replace world_open with
      (run_op (E := engine) (OpOpen db_global "slade.sqlite") world0).2
      by (vm_compute; reflexivity).
    apply reachable_step.
    apply (reachable_start (E := engine) {[ "slade.sqlite" := slade_sqlite ]}). }
  split; [vm_compute; reflexivity|].
  split; [vm_compute; reflexivity|].
  split; [vm_compute; reflexivity|].
  split; vm_compute; reflexivity.
Qed.

End Concrete.

(** ** The theorems at concrete inputs *)

Section Witnesses.
Import Reference.

Local Ltac run := vm_compute; reflexivity.

Local Ltac other_thread :=
  let q := fresh "q" in
  let Hq := fresh "Hq" in
  intros q Hq;
  repeat (apply elem_of_cons in Hq as [->|Hq];
          [eexists; split; [run|vm_compute; discriminate]|]);
  apply elem_of_nil in Hq; destruct Hq.

(** Resolution in [world_registered]: from the main thread, from thread 7
    (whose first registered context is at address 2) and from thread 9,
    which registered nothing. *)
Lemma global_resolution_witness :
  global (E := engine) 0 world_registered = (Returns db_global, world_registered) ∧
  global (E := engine) 7 world_registered = (Returns 2, world_registered) ∧
  global (E := engine) 9 world_registered = (Returns db_global, warned world_registered).
Proof.
  split; [|split].
  - apply (global_resolution (E := engine) 0 world_registered). reflexivity.
  - destruct (global_resolution (E := engine) 7 world_registered) as [_ Hworker].
    destruct Hworker as [Hfirst _]; [vm_compute; discriminate|].
    apply (Hfirst [1] 2 [3]).
    + reflexivity.
    + other_thread.
    + exists (worker 7). split; run.
  - destruct (global_resolution (E := engine) 9 world_registered) as [_ Hworker].
    destruct Hworker as [_ Hnone]; [vm_compute; discriminate|].
    apply Hnone. other_thread.
Defined.


(** The program database: a first [cacheQuery] on the open main context,
    and any later one. *)
Lemma cacheQuery_same_handle_witness :
  ∃ p w1,
    cacheQuery (E := engine) db_global "rows" "SELECT id FROM archive_file" false world_open
      = (Returns (Some p), w1) ∧
    ∀ w2, later (E := engine) db_global w1 w2 →
      ∀ sql' writes', ∃ w3,
        cacheQuery (E := engine) db_global "rows" sql' writes' w2 = (Returns (Some p), w3) ∧
        is_reset w3 p.
Proof.
  apply (cacheQuery_same_handle (E := engine) world_open db_global main_open).
  - run.
  - exists 1, 2. repeat split; try discriminate; vm_compute; eauto.
  - intros id s Hid. vm_compute in Hid. discriminate.
  - intros _ p d _ _. reflexivity.
Defined.

(** A guard on the read-write connection of the open main context, then a
    second one while the first is active. *)
Lemma guard_begins_if_none_active_witness :
  ∃ w',
    Transaction_new (E := engine) (Some 2) true world_open
      = (Returns {| connection_ := Some 2; tx_state := ACTIVE |}, w') ∧
    trace w' = [(2, "BEGIN")] ∧
    Transaction_new (E := engine) (Some 2) true w'
      = (Returns {| connection_ := Some 2; tx_state := ACTIVE |}, w').
Proof.
  destruct (guard_begins_if_none_active (E := engine) world_open
              {| connection_ := Some 2; tx_state := INACTIVE |} 2
              {| db_filename := "slade.sqlite"; db_flags := OPEN_READWRITE;
                 db_autocommit := true; db_changes := 0%Z |}) as [_ Hbegin]; [reflexivity|run|].
  destruct (Hbegin eq_refl 0%Z slade_sqlite
              {| db_filename := "slade.sqlite"; db_flags := OPEN_READWRITE;
                 db_autocommit := false; db_changes := 0%Z |})
    as (w' & _ & Hnew & Htrace & Hactive);
    [run|reflexivity|].
  exists w'. split; [exact Hnew|]. split; [exact Htrace|].
  assert (Hw' : w' = (Transaction_new (E := engine) (Some 2) true world_open).2)
    by (rewrite Hnew; reflexivity).
  destruct (guard_begins_if_none_active (E := engine) w'
              {| connection_ := Some 2; tx_state := INACTIVE |} 2
              {| db_filename := "slade.sqlite"; db_flags := OPEN_READWRITE;
                 db_autocommit := false; db_changes := 0%Z |}) as [Hjoin _].
  - reflexivity.
  - rewrite Hw'. run.
  - apply Hjoin. reflexivity.
Defined.

(** Closing the main context with one query cached: the world is reached
    by opening the program database and caching the query. *)
Lemma close_clears_cache_witness :
  ∃ w',
    reachable (E := engine) world_cached ∧
    cachedQuery db_global "rows" world_cached = (Returns (Some 3), world_cached) ∧
    close (E := engine) db_global world_cached = (Returns true, w') ∧
    ∀ id, cachedQuery db_global id w' = (Returns None, w').
Proof.
  assert (Hreach : reachable (E := engine) world_cached).
  { replace world_cached with
      (run_op (E := engine)
         (OpUse db_global (UseCacheQuery "rows" "SELECT id FROM archive_file" false))
         (run_op (E := engine) (OpOpen db_global "slade.sqlite") world0).2).2 by run.
    apply reachable_step, reachable_step.
    apply (reachable_start (E := engine) {[ "slade.sqlite" := slade_sqlite ]}). }
  eexists. split; [exact Hreach|]. split; [run|]. split; [run|].
  apply (close_clears_cache (E := engine) world_cached _ db_global Hreach). run.
Defined.

(** [exec] on the closed main context, and a deletion of the three rows
    of the table on the open one. *)
Lemma exec_rows_or_zero_witness :
  exec (E := engine) db_global "DELETE FROM archive_file" world0 = (Returns 0%Z, world0) ∧
  ∃ w', exec (E := engine) db_global "DELETE FROM archive_file" world_open
          = (Returns 3%Z, w') ∧
        trace w' = [(2, "DELETE FROM archive_file")].
Proof.
  split.
  - apply (exec_rows_or_zero (E := engine) world0 db_global (worker 0)); run.
  - destruct (exec_rows_or_zero (E := engine) world_open db_global main_open
                "DELETE FROM archive_file") as [_ Hrw]; [run|].
    destruct (Hrw 2 {| db_filename := "slade.sqlite"; db_flags := OPEN_READWRITE;
                       db_autocommit := true; db_changes := 0%Z |}) as [Hrows _]; [run|run|].
    destruct (Hrows 3%Z (<[ "archive_file" := {| columns := ["id"; "size"]; rows := [] |} ]>
                           slade_sqlite)
                {| db_filename := "slade.sqlite"; db_flags := OPEN_READWRITE;
                   db_autocommit := true; db_changes := 3%Z |})
      as (w' & Hexec & Htrace & _); [run|].
    exists w'. split; [exact Hexec|exact Htrace].
Defined.


(** Destroying the context at address 2 in [world_registered]. *)
Lemma destructor_unregisters_witness :
  ∃ w',
    Context_delete (E := engine) 2 world_registered = (Returns tt, w') ∧
    thread_contexts w' = [1; 3] ∧ contexts w' !! 2 = None ∧ registry_live w'.
Proof.
  destruct (destructor_unregisters (E := engine) world_registered 2 (worker 7))
    as (r & w' & Hrun & Htotal & _ & Hreg & _ & Hgone).
  - run.
  - repeat split; intros; discriminate.
  - assert (Hr : r = Returns tt) by (apply Htotal; reflexivity).
    subst r. destruct (Hgone eq_refl) as [Hctx Hlive].
    exists w'. split; [exact Hrun|]. split; [rewrite Hreg; run|].
    split; [rewrite Hctx; run|].
    apply Hlive. intros p Hp.
    repeat (apply elem_of_cons in Hp as [->|Hp]; [vm_compute; eauto|]).
    apply elem_of_nil in Hp. destruct Hp.
Defined.

(** The closed main context of the initial world. *)
Lemma closed_context_dereferences_witness :
  rowIdExists (E := engine) db_global "archive_file" 42 "id" world0 = (Undefined, world0) ∧
  beginTransaction (E := engine) db_global true world0 = (Undefined, world0) ∧
  exec (E := engine) db_global "DELETE FROM archive_file" world0 = (Returns 0%Z, world0).
Proof.
  destruct (closed_context_dereferences (E := engine) world0 db_global (worker 0))
    as (Hrow & Hbegin & Hexec).
  - run.
  - split; reflexivity.
  - split; [apply Hrow|]. split; [apply Hbegin|apply Hexec].
Defined.

End Witnesses.

(** ** Further properties of the registry *)

Section RegistryMore.
Context {E : Engine}.

Lemma filter_filter_same (P : addr → Prop) `{∀ x, Decision (P x)} (l : list addr) :
  filter P (filter P l) = filter P l.
Proof.
  induction l as [|x l IH]; [reflexivity|].
  destruct (decide (P x)) as [Hx|Hx].
  - rewrite (filter_cons_True P x l Hx), (filter_cons_True P x _ Hx), IH. reflexivity.
  - rewrite (filter_cons_False P x l Hx). exact IH.
Qed.

(** X1. [deregisterThreadContexts], on a registry of live contexts, removes
    exactly the entries created on the calling thread: the others stay, in
    their order, no context is touched, and a second call changes nothing. *)
Theorem deregister_removes_own (current : thread_id) (w : World) :
  registry_live w →
  ∃ w',
    deregisterThreadContexts current w = (Returns tt, w') ∧
    thread_contexts w' = filter (λ p, thread_of w p ≠ Some current) (thread_contexts w) ∧
    contexts w' = contexts w ∧ log w' = log w ∧
    (∀ p, p ∈ thread_contexts w' → ¬ created_on w' p current) ∧
    registry_live w' ∧
    deregisterThreadContexts current w' = (Returns tt, w').
Proof.
  intros Hlive. eexists. split; [apply deregisterThreadContexts_run; exact Hlive|].
  set (w' := set_thread_contexts _ w).
  assert (Hlive' : registry_live w').
  { intros p Hp. cbn in Hp. apply list_elem_of_filter in Hp as [_ Hp]. apply Hlive, Hp. }
  split; [reflexivity|]. split; [reflexivity|]. split; [reflexivity|]. split; [|split].
  - intros p Hp (c & Hc & Ht). cbn in Hp. apply list_elem_of_filter in Hp as [Hne _].
    apply Hne. unfold thread_of. cbn in Hc. rewrite Hc. cbn. congruence.
  - exact Hlive'.
  - rewrite (deregisterThreadContexts_run current w' Hlive'). f_equal.
    apply set_thread_contexts_id. cbn. apply filter_filter_same.
Qed.

(** The scan on a registry of live contexts: it returns, changes nothing,
    and what it finds is a registered context of the calling thread. *)
Lemma find_thread_context_live (current : thread_id) (l : list addr) (w : World) :
  (∀ p, p ∈ l → is_Some (contexts w !! p)) →
  ∃ found, find_thread_context current l w = (Returns found, w) ∧
           ∀ p, found = Some p → p ∈ l ∧ thread_of w p = Some current.
Proof.
  induction l as [|q l IH]; intros Hl.
  - exists None. split; [reflexivity|]. intros p Hp. discriminate.
  - destruct (Hl q) as [c Hc]; [left|].
    cbn [find_thread_context].
    rewrite (bind_returns _ _ _ _ _ (isForThisThread_run w q c current Hc)).
    destruct (decide (thread_id_ c = current)) as [Heq|Hne].
    + rewrite bool_decide_eq_true_2 by exact Heq. exists (Some q).
      split; [reflexivity|]. intros p [= <-]. split; [left|].
      unfold thread_of. rewrite Hc. cbn. congruence.
    + rewrite bool_decide_eq_false_2 by exact Hne.
      destruct IH as (found & Hrun & Hfound); [intros p Hp; apply Hl; right; exact Hp|].
      exists found. split; [exact Hrun|]. intros p Hp.
      destruct (Hfound p Hp) as [Hin Ht]. split; [right; exact Hin|exact Ht].
Qed.

(** X2. When calls do not interleave, a call of [database::global] meets
    no dead context.  The worlds are those reached from the start by whole
    calls of the operations of contexts and of the registry, one after the
    other ([reachable]); the destructor erases its registry entries without
    taking the mutex, and a scan that runs while a destructor runs on
    another thread is outside this statement.  In such a world
    [database::global] returns on every thread without dereferencing a dead
    context: it leaves the registry and the contexts as they are, logs at
    most the one warning, and returns either the main context or a
    registered, live context created on the calling thread. *)
Theorem global_returns_live_context (current : thread_id) (w : World) :
  reachable w →
  ∃ p w',
    global current w = (Returns p, w') ∧
    (w' = w ∨ (w' = warned w ∧ p = db_global ∧ current ≠ mainThreadId)) ∧
    (p = db_global ∨
     (current ≠ mainThreadId ∧ p ∈ thread_contexts w ∧ created_on w p current)).
Proof.
  intros Hreach. pose proof (reachable_registry_live w Hreach) as Hlive.
  destruct (decide (current = mainThreadId)) as [->|Hne].
  - exists db_global, w. rewrite global_main. auto.
  - destruct (find_thread_context_live current (thread_contexts w) w Hlive)
      as (found & Hrun & Hfound).
    rewrite (global_worker current w found Hne Hrun).
    destruct found as [p|].
    + exists p, w. split; [reflexivity|]. split; [left; reflexivity|]. right.
      destruct (Hfound p eq_refl) as [Hin Ht]. split; [exact Hne|]. split; [exact Hin|].
      unfold thread_of in Ht. destruct (contexts w !! p) as [c|] eqn:Hc; [|discriminate].
      exists c. split; [exact Hc|]. cbn in Ht. congruence.
    + exists db_global, (warned w). split; [reflexivity|]. split; [right|left]; auto.
Qed.

End RegistryMore.

(** ** Further properties of the statement cache *)

Section CacheMore.
Context {E : Engine}.

(** X3. In every world reached from the start by calls of the operations
    of contexts and of the registry ([reachable]), a context without a
    read-only connection hands out no statement: [cachedQuery] and
    [cacheQuery] return null for every id, text and flag, and change
    nothing. *)
Theorem closed_context_caches_nothing (w : World) (this : addr) (c : Context)
    (id sql : string) (writes : bool) :
  reachable w →
  contexts w !! this = Some c → connection_ro_ c = None →
  cachedQuery this id w = (Returns None, w) ∧
  cacheQuery this id sql writes w = (Returns None, w).
Proof.
  intros Hreach Hc Hro.
  assert (Hempty : cached_queries_ c !! id = None).
  { rewrite (reachable_cache_closed w Hreach this c Hc Hro). apply lookup_empty. }
  split.
  - unfold cachedQuery.
    rewrite (bind_returns _ _ _ _ _ (deref_live contexts w this c Hc)).
    rewrite Hempty. reflexivity.
  - unfold cacheQuery.
    rewrite (bind_returns _ _ _ _ _ (deref_live contexts w this c Hc)).
    rewrite Hempty, Hro. reflexivity.
Qed.

Lemma set_statements_id (w : World) (f : gmap addr Statement → gmap addr Statement) :
  f (statements w) = statements w → set_statements f w = w.
Proof. intros Hf. destruct w. unfold set_statements. cbn in *. rewrite Hf. reflexivity. Qed.

(** X4. For an id that is already cached, [cacheQuery] does what
    [cachedQuery] does, whatever text and flag it is given: the engine
    compiles nothing, the cached statement is returned, and it keeps the
    text and the connection it was created with. *)
Theorem cacheQuery_hit_ignores_text (w : World) (this : addr) (c : Context)
    (id sql : string) (writes : bool) (s : addr) (st : Statement) :
  contexts w !! this = Some c → cached_queries_ c !! id = Some s →
  statements w !! s = Some st →
  ∃ w',
    cacheQuery this id sql writes w = (Returns (Some s), w') ∧
    cachedQuery this id w = (Returns (Some s), w') ∧
    (∃ st', statements w' !! s = Some st' ∧ stmt_query st' = stmt_query st ∧
            stmt_database st' = stmt_database st ∧ stepped st' = false) ∧
    contexts w' = contexts w ∧ databases w' = databases w ∧
    next_addr w' = next_addr w.
Proof.
  intros Hc Hid Hs. eexists. split; [|split].
  - apply (cacheQuery_cached w this c id sql writes s st); assumption.
  - unfold cachedQuery.
    rewrite (bind_returns _ _ _ _ _ (deref_live contexts w this c Hc)). rewrite Hid.
    rewrite (bind_returns _ _ _ _ _ (Statement_tryReset_run w s st Hs)). reflexivity.
  - split; [|repeat split]. exists (reset st). cbn. rewrite lookup_insert_eq.
    repeat split.
Qed.

(** X5. When the text of a new id does not compile, [cacheQuery] raises the
    engine's exception and leaves no entry behind: the world is unchanged
    and [cachedQuery] still finds nothing under the id. *)
Theorem cacheQuery_compile_fault (w : World) (this : addr) (c : Context)
    (id sql : string) (writes : bool) (ro p : addr) (d : Database) (e : exception) :
  contexts w !! this = Some c → cached_queries_ c !! id = None →
  connection_ro_ c = Some ro →
  (if writes then connection_rw_ c else connection_ro_ c) = Some p →
  databases w !! p = Some d →
  sqlite_prepare (file_data w d) d sql = Some e →
  cacheQuery this id sql writes w = (Throws e, w) ∧
  cachedQuery this id w = (Returns None, w).
Proof.
  intros Hc Hid Hro Hp Hd Hprep. split.
  - unfold cacheQuery.
    rewrite (bind_returns _ _ _ _ _ (deref_live contexts w this c Hc)).
    rewrite Hid, Hp, Hro. unfold Statement_new.
    rewrite bind_run.
    rewrite (bind_returns _ _ _ _ _ (deref_live databases w p d Hd)).
    rewrite bind_run. cbn [get_world]. rewrite Hprep. reflexivity.
  - unfold cachedQuery.
    rewrite (bind_returns _ _ _ _ _ (deref_live contexts w this c Hc)).
    rewrite Hid. reflexivity.
Qed.

(** X6. A new id whose text compiles: [cacheQuery] prepares a statement
    with the given text on the read-write connection when [writes] is set
    and on the read-only one otherwise, stores it under the id without
    touching the entries of other ids, and a [cachedQuery] for the id then
    returns that very handle and changes nothing. *)
Theorem cacheQuery_miss_then_lookup (w : World) (this : addr) (c : Context)
    (id sql : string) (writes : bool) (ro p : addr) (d : Database) :
  contexts w !! this = Some c → cached_queries_ c !! id = None →
  connection_ro_ c = Some ro →
  (if writes then connection_rw_ c else connection_ro_ c) = Some p →
  databases w !! p = Some d →
  sqlite_prepare (file_data w d) d sql = None →
  ∃ s w' c',
    cacheQuery this id sql writes w = (Returns (Some s), w') ∧
    statements w' !! s = Some {| stmt_database := p; stmt_query := sql;
                                 stmt_has_row := false; stmt_done := false |} ∧
    contexts w' !! this = Some c' ∧
    cached_queries_ c' !! id = Some s ∧
    (∀ id', id' ≠ id → cached_queries_ c' !! id' = cached_queries_ c !! id') ∧
    connection_ro_ c' = connection_ro_ c ∧ connection_rw_ c' = connection_rw_ c ∧
    databases w' = databases w ∧
    cachedQuery this id w' = (Returns (Some s), w').
Proof.
  intros Hc Hid Hro Hp Hd Hprep. eexists _, _, _.
  split; [apply (cacheQuery_new w this c id sql writes ro p d); assumption|].
  split; [cbn; apply lookup_insert_eq|].
  split; [cbn; apply lookup_insert_eq|].
  split; [cbn; apply lookup_insert_eq|].
  split; [intros id' Hne; cbn; apply lookup_insert_ne; congruence|].
  split; [reflexivity|]. split; [reflexivity|]. split; [reflexivity|].
  unfold cachedQuery.
  erewrite bind_returns by (apply deref_live; cbn; apply lookup_insert_eq).
  cbn [cached_queries_ with_cached_queries]. rewrite lookup_insert_eq.
  erewrite bind_returns by (apply Statement_tryReset_run; cbn; apply lookup_insert_eq).
  cbn [mret M_ret ret]. f_equal.
  apply set_statements_id. cbn. rewrite insert_insert_eq. reflexivity.
Qed.

End CacheMore.

(** ** Further properties of [close] and [open] *)

Section CloseMore.
Context {E : Engine}.

Local Ltac live :=
  cbn; first [ apply lookup_insert_eq
             | rewrite lookup_delete_ne by congruence; eassumption
             | eassumption ].

Lemma lookup_foldr_delete {A} (h : gmap addr A) (l : list addr) (s : addr) :
  s ∈ l → foldr delete h l !! s = None.
Proof.
  induction l as [|x l IH]; intros Hs; [apply elem_of_nil in Hs; destruct Hs|].
  cbn [foldr]. destruct (decide (x = s)) as [->|Hne]; [apply lookup_delete_eq|].
  rewrite lookup_delete_ne by exact Hne. apply IH.
  apply elem_of_cons in Hs as [->|Hs]; [congruence|exact Hs].
Qed.

Lemma cached_in_range (m : gmap string addr) (id : string) (s : addr) :
  m !! id = Some s → s ∈ (map_to_list m).*2.
Proof.
  intros Hid. apply list_elem_of_fmap. exists (id, s). split; [reflexivity|].
  apply elem_of_map_to_list. exact Hid.
Qed.

(** X7. Whatever the first [close] reports, a second [close] finds no
    read-only connection, reports success and changes nothing. *)
Theorem close_twice (w : World) (this : addr) (c : Context) :
  contexts w !! this = Some c → connections_live w c →
  ∃ b w1, close this w = (Returns b, w1) ∧ close this w1 = (Returns true, w1).
Proof.
  intros Hc Hlive.
  destruct (close_run w this c Hc Hlive) as (b & w1 & c1 & Hrun & Hctx & _ & _ & _ & Hro1 & _).
  exists b, w1. split; [exact Hrun|].
  apply (close_noop w1 this c1); [rewrite Hctx; apply lookup_insert_eq|exact Hro1].
Qed.

(** A successful [close] of a context that had a read-only connection, in
    full. *)
Lemma close_success_frame (w w' : World) (this : addr) (c : Context) :
  contexts w !! this = Some c → connections_live w c →
  is_Some (connection_ro_ c) →
  close this w = (Returns true, w') →
  contexts w' = <[this := {| thread_id_ := thread_id_ c; file_path_ := "";
                             connection_ro_ := None; connection_rw_ := None;
                             cached_queries_ := ∅ |}]> (contexts w) ∧
  (∀ a, connection_ro_ c = Some a ∨ connection_rw_ c = Some a → databases w' !! a = None) ∧
  (∀ id s, cached_queries_ c !! id = Some s → statements w' !! s = None) ∧
  log w' = log w ∧ files w' = files w ∧ thread_contexts w' = thread_contexts w ∧
  next_addr w' = next_addr w ∧ trace w' = trace w.
Proof.
  intros Hc (Hlro & Hlrw & Hne) [a Hro] Hclose.
  destruct (Hlro a Hro) as [da Ha].
  unfold close in Hclose.
  rewrite (bind_returns _ _ _ _ _ (deref_live contexts w this c Hc)) in Hclose.
  rewrite Hro in Hclose. rewrite bind_run, try_catch_run in Hclose.
  rewrite (bind_returns _ _ _ _ _ (clear_cached_queries_run w this c Hc)) in Hclose.
  erewrite bind_run, assign_connection_ro_run in Hclose by live.
  cbn [connection_ro_ with_cached_queries] in Hclose. rewrite Hro in Hclose.
  erewrite Database_delete_run in Hclose by live.
  destruct (sqlite_close da) as [e|].
  { erewrite bind_returns in Hclose by (apply deref_live; live).
    rewrite bind_run in Hclose. cbn in Hclose. discriminate. }
  erewrite bind_run, assign_connection_rw_run in Hclose by live.
  cbn [connection_rw_ with_connection_ro with_cached_queries] in Hclose.
  destruct (connection_rw_ c) as [b|] eqn:Hrw.
  - destruct (Hlrw b eq_refl) as [db_ Hb].
    assert (Hab : a ≠ b) by exact (Hne a b Hro eq_refl).
    erewrite Database_delete_run in Hclose by live.
    destruct (sqlite_close db_) as [e|].
    { erewrite bind_returns in Hclose by (apply deref_live; live).
      rewrite bind_run in Hclose. cbn in Hclose. discriminate. }
    cbn [mret M_ret ret] in Hclose.
    erewrite bind_returns in Hclose by (apply update_this_run; live).
    injection Hclose as <-. cbn. rewrite !insert_insert_eq.
    split; [reflexivity|]. split; [|split; [|repeat split]].
    + intros x [Hx|Hx].
      * rewrite Hro in Hx. injection Hx as <-.
        rewrite lookup_delete_ne by congruence. apply lookup_delete_eq.
      * injection Hx as <-. apply lookup_delete_eq.
    + intros id s Hid. apply lookup_foldr_delete, (cached_in_range _ id). exact Hid.
  - cbn [mret M_ret ret] in Hclose.
    erewrite bind_returns in Hclose by (apply update_this_run; live).
    injection Hclose as <-. cbn. rewrite !insert_insert_eq.
    split; [reflexivity|]. split; [|split; [|repeat split]].
    + intros x [Hx|Hx]; [|discriminate].
      rewrite Hro in Hx. injection Hx as <-. apply lookup_delete_eq.
    + intros id s Hid. apply lookup_foldr_delete, (cached_in_range _ id). exact Hid.
Qed.

(** X8. When [close] reports success on a context that had a read-only
    connection, everything the context owned is destroyed: its connections
    and every statement of its cache are no longer alive, the cache is
    empty and the file path is cleared; nothing is logged and the registry
    is not touched. *)
Theorem close_releases_everything (w w' : World) (this : addr) (c : Context) :
  contexts w !! this = Some c → connections_live w c →
  is_Some (connection_ro_ c) →
  close this w = (Returns true, w') →
  contexts w' !! this = Some {| thread_id_ := thread_id_ c; file_path_ := "";
                                connection_ro_ := None; connection_rw_ := None;
                                cached_queries_ := ∅ |} ∧
  (∀ a, connection_ro_ c = Some a ∨ connection_rw_ c = Some a → databases w' !! a = None) ∧
  (∀ id s, cached_queries_ c !! id = Some s → statements w' !! s = None) ∧
  log w' = log w ∧ thread_contexts w' = thread_contexts w.
Proof.
  intros Hc Hlive Hro Hclose.
  destruct (close_success_frame w w' this c Hc Hlive Hro Hclose)
    as (Hctx & Hdbs & Hstmts & Hlog & _ & Hreg & _).
  split; [rewrite Hctx; apply lookup_insert_eq|].
  split; [exact Hdbs|]. split; [exact Hstmts|]. split; [exact Hlog|exact Hreg].
Qed.

(** [open] on a context that has both connections or none, when it
    returns: the result is [false] exactly when [close] failed, and
    otherwise the context holds two new connections on the file. *)
Lemma open_returns (w w' : World) (this : addr) (c : Context) (file_path : string)
    (b : bool) :
  contexts w !! this = Some c → connections_live w c → both_or_neither c →
  open this file_path w = (Returns b, w') →
  (b = false ∧ close this w = (Returns false, w')) ∨
  (b = true ∧
   ∃ c',
     contexts w' !! this = Some c' ∧
     thread_id_ c' = thread_id_ c ∧ file_path_ c' = file_path ∧
     connection_ro_ c' = Some (next_addr w) ∧
     connection_rw_ c' = Some (S (next_addr w)) ∧
     (is_Some (connection_ro_ c) ∨ cached_queries_ c = ∅ → cached_queries_ c' = ∅) ∧
     databases w' !! next_addr w
       = Some {| db_filename := file_path; db_flags := OPEN_READONLY;
                 db_autocommit := true; db_changes := 0%Z |} ∧
     databases w' !! S (next_addr w)
       = Some {| db_filename := file_path; db_flags := OPEN_READWRITE;
                 db_autocommit := true; db_changes := 0%Z |} ∧
     thread_contexts w' = thread_contexts w ∧ log w' = log w ∧ files w' = files w ∧
     (∀ q, q ≠ this → contexts w' !! q = contexts w !! q)).
Proof.
  intros Hc Hlive Hpair Hopen.
  destruct (close_run w this c Hc Hlive) as (b1 & w1 & c1 & Hrun & _).
  unfold open in Hopen. rewrite (bind_returns _ _ _ _ _ Hrun) in Hopen.
  destruct b1; cbn [negb] in Hopen.
  2:{ injection Hopen as <- <-. left. split; [reflexivity|exact Hrun]. }
  right.
  assert (Hframe : ∃ c1, contexts w1 = <[this := c1]> (contexts w) ∧
            thread_id_ c1 = thread_id_ c ∧ is_closed c1 ∧
            (is_Some (connection_ro_ c) ∨ cached_queries_ c = ∅ → cached_queries_ c1 = ∅) ∧
            log w1 = log w ∧ files w1 = files w ∧
            thread_contexts w1 = thread_contexts w ∧ next_addr w1 = next_addr w).
  { destruct (connection_ro_ c) as [a|] eqn:Hro.
    - destruct (close_success_frame w w1 this c Hc Hlive) as
        (Hctx & _ & _ & Hlog & Hfiles & Hreg & Hnext & _); [rewrite Hro; eauto|exact Hrun|].
      eexists. split; [exact Hctx|]. cbn. repeat split; auto.
    - rewrite (close_noop w this c Hc Hro) in Hrun. injection Hrun as <-.
      exists c. rewrite insert_id by exact Hc. repeat split; auto.
      + destruct Hpair as [[[x Hx] _]|[_ Hrw]]; [congruence|exact Hrw].
      + intros [[x Hx]|Hempty]; [discriminate|exact Hempty]. }
  clear c1 Hrun. destruct Hframe as (c1 & Hctx & Hth & [Hro1 Hrw1] & Hcache & Hlog & Hfiles
                                     & Hreg & Hnext).
  assert (Hc1 : contexts w1 !! this = Some c1) by (rewrite Hctx; apply lookup_insert_eq).
  erewrite bind_returns in Hopen by (apply update_this_run; exact Hc1).
  rewrite bind_run, Database_new_run in Hopen. cbn [files set_contexts] in Hopen.
  destruct (sqlite_open (files w1) file_path OPEN_READONLY); [discriminate|].
  erewrite bind_run, assign_connection_ro_run in Hopen by live.
  cbn [connection_ro_ with_file_path] in Hopen. rewrite Hro1 in Hopen.
  rewrite bind_run, Database_new_run in Hopen.
  cbn [files set_contexts set_databases set_next_addr] in Hopen.
  destruct (sqlite_open (files w1) file_path OPEN_READWRITE); [discriminate|].
  erewrite bind_run, assign_connection_rw_run in Hopen by live.
  cbn [connection_rw_ with_file_path with_connection_ro] in Hopen. rewrite Hrw1 in Hopen.
  injection Hopen as <- <-. split; [reflexivity|].
  eexists. split; [cbn; apply lookup_insert_eq|]. cbn. rewrite Hnext.
  split; [exact Hth|]. split; [reflexivity|]. split; [reflexivity|].
  split; [reflexivity|]. split; [exact Hcache|].
  split; [rewrite lookup_insert_ne by lia; apply lookup_insert_eq|].
  split; [apply lookup_insert_eq|].
  split; [exact Hreg|]. split; [exact Hlog|]. split; [exact Hfiles|].
  intros q Hq. rewrite !lookup_insert_ne by congruence. rewrite Hctx.
  apply lookup_insert_ne. congruence.
Qed.

(** X10. When [open] returns true on a context that has both connections
    or none, the context holds two distinct live connections on the given
    file, the first opened read-only and the second read-write, both in
    autocommit mode; its file path is the given one, its thread is
    unchanged and its cache is empty; the registry, the log and the other
    contexts are untouched. *)
Theorem open_opens_both (w w' : World) (this : addr) (c : Context) (file_path : string) :
  contexts w !! this = Some c → connections_live w c → both_or_neither c →
  cache_closed c →
  open this file_path w = (Returns true, w') →
  ∃ ro rw,
    ro ≠ rw ∧
    contexts w' !! this = Some {| thread_id_ := thread_id_ c; file_path_ := file_path;
                                  connection_ro_ := Some ro; connection_rw_ := Some rw;
                                  cached_queries_ := ∅ |} ∧
    databases w' !! ro = Some {| db_filename := file_path; db_flags := OPEN_READONLY;
                                 db_autocommit := true; db_changes := 0%Z |} ∧
    databases w' !! rw = Some {| db_filename := file_path; db_flags := OPEN_READWRITE;
                                 db_autocommit := true; db_changes := 0%Z |} ∧
    thread_contexts w' = thread_contexts w ∧ log w' = log w ∧
    (∀ q, q ≠ this → contexts w' !! q = contexts w !! q).
Proof.
  intros Hc Hlive Hpair Hclosed Hopen.
  destruct (open_returns w w' this c file_path true Hc Hlive Hpair Hopen)
    as [[Hb _]|[_ (c' & Hc' & Hth & Hpath & Hro & Hrw & Hcache & Hdro & Hdrw & Hreg & Hlog
                   & _ & Hothers)]]; [discriminate|].
  exists (next_addr w), (S (next_addr w)). split; [lia|].
  split; [|repeat split; assumption].
  rewrite Hc'. f_equal. destruct c' as [t fp cro crw cq]. cbn in *.
  rewrite Hth, Hpath, Hro, Hrw, Hcache; [reflexivity|].
  destruct (connection_ro_ c) as [a|] eqn:Hroc; [left; eauto|right; apply Hclosed; exact Hroc].
Qed.

Lemma open_closed_fault (w : World) (this : addr) (c : Context) (file_path : string)
    (e : exception) :
  contexts w !! this = Some c → is_closed c →
  sqlite_open (files w) file_path OPEN_READONLY = Some e →
  open this file_path w
    = (Throws e, set_contexts <[this := with_file_path file_path c]> w).
Proof.
  intros Hc [Hro Hrw] Hfault.
  unfold open. rewrite (bind_returns _ _ _ _ _ (close_noop w this c Hc Hro)).
  cbn [negb]. erewrite bind_returns by (apply update_this_run; exact Hc).
  rewrite bind_run, Database_new_run. cbn [files set_contexts]. rewrite Hfault.
  reflexivity.
Qed.

(** [open] on a closed context when the engine opens both connections. *)
Lemma open_closed_run (w : World) (this : addr) (c : Context) (file_path : string) :
  contexts w !! this = Some c → is_closed c →
  sqlite_open (files w) file_path OPEN_READONLY = None →
  sqlite_open (files w) file_path OPEN_READWRITE = None →
  open this file_path w =
    (Returns true,
     set_contexts <[this := {| thread_id_ := thread_id_ c; file_path_ := file_path;
                               connection_ro_ := Some (next_addr w);
                               connection_rw_ := Some (S (next_addr w));
                               cached_queries_ := cached_queries_ c |}]>
       (set_databases
          (λ h, <[S (next_addr w) := {| db_filename := file_path; db_flags := OPEN_READWRITE;
                                        db_autocommit := true; db_changes := 0%Z |}]>
                  (<[next_addr w := {| db_filename := file_path; db_flags := OPEN_READONLY;
                                       db_autocommit := true; db_changes := 0%Z |}]> h))
          (set_next_addr (λ n, S (S n)) w))).
Proof.
  intros Hc [Hro Hrw] Hopen_ro Hopen_rw.
  unfold open. rewrite (bind_returns _ _ _ _ _ (close_noop w this c Hc Hro)).
  cbn [negb]. erewrite bind_returns by (apply update_this_run; exact Hc).
  rewrite bind_run, Database_new_run. cbn [files set_contexts]. rewrite Hopen_ro.
  erewrite bind_run, assign_connection_ro_run by (cbn; apply lookup_insert_eq).
  cbn [connection_ro_ with_file_path]. rewrite Hro. cbn [mret M_ret ret].
  rewrite bind_run, Database_new_run. cbn [files set_contexts set_databases set_next_addr].
  rewrite Hopen_rw.
  erewrite bind_run, assign_connection_rw_run by (cbn; apply lookup_insert_eq).
  cbn [connection_rw_ with_file_path with_connection_ro]. rewrite Hrw.
  cbn [mret M_ret ret]. unfold set_contexts, set_databases, set_next_addr. cbn.
  rewrite !insert_insert_eq. reflexivity.
Qed.

(** X11. On a closed context, when the constructor of the read-only
    connection throws, [open] passes the exception on and opens nothing:
    the context stays closed, but its file path has already been set to
    the path that failed to open. *)
Theorem open_fault_keeps_closed (w : World) (this : addr) (c : Context)
    (file_path : string) (e : exception) :
  contexts w !! this = Some c → is_closed c →
  sqlite_open (files w) file_path OPEN_READONLY = Some e →
  open this file_path w
    = (Throws e, set_contexts <[this := with_file_path file_path c]> w) ∧
  is_closed (with_file_path file_path c) ∧
  file_path_ (with_file_path file_path c) = file_path.
Proof.
  intros Hc Hclosed Hfault. split; [apply open_closed_fault; assumption|].
  destruct Hclosed as [Hro Hrw]. repeat split; assumption.
Qed.

End CloseMore.

(** ** The constructor *)

Section ConstructorMore.
Context {E : Engine}.

Lemma bind_returns_inv {A B} (m : M A) (k : A → M B) (w w' : World) (b : B) :
  (m ≫= k) w = (Returns b, w') →
  ∃ a w1, m w = (Returns a, w1) ∧ k a w1 = (Returns b, w').
Proof.
  rewrite bind_run. destruct (m w) as [[a|e|] w1]; [eauto|discriminate..].
Qed.

Lemma try_catch_returns_inv {A} (m : M A) (h : exception → M A) (w w' : World) (a : A) :
  try_catch m h w = (Returns a, w') →
  (∀ e w1, h e w1 ≠ (Returns a, w')) →
  m w = (Returns a, w').
Proof.
  rewrite try_catch_run. intros Hrun Hh.
  destruct (m w) as [[a'|e|] w1]; [exact Hrun|destruct (Hh e w1 Hrun)|discriminate].
Qed.

Lemma bind_not_returns {A B} (m : M A) (k : A → M B) (w : World) (b : B) (w' : World) :
  (∀ a w1, k a w1 ≠ (Returns b, w')) → (m ≫= k) w ≠ (Returns b, w').
Proof.
  intros Hk. rewrite bind_run. destruct (m w) as [[a|e'|] w1]; [apply Hk|discriminate..].
Qed.

(** X12. When the constructor of a context returns, the new object sits at
    the next free address, carries the calling thread's identity and has an
    empty cache, and the registry is as before; constructed without a path
    it is closed, constructed with a path it holds a read-only and a
    read-write connection on that file.  [isForThisThread] on it answers
    true on the constructing thread and false on every other. *)
Theorem constructor_result (current : thread_id) (file_path : string) (w w' : World)
    (this : addr) :
  Context_new current file_path w = (Returns this, w') →
  this = next_addr w ∧
  thread_contexts w' = thread_contexts w ∧
  (∀ t, isForThisThread this t w' = (Returns (bool_decide (current = t)), w')) ∧
  ∃ c, contexts w' !! this = Some c ∧ thread_id_ c = current ∧ cached_queries_ c = ∅ ∧
       file_path_ c = file_path ∧
       (file_path = "" → is_closed c) ∧
       (file_path ≠ "" →
          ∃ ro rw, ro ≠ rw ∧ connection_ro_ c = Some ro ∧ connection_rw_ c = Some rw ∧
            databases w' !! ro = Some {| db_filename := file_path;
                                         db_flags := OPEN_READONLY;
                                         db_autocommit := true; db_changes := 0%Z |} ∧
            databases w' !! rw = Some {| db_filename := file_path;
                                         db_flags := OPEN_READWRITE;
                                         db_autocommit := true; db_changes := 0%Z |}).
Proof.
  intros Hnew. unfold Context_new in Hnew.
  rewrite bind_run in Hnew. cbn [fresh] in Hnew.
  rewrite bind_run in Hnew. cbn [modify] in Hnew.
  set (c0 := {| thread_id_ := current; file_path_ := ""; connection_ro_ := None;
                connection_rw_ := None; cached_queries_ := ∅ |}) in *.
  set (w0 := set_contexts <[next_addr w := c0]> (set_next_addr S w)) in *.
  assert (Hc0 : contexts w0 !! next_addr w = Some c0) by (cbn; apply lookup_insert_eq).
  assert (Hthread : ∀ w1 c, contexts w1 !! next_addr w = Some c → thread_id_ c = current →
            ∀ t, isForThisThread (next_addr w) t w1 = (Returns (bool_decide (current = t)), w1)).
  { intros w1 c Hc Hth t. rewrite (isForThisThread_run w1 _ c t Hc), Hth. reflexivity. }
  destruct (decide (file_path = "")) as [->|Hpath].
  - rewrite bool_decide_eq_false_2 in Hnew by (intros Hne; apply Hne; reflexivity).
    cbn in Hnew. injection Hnew as <- <-.
    split; [reflexivity|]. split; [reflexivity|].
    split; [apply (Hthread _ c0 Hc0); reflexivity|].
    exists c0. repeat split; try assumption; try reflexivity.
    intros Hne. exfalso. apply Hne. reflexivity.
  - rewrite bool_decide_eq_true_2 in Hnew by exact Hpath.
    apply bind_returns_inv in Hnew as (u & w1 & Htry & Hret).
    cbn in Hret. injection Hret as <- <-.
    apply try_catch_returns_inv in Htry.
    2:{ intros e w2. do 4 (apply bind_not_returns; intros ? ?). discriminate. }
    apply bind_returns_inv in Htry as (b & w2 & Hopen & Hret).
    cbn in Hret. injection Hret as _ <-.
    destruct (open_returns w0 w2 (next_addr w) c0 file_path b Hc0) as
      [[_ Hfalse]|[_ (c' & Hc' & Hth & Hfp & Hro & Hrw & Hcache & Hdro & Hdrw & Hreg & _)]];
      [repeat split; intros; discriminate|right; split; reflexivity|exact Hopen|..].
    { rewrite (close_noop w0 _ c0 Hc0 eq_refl) in Hfalse. discriminate. }
    split; [reflexivity|]. split; [exact Hreg|].
    split; [apply (Hthread _ c' Hc'); exact Hth|].
    exists c'. split; [exact Hc'|]. split; [exact Hth|].
    split; [apply Hcache; right; reflexivity|]. split; [exact Hfp|].
    split; [intros ->; exfalso; apply Hpath; reflexivity|]. intros _.
    eexists _, _. split; [|split; [exact Hro|split; [exact Hrw|split; [exact Hdro|exact Hdrw]]]].
    cbn. lia.
Qed.

End ConstructorMore.

(** ** Queries and the functions of the namespace *)

Section QueriesMore.
Context {E : Engine}.

(** X14. [beginTransaction] binds the guard to the read-write connection
    when [write] is set and to the read-only one otherwise: when that
    connection is in autocommit mode and the engine's [BEGIN] succeeds on
    it, exactly one [BEGIN] is sent, on that connection, the guard returned
    is active, and the other connection of the context and the contexts
    are left as they were.  (The constructor of [Transaction] is declared
    in Database.h and modelled as for C3.) *)
Theorem beginTransaction_picks_connection (w : World) (this : addr) (c : Context)
    (write : bool) (ro rw : addr) (db : Database) (n : Z) (fd : FileData)
    (db' : Database) :
  contexts w !! this = Some c →
  connection_ro_ c = Some ro → connection_rw_ c = Some rw → ro ≠ rw →
  databases w !! (if write then rw else ro) = Some db →
  db_autocommit db = true →
  sqlite_exec (file_data w db) db "BEGIN" = inr (n, fd, db') →
  ∃ w',
    beginTransaction this write w
      = (Returns {| connection_ := Some (if write then rw else ro); tx_state := ACTIVE |}, w') ∧
    trace w' = trace w ++ [(if write then rw else ro, "BEGIN")] ∧
    databases w' !! (if write then rw else ro) = Some db' ∧
    databases w' !! (if write then ro else rw) = databases w !! (if write then ro else rw) ∧
    contexts w' = contexts w.
Proof.
  intros Hc Hro Hrw Hne Hdb Hidle Hbegin.
  assert (Hpick : (if write then connection_rw_ c else connection_ro_ c)
                  = Some (if write then rw else ro)) by (destruct write; assumption).
  unfold beginTransaction.
  rewrite (bind_returns _ _ _ _ _ (deref_live contexts w this c Hc)). rewrite Hpick.
  unfold Transaction_new. rewrite bind_run.
  rewrite (beginIfNoActiveTransaction_begins w _ _ db) by (reflexivity || assumption).
  rewrite bind_run, (Database_exec_run w _ db "BEGIN" Hdb), Hbegin.
  eexists. split; [reflexivity|]. cbn.
  split; [reflexivity|]. split; [apply lookup_insert_eq|]. split; [|reflexivity].
  apply lookup_insert_ne. destruct write; congruence.
Qed.

Lemma database_exec_on (current : thread_id) (query : string) (w w1 : World) (g : addr)
    (c : Context) :
  global current w = (Returns g, w1) → contexts w1 !! g = Some c →
  database_exec current query None w =
    match connection_rw_ c with
    | Some p => Database_exec (Some p) query w1
    | None => (Returns 0%Z, w1)
    end.
Proof.
  intros Hg Hc. unfold database_exec, connectionRW, Context_connectionRW.
  rewrite bind_run. rewrite (bind_returns _ _ _ _ _ Hg).
  rewrite (bind_returns _ _ _ _ _ (deref_live contexts w1 g c Hc)).
  cbn [mret M_ret ret]. destruct (connection_rw_ c); reflexivity.
Qed.

(** X15. From a thread other than the main one that has no registered
    context, [database::exec] with a null connection logs the warning and
    runs the statement on the read-write connection of the main context.
    ([database::connectionRW] is declared in Database.h and modelled as
    the read-write connection of the context [global] returns.) *)
Theorem unregistered_thread_writes_through_main (current : thread_id) (query : string)
    (w : World) (c : Context) (p : addr) (db : Database) :
  current ≠ mainThreadId →
  (∀ q, q ∈ thread_contexts w → created_elsewhere w q current) →
  contexts w !! db_global = Some c → connection_rw_ c = Some p →
  databases w !! p = Some db →
  database_exec current query None w = Database_exec (Some p) query (warned w) ∧
  ∃ w', (database_exec current query None w).2 = w' ∧
        trace w' = trace w ++ [(p, query)] ∧
        log w' = log w ++ [(Warning,
          "A non-main thread is requesting the global database connection context")].
Proof.
  intros Hne Hothers Hc Hrw Hdb.
  rewrite (database_exec_on current query w (warned w) db_global c
             (global_fallback current w Hne Hothers) Hc), Hrw.
  split; [reflexivity|]. eexists. split; [reflexivity|].
  rewrite (Database_exec_run (warned w) p db query Hdb).
  destruct (sqlite_exec _ db query) as [e|[[n fd] db']]; split; reflexivity.
Qed.

(** X16. From a thread with a registered context of its own,
    [database::exec] with a null connection runs the statement on the
    read-write connection of the first such context, logs nothing, and
    returns 0 without running anything when that context has no read-write
    connection, whatever the state of the main context.
    ([database::connectionRW] is declared in Database.h and modelled as
    the read-write connection of the context [global] returns.) *)
Theorem registered_thread_uses_own_context (current : thread_id) (query : string)
    (w : World) (l1 l2 : list addr) (g : addr) (c : Context) :
  current ≠ mainThreadId →
  thread_contexts w = l1 ++ g :: l2 →
  (∀ q, q ∈ l1 → created_elsewhere w q current) →
  contexts w !! g = Some c → thread_id_ c = current →
  database_exec current query None w = exec g query w ∧
  (connection_rw_ c = None → database_exec current query None w = (Returns 0%Z, w)) ∧
  log (database_exec current query None w).2 = log w.
Proof.
  intros Hne Hreg Hl1 Hc Hth.
  assert (Hg : global current w = (Returns g, w)).
  { apply (global_first current w l1 l2 g Hne Hreg Hl1). exists c. split; assumption. }
  rewrite (database_exec_on current query w w g c Hg Hc).
  unfold exec. rewrite (bind_returns _ _ _ _ _ (deref_live contexts w g c Hc)).
  split; [destruct (connection_rw_ c); reflexivity|].
  split; [intros ->; reflexivity|].
  destruct (connection_rw_ c) as [p|]; [|reflexivity].
  destruct (databases w !! p) as [db|] eqn:Hdb;
    [|unfold Database_exec, deref; rewrite bind_run, Hdb; reflexivity].
  rewrite (Database_exec_run w p db query Hdb).
  destruct (sqlite_exec (file_data w db) db query) as [e|[[n fd] db']]; reflexivity.
Qed.

(** X17. [database::close] discards what [Context::close] reports.  On a
    main context that has both connections or none, with an engine whose
    connections close without a fault, it leaves the main context closed,
    a second call changes nothing, and [database::exec] with a null
    connection from the main thread then returns 0 and runs nothing.
    ([database::connectionRW] is declared in Database.h and modelled as
    the read-write connection of the context [global] returns.) *)
Theorem database_close_then_exec (w : World) (c : Context) :
  contexts w !! db_global = Some c → connections_live w c → both_or_neither c →
  (∀ db, sqlite_close db = None) →
  ∃ w1 c1,
    database_close w = (Returns tt, w1) ∧
    contexts w1 !! db_global = Some c1 ∧ is_closed c1 ∧
    database_close w1 = (Returns tt, w1) ∧
    ∀ query, database_exec mainThreadId query None w1 = (Returns 0%Z, w1).
Proof.
  intros Hc Hlive Hpair Hnofault.
  destruct (close_run w db_global c Hc Hlive)
    as (b & w1 & c1' & Hrun & Hctx & _).
  assert (Hb : b = true).
  { destruct b; [reflexivity|]. exfalso.
    destruct (connection_ro_ c) as [a|] eqn:Hro.
    - destruct Hlive as (Hlro & Hlrw & Hne). destruct (Hlro a Hro) as [da Ha].
      revert Hrun. unfold close.
      rewrite (bind_returns _ _ _ _ _ (deref_live contexts w db_global c Hc)). rewrite Hro.
      rewrite bind_run, try_catch_run.
      rewrite (bind_returns _ _ _ _ _ (clear_cached_queries_run w db_global c Hc)).
      erewrite bind_run, assign_connection_ro_run by (cbn; apply lookup_insert_eq).
      cbn [connection_ro_ with_cached_queries]. rewrite Hro.
      erewrite Database_delete_run by (cbn; exact Ha). rewrite Hnofault.
      erewrite bind_run, assign_connection_rw_run by (cbn; apply lookup_insert_eq).
      cbn [connection_rw_ with_connection_ro with_cached_queries].
      destruct (connection_rw_ c) as [q|] eqn:Hrw.
      + destruct (Hlrw q eq_refl) as [dq Hq].
        erewrite Database_delete_run
          by (cbn; rewrite lookup_delete_ne by exact (Hne a q Hro eq_refl); exact Hq).
        rewrite Hnofault. cbn [mret M_ret ret].
        erewrite bind_returns by (apply update_this_run; cbn; apply lookup_insert_eq).
        discriminate.
      + cbn [mret M_ret ret].
        erewrite bind_returns by (apply update_this_run; cbn; apply lookup_insert_eq).
        discriminate.
    - rewrite (close_noop w db_global c Hc Hro) in Hrun. discriminate. }
  subst b.
  destruct (close_success_closes w w1 db_global c Hc Hlive Hpair Hrun)
    as (c1 & Hc1 & Hclosed & _).
  exists w1, c1. unfold database_close.
  split; [rewrite (bind_returns _ _ _ _ _ Hrun); reflexivity|].
  split; [exact Hc1|]. split; [exact Hclosed|]. destruct Hclosed as [Hro1 Hrw1]. split.
  - rewrite (bind_returns _ _ _ _ _ (close_noop w1 db_global c1 Hc1 Hro1)). reflexivity.
  - intros query.
    rewrite (database_exec_on mainThreadId query w1 w1 db_global c1 (global_main w1) Hc1).
    rewrite Hrw1. reflexivity.
Qed.

End QueriesMore.

(** ** Creation, update and start-up *)

Section ProcessRuns.
Context {E : Engine} {Ap : App}.

Lemma P_bind_run {A B} (m : P A) (k : A → P B) (s : Process) :
  (m ≫= k) s = match m s with
               | (Returns a, s') => k a s'
               | (Throws e, s') => (Throws e, s')
               | (Undefined, s') => (Undefined, s')
               end.
Proof.
  unfold mbind, P_mbind, P_bind. destruct (m s) as [[a|e|] s']; reflexivity.
Qed.

Lemma P_bind_returns {A B} (m : P A) (k : A → P B) (s s' : Process) (a : A) :
  m s = (Returns a, s') → (m ≫= k) s = k a s'.
Proof. intros Hm. rewrite P_bind_run, Hm. reflexivity. Qed.

Lemma set_world_id (s : Process) : set_world (λ _, world s) s = s.
Proof. destruct s; reflexivity. Qed.

Lemma lift_run {A} (m : M A) (s : Process) (o : outcome A) (w' : World) :
  m (world s) = (o, w') → lift m s = (o, set_world (λ _, w') s).
Proof. intros Hm. unfold lift. rewrite Hm. reflexivity. Qed.

Lemma lift_same {A} (m : M A) (s : Process) (o : outcome A) :
  m (world s) = (o, world s) → lift m s = (o, s).
Proof. intros Hm. rewrite (lift_run m s o (world s) Hm). rewrite set_world_id. reflexivity. Qed.

Lemma Database_tableExists_run (w : World) (p : addr) (d : Database) (table_name : string) :
  databases w !! p = Some d →
  Database_tableExists p table_name w =
    (match sqlite_tableExists (file_data w d) d table_name with
     | inl e => Throws e
     | inr b => Returns b
     end, w).
Proof.
  intros Hp. unfold Database_tableExists.
  rewrite (bind_returns _ _ _ _ _ (deref_live databases w p d Hp)).
  rewrite bind_run. cbn [get_world].
  destruct (sqlite_tableExists (file_data w d) d table_name); reflexivity.
Qed.

Lemma scripts_ran_nil (db : addr) (s : Process) :
  is_Some (databases (world s) !! db) → scripts_ran db [] s s.
Proof.
  intros Hlive. unfold scripts_ran. rewrite fmap_nil, app_nil_r. repeat split. exact Hlive.
Qed.

Lemma scripts_ran_cons (db : addr) (entry : ArchiveEntry) (ran : list ArchiveEntry)
    (s s1 s' : Process) :
  scripts_ran db [entry] s s1 → scripts_ran db ran s1 s' →
  scripts_ran db (entry :: ran) s s'.
Proof.
  intros (Ht1 & Hc1 & Hs1 & Hr1 & Hn1 & Hd1 & _ & Hp1 & Hk1)
         (Ht & Hc & Hs & Hr & Hn & Hd & Hl & Hp & Hk).
  unfold scripts_ran.
  rewrite Ht, Ht1, Hc, Hc1, Hs, Hs1, Hr, Hr1, Hn, Hn1, Hd, Hd1, Hp, Hp1, Hk, Hk1.
  rewrite <- app_assoc. repeat split. exact Hl.
Qed.

(** One iteration of the loop of [createMissingTables], as its three ways
    on. *)
Lemma createMissingTables_loop_step (db : addr) (entry : ArchiveEntry)
    (entries : list ArchiveEntry) (s : Process) (d : Database) :
  databases (world s) !! db = Some d →
  createMissingTables_loop db (entry :: entries) s =
    match sqlite_tableExists (file_data (world s) d) d (fileNameOf (entry_name entry)) with
    | inl e => (Throws e, s)
    | inr true => createMissingTables_loop db entries s
    | inr false =>
        let w1 := set_trace (λ t, t ++ [script_of db entry]) (world s) in
        match sqlite_exec (file_data (world s) d) d (entry_data entry) with
        | inl ex =>
            (Returns false,
             set_global_error (λ _, failed_message entry ex) (set_world (λ _, w1) s))
        | inr (n, fd, d') =>
            createMissingTables_loop db entries
              (set_world (λ _, set_log (λ lg, lg ++ [created_line entry])
                                 (set_databases <[db := d']>
                                    (set_files <[db_filename d := fd]> w1))) s)
        end
    end.
Proof.
  intros Hd. cbn [createMissingTables_loop]. cbn zeta.
  rewrite P_bind_run.
  rewrite (lift_same _ s _ (Database_tableExists_run (world s) db d _ Hd)).
  destruct (sqlite_tableExists (file_data (world s) d) d (fileNameOf (entry_name entry)))
    as [e|[|]]; [reflexivity..|].
  rewrite P_bind_run. unfold P_try_catch. rewrite P_bind_run.
  unfold lift at 1. rewrite (Database_exec_run (world s) db d (entry_data entry) Hd).
  destruct (sqlite_exec (file_data (world s) d) d (entry_data entry)) as [ex|[[n fd] d']];
    reflexivity.
Qed.

(** The loop of [createMissingTables] on a live connection: it runs the
    scripts of some of the entries, in their order, logs a line for each
    script that ran through, and reports failure only with the message of
    the script that ran last. *)
Lemma createMissingTables_loop_runs (db : addr) (entries : list ArchiveEntry) :
  ∀ (s : Process) (d : Database),
    databases (world s) !! db = Some d →
    ∃ o s' ran,
      createMissingTables_loop db entries s = (o, s') ∧
      ran `sublist_of` entries ∧
      scripts_ran db ran s s' ∧
      match o with
      | Returns true | Throws _ =>
          global_error s' = global_error s ∧
          log (world s') = log (world s) ++ (created_line <$> ran)
      | Returns false =>
          ∃ ran0 entry ex,
            ran = ran0 ++ [entry] ∧
            global_error s' = failed_message entry ex ∧
            log (world s') = log (world s) ++ (created_line <$> ran0)
      | Undefined => False
      end.
Proof.
  induction entries as [|entry entries IH]; intros s d Hd.
  - exists (Returns true), s, []. split; [reflexivity|]. split; [constructor|].
    split; [apply scripts_ran_nil; eauto|]. rewrite app_nil_r. split; reflexivity.
  - rewrite (createMissingTables_loop_step db entry entries s d Hd).
    destruct (sqlite_tableExists (file_data (world s) d) d (fileNameOf (entry_name entry)))
      as [e|[|]].
    + exists (Throws e), s, []. split; [reflexivity|]. split; [apply sublist_nil_l|].
      split; [apply scripts_ran_nil; eauto|]. rewrite app_nil_r. split; reflexivity.
    + destruct (IH s d Hd) as (o & s' & ran & Hrun & Hsub & Hran & Ho).
      exists o, s', ran. split; [exact Hrun|]. split; [apply sublist_cons, Hsub|].
      split; [exact Hran|exact Ho].
    + cbn zeta.
      destruct (sqlite_exec (file_data (world s) d) d (entry_data entry))
        as [ex|[[n fd] d']].
      * eexists (Returns false), _, [entry]. split; [reflexivity|].
        split; [apply sublist_skip, sublist_nil_l|]. split.
        { unfold scripts_ran. cbn. repeat split. eauto. }
        exists [], entry, ex. cbn. rewrite app_nil_r. repeat split.
      * match goal with |- context [createMissingTables_loop db entries ?s1] =>
          destruct (IH s1 d') as (o & s' & ran & Hrun & Hsub & Hran & Ho);
            [cbn; apply lookup_insert_eq|]
        end.
        exists o, s', (entry :: ran). split; [exact Hrun|].
        split; [apply sublist_skip, Hsub|]. split.
        { eapply scripts_ran_cons; [|exact Hran].
          unfold scripts_ran. cbn. repeat split.
          - apply delete_insert_eq.
          - rewrite lookup_insert_eq. eauto. }
        cbn in Ho. destruct o as [[|]|ex|].
        -- destruct Ho as [He Hl]. split; [exact He|].
           rewrite Hl, fmap_cons, <- app_assoc. reflexivity.
        -- destruct Ho as (ran0 & last & ex & -> & He & Hl).
           exists (entry :: ran0), last, ex. split; [reflexivity|]. split; [exact He|].
           rewrite Hl, fmap_cons, <- app_assoc. reflexivity.
        -- destruct Ho as [He Hl]. split; [exact He|].
           rewrite Hl, fmap_cons, <- app_assoc. reflexivity.
        -- exact Ho.
Qed.


Lemma createMissingTables_loop_all_exist (db : addr) (entries : list ArchiveEntry)
    (s : Process) (d : Database) :
  databases (world s) !! db = Some d →
  tables_exist (file_data (world s) d) d entries →
  createMissingTables_loop db entries s = (Returns true, s).
Proof.
  intros Hd. induction entries as [|entry entries IH]; intros Hall; [reflexivity|].
  rewrite (createMissingTables_loop_step db entry entries s d Hd).
  rewrite (Hall entry) by (apply elem_of_cons; left; reflexivity).
  apply IH. intros e He. apply Hall, elem_of_cons. right. exact He.
Qed.

Lemma createMissingTables_run (db : addr) (s : Process) (resource : Archive) :
  programResource = Some resource →
  createMissingTables db s =
    match dirAtPath resource "database/tables" with
    | None =>
        (Returns false,
         set_global_error (λ _,
           "Unable to initialize SLADE database: no table definitions in slade.pk3") s)
    | Some entries => createMissingTables_loop db entries s
    end.
Proof.
  intros Hres. unfold createMissingTables. rewrite Hres.
  destruct (dirAtPath resource "database/tables"); reflexivity.
Qed.

End ProcessRuns.

Section BootstrapTheorems.
Context {E : Engine} {Ap : App}.

(** X18. On a live connection and with the table definitions at hand,
    [createMissingTables] never dereferences a dead object; it runs the
    scripts of some of the entries, in the order of the directory and all
    on the connection it was given, logs one line for each script that ran
    through, and touches no context, statement, other connection or
    registry entry.  It reports failure only after a script threw, with
    the message of that script, which is the last one it ran; an exception
    that leaves it comes from the existence test and sets no message. *)
Theorem createMissingTables_runs_in_order (db : addr) (s : Process) (d : Database)
    (resource : Archive) (entries : list ArchiveEntry) :
  programResource = Some resource →
  dirAtPath resource "database/tables" = Some entries →
  databases (world s) !! db = Some d →
  ∃ o s' ran,
    createMissingTables db s = (o, s') ∧
    ran `sublist_of` entries ∧
    scripts_ran db ran s s' ∧
    match o with
    | Returns true | Throws _ =>
        global_error s' = global_error s ∧
        log (world s') = log (world s) ++ (created_line <$> ran)
    | Returns false =>
        ∃ ran0 entry ex,
          ran = ran0 ++ [entry] ∧
          global_error s' = failed_message entry ex ∧
          log (world s') = log (world s) ++ (created_line <$> ran0)
    | Undefined => False
    end.
Proof.
  intros Hres Hdir Hd. rewrite (createMissingTables_run db s resource Hres), Hdir.
  apply (createMissingTables_loop_runs db entries s d Hd).
Qed.

(** X19. When every table named in the directory exists,
    [createMissingTables] returns true and changes nothing: no script is
    run, nothing is logged and [global::error] keeps its value. *)
Theorem createMissingTables_nothing_missing (db : addr) (s : Process) (d : Database)
    (resource : Archive) (entries : list ArchiveEntry) :
  programResource = Some resource →
  dirAtPath resource "database/tables" = Some entries →
  databases (world s) !! db = Some d →
  tables_exist (file_data (world s) d) d entries →
  createMissingTables db s = (Returns true, s).
Proof.
  intros Hres Hdir Hd Hall. rewrite (createMissingTables_run db s resource Hres), Hdir.
  apply (createMissingTables_loop_all_exist db entries s d Hd Hall).
Qed.

(** X20. [createMissingTables] stops at the first script that throws: when
    the tables of the entries before [entry] exist, the table of [entry]
    does not and its script throws [ex], the result is false, the script of
    [entry] is the only statement run, nothing is logged, [global::error]
    names the table and the fault, and the entries after it are not looked
    at. *)
Theorem createMissingTables_stops_at_first_fault (db : addr) (s : Process) (d : Database)
    (resource : Archive) (before after : list ArchiveEntry) (entry : ArchiveEntry)
    (ex : exception) :
  programResource = Some resource →
  dirAtPath resource "database/tables" = Some (before ++ entry :: after) →
  databases (world s) !! db = Some d →
  tables_exist (file_data (world s) d) d before →
  sqlite_tableExists (file_data (world s) d) d (fileNameOf (entry_name entry)) = inr false →
  sqlite_exec (file_data (world s) d) d (entry_data entry) = inl ex →
  createMissingTables db s =
    (Returns false,
     set_global_error (λ _, failed_message entry ex)
       (set_world (set_trace (λ t, t ++ [script_of db entry])) s)).
Proof.
  intros Hres Hdir Hd Hbefore Hmissing Hfault.
  rewrite (createMissingTables_run db s resource Hres), Hdir. clear Hdir.
  induction before as [|b before IH]; cbn [app].
  - rewrite (createMissingTables_loop_step db entry after s d Hd), Hmissing. cbn zeta.
    rewrite Hfault. reflexivity.
  - rewrite (createMissingTables_loop_step db b _ s d Hd).
    rewrite (Hbefore b) by (apply elem_of_cons; left; reflexivity).
    apply IH. intros e He. apply Hbefore, elem_of_cons. right. exact He.
Qed.

Lemma Database_new_create_run (w : World) (filename : string) :
  Database_new_create filename w =
    match sqlite_open_create (files w) filename with
    | inl e => (Throws e, w)
    | inr fs =>
        (Returns (next_addr w),
         set_databases <[next_addr w := {| db_filename := filename;
                                           db_flags := OPEN_READWRITE;
                                           db_autocommit := true; db_changes := 0%Z |}]>
           (set_next_addr S (set_files (λ _, fs) w)))
    end.
Proof.
  unfold Database_new_create. rewrite bind_run. cbn [get_world].
  destruct (sqlite_open_create (files w) filename); reflexivity.
Qed.

Lemma with_local_database_run {A} (p : addr) (body : P A) (s s1 : Process) (o : outcome A)
    (d : Database) :
  body s = (o, s1) → databases (world s1) !! p = Some d → sqlite_close d = None →
  with_local_database p body s =
    (o, match o with
        | Undefined => s1
        | _ => set_world (set_databases (delete p)) s1
        end).
Proof.
  intros Hbody Hd Hclose. unfold with_local_database. rewrite Hbody.
  assert (Hdel : lift (Database_delete p) s1
                 = (Returns tt, set_world (set_databases (delete p)) s1)).
  { unfold lift. rewrite (Database_delete_run (world s1) p d Hd), Hclose. reflexivity. }
  destruct o as [a|e|]; [|rewrite Hdel; reflexivity|reflexivity].
  rewrite (P_bind_returns _ _ _ _ _ Hdel). reflexivity.
Qed.

(** [createDatabase] once the file was opened. *)
Lemma createDatabase_run (file_path : string) (s : Process) :
  createDatabase file_path s =
    match sqlite_open_create (files (world s)) file_path with
    | inl e => (Throws e, s)
    | inr fs =>
        with_local_database (next_addr (world s)) (createMissingTables (next_addr (world s)))
          (set_world (λ w, set_databases
                             <[next_addr w := {| db_filename := file_path;
                                                 db_flags := OPEN_READWRITE;
                                                 db_autocommit := true; db_changes := 0%Z |}]>
                             (set_next_addr S (set_files (λ _, fs) w))) s)
    end.
Proof.
  unfold createDatabase. rewrite P_bind_run. unfold lift at 1.
  rewrite Database_new_create_run.
  destruct (sqlite_open_create (files (world s)) file_path) as [e|fs].
  - rewrite set_world_id. reflexivity.
  - reflexivity.
Qed.

(** X21. The connection [createDatabase] opens is local to it: with the
    program resource loaded and an engine that closes connections without
    a fault, however [createDatabase] ends the connections alive
    afterwards are those alive before, no context was touched, and no dead
    object was dereferenced; when the file cannot be opened or created the
    exception leaves [createDatabase] and nothing has changed. *)
Theorem createDatabase_releases_connection (file_path : string) (s : Process)
    (resource : Archive) :
  programResource = Some resource →
  databases (world s) !! next_addr (world s) = None →
  (∀ d, sqlite_close d = None) →
  ∃ o s',
    createDatabase file_path s = (o, s') ∧
    o ≠ Undefined ∧
    databases (world s') = databases (world s) ∧
    contexts (world s') = contexts (world s) ∧
    statements (world s') = statements (world s) ∧
    thread_contexts (world s') = thread_contexts (world s) ∧
    (∀ e, sqlite_open_create (files (world s)) file_path = inl e →
          o = Throws e ∧ s' = s).
Proof.
  intros Hres Hfree Hclose. rewrite createDatabase_run.
  destruct (sqlite_open_create (files (world s)) file_path) as [e|fs].
  { exists (Throws e), s. split; [reflexivity|]. split; [discriminate|].
    do 4 (split; [reflexivity|]). intros e' [= <-]. split; reflexivity. }
  set (p := next_addr (world s)) in *.
  set (s1 := set_world _ s).
  assert (Hp : databases (world s1) !! p
               = Some {| db_filename := file_path; db_flags := OPEN_READWRITE;
                         db_autocommit := true; db_changes := 0%Z |})
    by (cbn; apply lookup_insert_eq).
  assert (Hback : delete p (databases (world s1)) = databases (world s)).
  { cbn. fold p. rewrite delete_insert_eq. apply delete_id, Hfree. }
  destruct (dirAtPath resource "database/tables") as [entries|] eqn:Hdir.
  - destruct (createMissingTables_loop_runs p entries s1 _ Hp)
      as (o & s' & ran & Hrun & _ & Hran & Ho).
    destruct Hran as (_ & Hc & Hs & Hr & _ & Hd & [d' Hlive] & _).
    assert (Hbody : createMissingTables p s1 = (o, s'))
      by (rewrite (createMissingTables_run p s1 resource Hres), Hdir; exact Hrun).
    rewrite (with_local_database_run p _ s1 s' o d' Hbody Hlive (Hclose d')).
    eexists _, _. split; [reflexivity|].
    destruct o as [b|e|]; [| |destruct Ho].
    + split; [discriminate|]. cbn. rewrite Hd, Hback, Hc, Hs, Hr.
      repeat split; discriminate.
    + split; [discriminate|]. cbn. rewrite Hd, Hback, Hc, Hs, Hr.
      repeat split; discriminate.
  - erewrite with_local_database_run;
      [|rewrite (createMissingTables_run p s1 resource Hres), Hdir; reflexivity
       |exact Hp|apply Hclose].
    eexists _, _. split; [reflexivity|]. split; [discriminate|].
    cbn. fold p. rewrite delete_insert_eq, (delete_id _ _ Hfree).
    repeat split; discriminate.
Qed.

Lemma init_run (s : Process) :
  init s =
    if fileutil_fileExists (files (world s)) (app_path "slade.sqlite" User)
    then init_open (app_path "slade.sqlite" User) false s
    else (ok ← createDatabase (app_path "slade.sqlite" User);
          if negb ok then mret false else init_open (app_path "slade.sqlite" User) true) s.
Proof.
  unfold init. cbn zeta. rewrite P_bind_run.
  rewrite (lift_same get_world s (Returns (world s)) eq_refl).
  destruct (fileutil_fileExists (files (world s)) (app_path "slade.sqlite" User));
    reflexivity.
Qed.

(** X22. When the database file exists and the engine refuses the
    read-only connection, [init] does not return false: the exception of
    the engine leaves [init], [global::error] keeps its value, and the main
    context is still closed, with its file path now set to the path of the
    database. *)
Theorem init_open_fault_propagates (s : Process) (c : Context) (e : exception) :
  fileutil_fileExists (files (world s)) programDatabasePath = true →
  contexts (world s) !! db_global = Some c → is_closed c →
  sqlite_open (files (world s)) programDatabasePath OPEN_READONLY = Some e →
  init s = (Throws e,
            set_world (set_contexts <[db_global := with_file_path programDatabasePath c]>) s)
  ∧ is_closed (with_file_path programDatabasePath c).
Proof.
  unfold programDatabasePath. intros Hexists Hc Hclosed Hfault.
  split; [|exact Hclosed].
  rewrite init_run, Hexists. unfold init_open. rewrite P_bind_run.
  unfold lift at 1. rewrite (open_closed_fault _ _ c _ e Hc Hclosed Hfault). reflexivity.
Qed.


(** X24. When the database file does not exist and the program resource
    has no directory of table definitions, [init] returns false with the
    message about the missing definitions in [global::error]; the main
    context is not opened and the connection used for the creation is
    gone, but the file has been created on disk. *)
Theorem init_without_definitions (s : Process) (resource : Archive)
    (fs : gmap string FileData) :
  fileutil_fileExists (files (world s)) programDatabasePath = false →
  sqlite_open_create (files (world s)) programDatabasePath = inr fs →
  programResource = Some resource →
  dirAtPath resource "database/tables" = None →
  databases (world s) !! next_addr (world s) = None →
  (∀ d, sqlite_close d = None) →
  ∃ s',
    init s = (Returns false, s') ∧
    global_error s'
      = "Unable to initialize SLADE database: no table definitions in slade.pk3" ∧
    files (world s') = fs ∧
    contexts (world s') = contexts (world s) ∧
    databases (world s') = databases (world s) ∧
    trace (world s') = trace (world s) ∧ log (world s') = log (world s).
Proof.
  unfold programDatabasePath. intros Hexists Hcreate Hres Hdir Hfree Hclose.
  rewrite init_run, Hexists, P_bind_run, createDatabase_run, Hcreate.
  erewrite with_local_database_run;
    [|rewrite (createMissingTables_run _ _ resource Hres), Hdir; reflexivity
     |cbn; apply lookup_insert_eq|apply Hclose].
  cbn [negb]. eexists. split; [reflexivity|]. cbn.
  rewrite delete_insert_eq, (delete_id _ _ Hfree). repeat split.
Qed.

(** X25. When [init] has to create the database, every script it runs is
    run on the connection of the creation, which is gone afterwards, and
    never on the connections of the main context.  When the creation
    reports failure the main context is not opened; when it succeeds the
    main context is opened on the path of the database and no update
    follows, so the script of each entry has run at most once. *)
Theorem init_creates_on_local_connection (s : Process) (c : Context) (resource : Archive)
    (entries : list ArchiveEntry) (fs : gmap string FileData) :
  fileutil_fileExists (files (world s)) programDatabasePath = false →
  sqlite_open_create (files (world s)) programDatabasePath = inr fs →
  programResource = Some resource →
  dirAtPath resource "database/tables" = Some entries →
  contexts (world s) !! db_global = Some c → is_closed c →
  databases (world s) !! next_addr (world s) = None →
  (∀ d, sqlite_close d = None) →
  (∀ fs' flags, sqlite_open fs' programDatabasePath flags = None) →
  ∃ o s' ran,
    init s = (o, s') ∧ o ≠ Undefined ∧
    ran `sublist_of` entries ∧
    trace (world s') = trace (world s) ++ (script_of (next_addr (world s)) <$> ran) ∧
    databases (world s') !! next_addr (world s) = None ∧
    match o with
    | Returns true =>
        contexts (world s') !! db_global
          = Some {| thread_id_ := thread_id_ c; file_path_ := programDatabasePath;
                    connection_ro_ := Some (S (next_addr (world s)));
                    connection_rw_ := Some (S (S (next_addr (world s))));
                    cached_queries_ := cached_queries_ c |} ∧
        log (world s') = log (world s) ++ (created_line <$> ran) ∧
        global_error s' = global_error s
    | Returns false =>
        contexts (world s') = contexts (world s) ∧
        ∃ entry ex, global_error s' = failed_message entry ex
    | _ => contexts (world s') = contexts (world s)
    end.
Proof.
  unfold programDatabasePath.
  intros Hexists Hcreate Hres Hdir Hc Hclosed Hfree Hclose Hopen.
  rewrite init_run, Hexists, P_bind_run, createDatabase_run, Hcreate.
  set (n := next_addr (world s)) in *.
  set (s1 := set_world _ s).
  assert (Hn : databases (world s1) !! n
               = Some {| db_filename := app_path "slade.sqlite" User;
                         db_flags := OPEN_READWRITE; db_autocommit := true; db_changes := 0%Z |})
    by (cbn; apply lookup_insert_eq).
  destruct (createMissingTables_loop_runs n entries s1 _ Hn)
    as (o & s2 & ran & Hrun & Hsub & Hran & Ho).
  destruct Hran as (Ht & Hcs & _ & _ & Hnext & _ & [d2 Hlive] & _).
  assert (Hbody : createMissingTables n s1 = (o, s2))
    by (rewrite (createMissingTables_run n s1 resource Hres), Hdir; exact Hrun).
  rewrite (with_local_database_run n _ s1 s2 o d2 Hbody Hlive (Hclose d2)).
  destruct o as [[|]|ex|]; [| | |destruct Ho]; cbn [negb].
  - destruct Ho as [Herr Hlog].
    unfold init_open. rewrite P_bind_run. unfold lift at 1.
    rewrite (open_closed_run _ db_global c (app_path "slade.sqlite" User))
      by (cbn; first [rewrite Hcs; exact Hc|exact Hclosed|apply Hopen]).
    cbn [negb]. eexists (Returns true), _, ran. split; [reflexivity|].
    split; [discriminate|]. split; [exact Hsub|]. cbn.
    rewrite Ht, Hnext, Hlog, Herr. cbn. fold n.
    split; [reflexivity|].
    split; [rewrite !lookup_insert_ne by lia; apply lookup_delete_eq|].
    split; [apply lookup_insert_eq|]. split; reflexivity.
  - destruct Ho as (ran0 & entry & ex & _ & Herr & _).
    eexists (Returns false), _, ran. split; [reflexivity|].
    split; [discriminate|]. split; [exact Hsub|]. cbn. rewrite Ht, Hcs. cbn. fold n.
    split; [reflexivity|]. split; [apply lookup_delete_eq|].
    split; [reflexivity|]. exists entry, ex. exact Herr.
  - eexists (Throws ex), _, ran. split; [reflexivity|].
    split; [discriminate|]. split; [exact Hsub|]. cbn. rewrite Ht, Hcs. cbn. fold n.
    split; [reflexivity|]. split; [apply lookup_delete_eq|reflexivity].
Qed.

(** X26. [templateDbPath] copies the template at most once per non-empty
    path: a call with the path already set returns it and changes nothing;
    a call with the path unset sets it to the path in the temporary
    directory, copies the template there and returns it; and after either,
    unless the path is empty, a further call returns the same path and
    changes nothing. *)
Theorem templateDbPath_copies_once (s : Process) :
  ∃ p s1,
    templateDbPath s = (Returns p, s1) ∧
    template_db_path s1 = p ∧
    (template_db_path s ≠ "" → s1 = s) ∧
    (template_db_path s = "" →
       p = app_path "slade_template.sqlite" Temp ∧
       s1 = set_world (set_files (λ fs,
              fileutil_copyFile fs (app_path "res/Database/slade.sqlite" Executable) p))
              (set_template_db_path (λ _, p) s)) ∧
    (p ≠ "" → templateDbPath s1 = (Returns p, s1)).
Proof.
  assert (Hset : ∀ s0, template_db_path s0 ≠ "" →
                   templateDbPath s0 = (Returns (template_db_path s0), s0)).
  { intros s0 Hne. unfold templateDbPath. rewrite P_bind_run. cbn [get_process].
    rewrite bool_decide_eq_false_2 by exact Hne. reflexivity. }
  destruct (decide (template_db_path s = "")) as [Hempty|Hne].
  - eexists _, _. split.
    { unfold templateDbPath. rewrite P_bind_run. cbn [get_process].
      rewrite bool_decide_eq_true_2 by exact Hempty. reflexivity. }
    split; [reflexivity|]. split; [intros Hne; destruct (Hne Hempty)|].
    split; [intros _; split; reflexivity|].
    intros Hp. apply (Hset _ Hp).
  - exists (template_db_path s), s. split; [apply Hset, Hne|].
    split; [reflexivity|]. split; [reflexivity|].
    split; [intros Hempty; destruct (Hne Hempty)|]. intros _. apply Hset, Hne.
Qed.

End BootstrapTheorems.

(** ** The console command *)

Section ConsoleCommand.
Context {E : Engine} {Ap : App}.

Lemma P_try_catch_run {A} (m : P A) (h : exception → P A) (s : Process) :
  P_try_catch m h s = match m s with
                      | (Throws e, s') => h e s'
                      | r => r
                      end.
Proof. unfold P_try_catch. destruct (m s) as [[a|e|] s']; reflexivity. Qed.

Lemma Statement_executeStep_run (w : World) (sql : addr) (st : Statement) (row : bool) :
  statements w !! sql = Some st →
  Statement_executeStep sql row w =
    (Returns row,
     set_statements <[sql := {| stmt_database := stmt_database st;
                                stmt_query := stmt_query st;
                                stmt_has_row := row; stmt_done := negb row |}]> w).
Proof.
  intros Hst. unfold Statement_executeStep.
  rewrite (bind_returns _ _ _ _ _ (deref_live statements w sql st Hst)). reflexivity.
Qed.

(** The loop that prints the rows: every row is printed, in order, also
    when the steps end with a fault; only the statement is touched. *)
Lemma log_rows_run (sql : addr) (rows : list Column) (fault : option exception) :
  ∀ s, is_Some (statements (world s) !! sql) →
  ∃ s',
    log_rows sql rows fault s
      = (match fault with Some ex => Throws ex | None => Returns tt end, s') ∧
    console s' = console s ++ (column_text <$> rows) ∧
    delete sql (statements (world s')) = delete sql (statements (world s)) ∧
    log (world s') = log (world s) ∧ trace (world s') = trace (world s) ∧
    contexts (world s') = contexts (world s) ∧
    databases (world s') = databases (world s) ∧
    files (world s') = files (world s).
Proof.
  induction rows as [|row rows IH]; intros s [st Hst].
  - destruct fault as [ex|].
    + exists s. cbn. rewrite app_nil_r. repeat split.
    + eexists. cbn [log_rows]. rewrite P_bind_run. unfold lift at 1.
      rewrite (Statement_executeStep_run _ _ st false Hst).
      split; [reflexivity|]. cbn. rewrite app_nil_r, delete_insert_eq. repeat split.
  - cbn [log_rows]. rewrite P_bind_run. unfold lift at 1.
    rewrite (Statement_executeStep_run _ _ st true Hst).
    rewrite P_bind_run. cbn [log_console P_modify].
    match goal with |- context [log_rows sql rows fault ?s1] =>
      destruct (IH s1) as (s' & Hrun & Hcon & Hst' & Hlog & Htr & Hc & Hd & Hf);
        [cbn; rewrite lookup_insert_eq; eauto|]
    end.
    exists s'. split; [exact Hrun|]. rewrite Hcon, Hst', Hlog, Htr, Hc, Hd, Hf. cbn.
    rewrite delete_insert_eq, <- app_assoc. repeat split.
Qed.

(** X27. [db tables] prints column 0 of every row the statement yields,
    in order, and the rows printed before a step throws stay printed; the
    fault is logged as an error and does not leave the command.  The
    statement it compiled is gone when the command returns, and neither
    the contexts, the connections nor the files have changed.
    ([database::connectionRO] is declared in Database.h and modelled as
    the read-only connection of the context [global] returns.) *)
Theorem c_db_tables_prints_rows (current : thread_id) (rest : list string) (s : Process)
    (g p : addr) (w1 : World) (c : Context) (d : Database) (rows : list Column)
    (fault : option exception) :
  global current (world s) = (Returns g, w1) →
  contexts w1 !! g = Some c → connection_ro_ c = Some p →
  databases w1 !! p = Some d →
  statements w1 !! next_addr w1 = None →
  sqlite_prepare (file_data w1 d) d tables_query = None →
  sqlite_steps (file_data w1 d) d tables_query = (rows, fault) →
  ∃ s',
    c_db current ("tables" :: rest) s = (Returns tt, s') ∧
    console s' = console s ++ (column_text <$> rows) ∧
    log (world s')
      = log w1 ++ match fault with Some ex => [(Error, what ex)] | None => [] end ∧
    statements (world s') = statements w1 ∧ trace (world s') = trace w1 ∧
    contexts (world s') = contexts w1 ∧ databases (world s') = databases w1 ∧
    files (world s') = files w1.
Proof.
  intros Hg Hc Hro Hd Hfree Hprep Hsteps. set (query := tables_query) in *.
  cbn [c_db String.eqb Ascii.eqb Bool.eqb]. rewrite P_try_catch_run.
  unfold c_db_tables. rewrite P_bind_run.
  assert (Hconn : lift (connectionRO current) s
                  = (Returns (Some p), set_world (λ _, w1) s)).
  { apply lift_run. unfold connectionRO. rewrite (bind_returns _ _ _ _ _ Hg).
    unfold Context_connectionRO.
    rewrite (bind_returns _ _ _ _ _ (deref_live contexts w1 g c Hc)), Hro. reflexivity. }
  rewrite Hconn. cbn zeta. fold query. rewrite P_bind_run.
  assert (Hnew : lift (Statement_new (Some p) query) (set_world (λ _, w1) s)
                 = (Returns (next_addr w1),
                    set_world (λ _, set_statements
                                      <[next_addr w1 := {| stmt_database := p;
                                                           stmt_query := query;
                                                           stmt_has_row := false;
                                                           stmt_done := false |}]>
                                      (set_next_addr S w1)) s)).
  { unfold lift. cbn [world set_world]. unfold Statement_new.
    rewrite (bind_returns _ _ _ _ _ (deref_live databases w1 p d Hd)).
    rewrite bind_run. cbn [get_world]. rewrite Hprep. reflexivity. }
  rewrite Hnew. unfold with_local_statement. rewrite P_bind_run.
  set (s2 := set_world _ s).
  assert (Hd2 : lift (deref databases (Some p)) s2 = (Returns d, s2)).
  { apply lift_same. apply deref_live. exact Hd. }
  rewrite Hd2, P_bind_run.
  rewrite (lift_same get_world s2 (Returns (world s2)) eq_refl).
  change (file_data (world s2) d) with (file_data w1 d). rewrite Hsteps.
  destruct (log_rows_run (next_addr w1) rows fault s2)
    as (s' & Hrun & Hcon & Hst & Hlog & Htr & Hcs & Hds & Hfs);
    [cbn; rewrite lookup_insert_eq; eauto|].
  rewrite Hrun.
  assert (Hback : delete (next_addr w1) (statements (world s')) = statements w1).
  { rewrite Hst. cbn. rewrite delete_insert_eq. apply delete_id, Hfree. }
  destruct fault as [ex|]; eexists; (split; [reflexivity|]); cbn;
    rewrite Hcon, Hback, Hlog, Htr, Hcs, Hds, Hfs; cbn;
    rewrite ?app_nil_r; repeat split.
Qed.

(** X28. [db reset] is not atomic: the table is dropped before its script
    runs, so when the drop goes through and the script throws, the command
    returns with the fault logged as an error, nothing printed, and the
    drop in effect.  ([database::connectionRW] is declared in Database.h
    and modelled as the read-write connection of the context [global]
    returns.) *)
Theorem c_db_reset_drops_first (current : thread_id) (table : string) (rest : list string)
    (s : Process) (g p : addr) (w1 w2 : World) (c : Context) (d d' : Database)
    (resource : Archive) (sql_entry : ArchiveEntry) (n : Z) (fd : FileData)
    (ex : exception) :
  global current (world s) = (Returns g, w1) →
  contexts w1 !! g = Some c → connection_rw_ c = Some p →
  databases w1 !! p = Some d →
  programResource = Some resource →
  entryAtPath resource ("database/tables/" +:+ table +:+ ".sql") = Some sql_entry →
  sqlite_exec (file_data w1 d) d ("DROP TABLE IF EXISTS " +:+ table) = inr (n, fd, d') →
  w2 = set_databases <[p := d']>
         (set_files <[db_filename d := fd]>
            (set_trace (λ t, t ++ [(p, "DROP TABLE IF EXISTS " +:+ table)]) w1)) →
  sqlite_exec (file_data w2 d') d' (entry_data sql_entry) = inl ex →
  c_db current ("reset" :: table :: rest) s =
    (Returns tt,
     set_world (λ _, set_log (λ lg, lg ++ [(Error, what ex)])
                       (set_trace (λ t, t ++ [(p, entry_data sql_entry)]) w2)) s).
Proof.
  intros Hg Hc Hrw Hd Hres Hentry Hdrop -> Hscript.
  set (drop := "DROP TABLE IF EXISTS " +:+ table) in *.
  set (w2 := set_databases _ _) in *.
  cbn [c_db String.eqb Ascii.eqb Bool.eqb]. rewrite P_try_catch_run.
  unfold c_db_reset. cbn [lookup list_lookup]. rewrite P_bind_run.
  assert (Hconn : lift (connectionRW current) s
                  = (Returns (Some p), set_world (λ _, w1) s)).
  { apply lift_run. unfold connectionRW. rewrite (bind_returns _ _ _ _ _ Hg).
    unfold Context_connectionRW.
    rewrite (bind_returns _ _ _ _ _ (deref_live contexts w1 g c Hc)), Hrw. reflexivity. }
  rewrite Hconn, Hres, Hentry. cbn zeta. rewrite P_bind_run.
  unfold lift at 1. cbn [world set_world]. fold drop.
  rewrite (Database_exec_run w1 p d drop Hd), Hdrop. fold w2.
  rewrite P_bind_run. unfold lift at 1. cbn [world set_world].
  rewrite (Database_exec_run w2 p d' (entry_data sql_entry))
    by (cbn; apply lookup_insert_eq).
  rewrite Hscript. reflexivity.
Qed.

(** X29. With the main context closed, the command run on the main thread
    touches nothing, whatever its arguments: it returns with the process
    as it was, or, for [rowcount] and [reset] without a table name, with
    one line of usage printed.  ([database::connectionRO] and
    [database::connectionRW] are declared in Database.h and modelled as
    the connections of the context [global] returns.) *)
Theorem c_db_closed_context_runs_nothing (command : string) (rest : list string)
    (s : Process) (c : Context) :
  contexts (world s) !! db_global = Some c → is_closed c →
  c_db mainThreadId (command :: rest) s = (Returns tt, s) ∨
  (rest = [] ∧ ∃ line,
     c_db mainThreadId (command :: rest) s
       = (Returns tt, set_console (λ lines, lines ++ [line]) s)).
Proof.
  intros Hc [Hro Hrw].
  assert (HconnRO : lift (connectionRO mainThreadId) s = (Returns None, s)).
  { apply lift_same. unfold connectionRO. rewrite (bind_returns _ _ _ _ _ (global_main _)).
    unfold Context_connectionRO.
    rewrite (bind_returns _ _ _ _ _ (deref_live contexts _ _ c Hc)), Hro. reflexivity. }
  assert (HconnRW : lift (connectionRW mainThreadId) s = (Returns None, s)).
  { apply lift_same. unfold connectionRW. rewrite (bind_returns _ _ _ _ _ (global_main _)).
    unfold Context_connectionRW.
    rewrite (bind_returns _ _ _ _ _ (deref_live contexts _ _ c Hc)), Hrw. reflexivity. }
  cbn [c_db]. rewrite P_try_catch_run.
  destruct (String.eqb command "tables").
  { left. unfold c_db_tables. rewrite P_bind_run, HconnRO. reflexivity. }
  destruct (String.eqb command "rowcount").
  { unfold c_db_rowcount. destruct rest as [|table rest]; cbn [lookup list_lookup].
    - right. split; [reflexivity|]. eexists. reflexivity.
    - left. rewrite P_bind_run, HconnRO. reflexivity. }
  destruct (String.eqb command "reset").
  { unfold c_db_reset. destruct rest as [|table rest]; cbn [lookup list_lookup].
    - right. split; [reflexivity|]. eexists. reflexivity.
    - left. rewrite P_bind_run, HconnRW. reflexivity. }
  left. reflexivity.
Qed.

End ConsoleCommand.

(** ** The further properties at concrete inputs *)

Section FurtherWitnesses.
Import Reference Sample.

Local Ltac run := vm_compute; reflexivity.

Local Ltac other_thread :=
  let q := fresh "q" in
  let Hq := fresh "Hq" in
  intros q Hq;
  repeat (apply elem_of_cons in Hq as [->|Hq];
          [eexists; split; [run|vm_compute; discriminate]|]);
  apply elem_of_nil in Hq; destruct Hq.

Local Ltac live_registry :=
  let p := fresh "p" in
  let Hp := fresh "Hp" in
  intros p Hp;
  repeat (apply elem_of_cons in Hp as [->|Hp]; [vm_compute; eauto|]);
  apply elem_of_nil in Hp; destruct Hp.

Local Ltac live_connections :=
  split; [|split];
  [ let p := fresh "p" in let Hp := fresh "Hp" in
    intros p Hp; vm_compute in Hp; first [discriminate|injection Hp as <-; vm_compute; eauto]
  | let p := fresh "p" in let Hp := fresh "Hp" in
    intros p Hp; vm_compute in Hp; first [discriminate|injection Hp as <-; vm_compute; eauto]
  | let p := fresh "p" in let q := fresh "q" in
    let Hp := fresh "Hp" in let Hq := fresh "Hq" in
    intros p q Hp Hq; vm_compute in Hp, Hq;
    first [discriminate|injection Hp as <-; injection Hq as <-; discriminate] ].

Local Ltac all_entries :=
  let entry := fresh "entry" in
  let He := fresh "He" in
  intros entry He;
  repeat (apply elem_of_cons in He as [->|He]; [run|]);
  apply elem_of_nil in He; destruct He.

(** Thread 7 deregisters its two contexts in [world_registered]. *)
Lemma deregister_removes_own_witness :
  ∃ w', deregisterThreadContexts 7 world_registered = (Returns tt, w') ∧
        thread_contexts w' = [1] ∧
        deregisterThreadContexts 7 w' = (Returns tt, w').
Proof.
  destruct (deregister_removes_own 7 world_registered)
    as (w' & Hrun & Hreg & _ & _ & _ & _ & Hagain).
  - live_registry.
  - exists w'. split; [exact Hrun|]. split; [rewrite Hreg; run|exact Hagain].
Defined.

Lemma reachable_after (ops : list Op) (w : World) :
  reachable (E := engine) w → reachable (E := engine) (world_after ops w).
Proof.
  revert w. induction ops as [|o ops IH]; intros w Hw; [exact Hw|].
  apply IH. apply reachable_step. exact Hw.
Qed.

(** Resolution from thread 7 after it created and registered two contexts,
    with one of thread 5 registered in between, and destroyed its first:
    the scan passes the context of thread 5 and returns the second context
    of thread 7, the destroyed one being neither alive nor registered. *)
Lemma global_returns_live_context_witness :
  reachable (E := engine) world_destroyed ∧
  thread_contexts world_destroyed = [2; 3] ∧
  contexts world_destroyed !! 1 = None ∧
  global (E := engine) 7 world_destroyed = (Returns 3, world_destroyed) ∧
  created_on world_destroyed 3 7.
Proof.
  assert (Hreach : reachable (E := engine) world_destroyed).
  { apply reachable_after.
    apply (reachable_start (E := engine) {[ "slade.sqlite" := slade_sqlite ]}). }
  assert (Hglobal : global (E := engine) 7 world_destroyed = (Returns 3, world_destroyed))
    by run.
  destruct (global_returns_live_context (E := engine) 7 world_destroyed Hreach)
    as (p & w' & Hrun & _ & Hp).
  rewrite Hglobal in Hrun. injection Hrun as <- <-.
  split; [exact Hreach|]. split; [run|]. split; [run|]. split; [exact Hglobal|].
  destruct Hp as [Hmain|(_ & _ & Hcreated)]; [discriminate|exact Hcreated].
Defined.

(** The closed main context of the initial world. *)
Lemma closed_context_caches_nothing_witness :
  cachedQuery db_global "rows" world0 = (Returns None, world0) ∧
  cacheQuery (E := engine) db_global "rows" "SELECT id FROM archive_file" false world0
    = (Returns None, world0).
Proof.
  apply (closed_context_caches_nothing (E := engine) world0 db_global (worker 0)).
  - apply (reachable_start (E := engine) {[ "slade.sqlite" := slade_sqlite ]}).
  - run.
  - reflexivity.
Defined.

(** A second [cacheQuery] under the same id with another text and the
    other connection. *)
Lemma cacheQuery_hit_ignores_text_witness :
  ∃ w',
    cacheQuery (E := engine) db_global "rows" "DELETE FROM archive_file" true world_cached
      = (Returns (Some 3), w') ∧
    cachedQuery db_global "rows" world_cached = (Returns (Some 3), w').
Proof.
  destruct (cacheQuery_hit_ignores_text (E := engine) world_cached db_global main_cached
              "rows" "DELETE FROM archive_file" true 3
              {| stmt_database := 1; stmt_query := "SELECT id FROM archive_file";
                 stmt_has_row := false; stmt_done := false |})
    as (w' & Hcache & Hcached & _); [run..|].
  exists w'. split; [exact Hcache|exact Hcached].
Defined.

(** A text the engine does not compile. *)
Lemma cacheQuery_compile_fault_witness :
  cacheQuery (E := engine) db_global "bad" "DROP everything" false world_open
    = (Throws syntax, world_open) ∧
  cachedQuery db_global "bad" world_open = (Returns None, world_open).
Proof.
  apply (cacheQuery_compile_fault (E := engine) world_open db_global main_open
           "bad" "DROP everything" false 1 1 connection_ro syntax); run.
Defined.

(** A first [cacheQuery] on the open main context, then the lookup. *)
Lemma cacheQuery_miss_then_lookup_witness :
  ∃ s w',
    cacheQuery (E := engine) db_global "rows" "SELECT id FROM archive_file" false world_open
      = (Returns (Some s), w') ∧
    cachedQuery db_global "rows" w' = (Returns (Some s), w').
Proof.
  destruct (cacheQuery_miss_then_lookup (E := engine) world_open db_global main_open
              "rows" "SELECT id FROM archive_file" false 1 1 connection_ro)
    as (s & w' & c' & Hcache & _ & _ & _ & _ & _ & _ & _ & Hlookup); [run..|].
  exists s, w'. split; [exact Hcache|exact Hlookup].
Defined.

(** Closing the main context of [world_cached] twice. *)
Lemma close_twice_witness :
  ∃ b w1, close (E := engine) db_global world_cached = (Returns b, w1) ∧
          close (E := engine) db_global w1 = (Returns true, w1).
Proof.
  apply (close_twice (E := engine) world_cached db_global main_cached).
  - run.
  - live_connections.
Defined.

(** What is left after the main context of [world_cached] was closed. *)
Lemma close_releases_everything_witness :
  contexts world_closed !! db_global = Some (worker 0) ∧
  databases world_closed !! 1 = None ∧ databases world_closed !! 2 = None ∧
  statements world_closed !! 3 = None.
Proof.
  destruct (close_releases_everything (E := engine) world_cached world_closed db_global
              main_cached) as (Hc & Hdb & Hst & _).
  - run.
  - live_connections.
  - eexists. reflexivity.
  - run.
  - split; [exact Hc|]. split; [apply Hdb; left; reflexivity|].
    split; [apply Hdb; right; reflexivity|]. apply (Hst "rows"). run.
Defined.

(** Opening the program database in the main context. *)
Lemma open_opens_both_witness :
  ∃ ro rw,
    ro ≠ rw ∧
    contexts world_open !! db_global
      = Some {| thread_id_ := 0; file_path_ := "slade.sqlite"; connection_ro_ := Some ro;
                connection_rw_ := Some rw; cached_queries_ := ∅ |} ∧
    databases world_open !! ro = Some connection_ro ∧
    databases world_open !! rw = Some connection_rw.
Proof.
  destruct (open_opens_both (E := engine) world0 world_open db_global (worker 0)
              "slade.sqlite") as (ro & rw & Hne & Hc & Hro & Hrw & _).
  - run.
  - live_connections.
  - right. split; reflexivity.
  - intros _. reflexivity.
  - run.
  - exists ro, rw. split; [exact Hne|]. split; [exact Hc|]. split; [exact Hro|exact Hrw].
Defined.

(** Opening a file that is not on disk. *)
Lemma open_fault_keeps_closed_witness :
  open (E := engine) db_global "missing.sqlite" world0
    = (Throws cantopen,
       set_contexts <[db_global := with_file_path "missing.sqlite" (worker 0)]> world0).
Proof.
  apply (open_fault_keeps_closed (E := engine) world0 db_global (worker 0)
           "missing.sqlite" cantopen).
  - run.
  - split; reflexivity.
  - run.
Defined.

(** A context constructed on thread 7 for the program database. *)
Lemma constructor_result_witness :
  thread_contexts world_worker_open = [] ∧
  isForThisThread 1 7 world_worker_open = (Returns true, world_worker_open) ∧
  isForThisThread 1 0 world_worker_open = (Returns false, world_worker_open).
Proof.
  destruct (constructor_result (E := engine) 7 "slade.sqlite" world0 world_worker_open 1)
    as (_ & Hreg & Hthread & _); [run|].
  split; [rewrite Hreg; reflexivity|]. split; [exact (Hthread 7)|exact (Hthread 0)].
Defined.

(** A guard on the read-write connection of the open main context. *)
Lemma beginTransaction_picks_connection_witness :
  ∃ w',
    beginTransaction (E := engine) db_global true world_open
      = (Returns {| connection_ := Some 2; tx_state := ACTIVE |}, w') ∧
    trace w' = [(2, "BEGIN")] ∧
    databases w' !! 1 = Some connection_ro.
Proof.
  destruct (beginTransaction_picks_connection (E := engine) world_open db_global main_open
              true 1 2 connection_rw 0%Z slade_sqlite
              {| db_filename := "slade.sqlite"; db_flags := OPEN_READWRITE;
                 db_autocommit := false; db_changes := 0%Z |})
    as (w' & Hrun & Htrace & _ & Hother & _); [run|run|run|discriminate|run|run|run|].
  exists w'. split; [exact Hrun|]. split; [rewrite Htrace; run|rewrite Hother; run].
Defined.

(** Thread 9, which registered nothing, executes on the open main
    context. *)
Lemma unregistered_thread_writes_through_main_witness :
  database_exec (E := engine) 9 "DELETE FROM archive_file" None world_open
    = Database_exec (E := engine) (Some 2) "DELETE FROM archive_file" (warned world_open).
Proof.
  apply (unregistered_thread_writes_through_main (E := engine) 9
           "DELETE FROM archive_file" world_open main_open 2 connection_rw).
  - vm_compute. discriminate.
  - other_thread.
  - run.
  - run.
  - run.
Defined.

(** Thread 7 executes in [world_registered], where its first registered
    context is closed. *)
Lemma registered_thread_uses_own_context_witness :
  database_exec (E := engine) 7 "DELETE FROM archive_file" None world_registered
    = (Returns 0%Z, world_registered).
Proof.
  destruct (registered_thread_uses_own_context (E := engine) 7 "DELETE FROM archive_file"
              world_registered [1] [3] 2 (worker 7)) as (_ & Hzero & _).
  - vm_compute. discriminate.
  - reflexivity.
  - other_thread.
  - run.
  - reflexivity.
  - apply Hzero. reflexivity.
Defined.

(** Closing the global context of [world_cached], then executing. *)
Lemma database_close_then_exec_witness :
  ∃ w1,
    database_close (E := engine) world_cached = (Returns tt, w1) ∧
    database_exec (E := engine) 0 "DELETE FROM archive_file" None w1 = (Returns 0%Z, w1).
Proof.
  destruct (database_close_then_exec (E := engine) world_cached main_cached)
    as (w1 & c1 & Hclose & _ & _ & _ & Hexec).
  - run.
  - live_connections.
  - left. split; eexists; reflexivity.
  - intros db. reflexivity.
  - exists w1. split; [exact Hclose|exact (Hexec _)].
Defined.

(** The table definitions of the program resource on the open program
    database, which lacks the second table. *)
Lemma createMissingTables_runs_in_order_witness :
  ∃ o s' ran,
    createMissingTables (E := engine) (Ap := app) 2 (process world_open) = (o, s') ∧
    ran `sublist_of` tables ∧
    scripts_ran 2 ran (process world_open) s'.
Proof.
  destruct (createMissingTables_runs_in_order (E := engine) (Ap := app) 2
              (process world_open) connection_rw slade_pk3 tables)
    as (o & s' & ran & Hrun & Hsub & Hran & _); [reflexivity|reflexivity|run|].
  exists o, s', ran. split; [exact Hrun|]. split; [exact Hsub|exact Hran].
Defined.

(** The same on a program database that has both tables. *)
Lemma createMissingTables_nothing_missing_witness :
  createMissingTables (E := engine) (Ap := app) 2 (process world_full)
    = (Returns true, process world_full).
Proof.
  apply (createMissingTables_nothing_missing (E := engine) (Ap := app) 2
           (process world_full) connection_rw slade_pk3 tables).
  - reflexivity.
  - reflexivity.
  - run.
  - all_entries.
Defined.

(** The script of the second table is one the reference engine does not
    know. *)
Lemma createMissingTables_stops_at_first_fault_witness :
  ∃ s',
    createMissingTables (E := engine) (Ap := app) 2 (process world_open)
      = (Returns false, s') ∧
    global_error s' = "Failed to create database table archive_map: syntax error" ∧
    trace (world s') = [(2, entry_data archive_map_sql)].
Proof.
  eexists. split.
  - apply (createMissingTables_stops_at_first_fault (E := engine) (Ap := app) 2
             (process world_open) connection_rw slade_pk3 [archive_file_sql] []
             archive_map_sql syntax).
    + reflexivity.
    + reflexivity.
    + run.
    + all_entries.
    + run.
    + run.
  - split; run.
Defined.

(** Creating a database beside the program database. *)
Lemma createDatabase_releases_connection_witness :
  ∃ o s',
    createDatabase (E := engine) (Ap := app) "new.sqlite" (process world_open) = (o, s') ∧
    o ≠ Undefined ∧
    databases (world s') = databases world_open ∧
    contexts (world s') = contexts world_open.
Proof.
  destruct (createDatabase_releases_connection (E := engine) (Ap := app) "new.sqlite"
              (process world_open) slade_pk3)
    as (o & s' & Hrun & Hdef & Hdb & Hc & _).
  - reflexivity.
  - run.
  - intros d. reflexivity.
  - exists o, s'. split; [exact Hrun|]. split; [exact Hdef|]. split; [exact Hdb|exact Hc].
Defined.

(** Start-up on a system that gives no handle on the program database. *)
Lemma init_open_fault_propagates_witness :
  init (E := engine_no_handle) (Ap := app) (process world0)
    = (Throws cantopen,
       set_world (set_contexts <[db_global := with_file_path "slade.sqlite" (worker 0)]>)
         (process world0)).
Proof.
  apply (init_open_fault_propagates (E := engine_no_handle) (Ap := app) (process world0)
           (worker 0) cantopen).
  - run.
  - run.
  - split; reflexivity.
  - run.
Defined.


(** Start-up without a program database and without table definitions. *)
Lemma init_without_definitions_witness :
  ∃ s',
    init (E := engine) (Ap := app_bare) (process (initial_world (E := engine)))
      = (Returns false, s') ∧
    global_error s'
      = "Unable to initialize SLADE database: no table definitions in slade.pk3" ∧
    files (world s') = {[ "slade.sqlite" := ∅ ]}.
Proof.
  destruct (init_without_definitions (E := engine) (Ap := app_bare)
              (process (initial_world (E := engine))) bare_pk3 {[ "slade.sqlite" := ∅ ]})
    as (s' & Hrun & Herr & Hfiles & _).
  - run.
  - run.
  - reflexivity.
  - reflexivity.
  - run.
  - intros d. reflexivity.
  - exists s'. split; [exact Hrun|]. split; [exact Herr|exact Hfiles].
Defined.

(** Start-up without a program database, with an engine that knows the
    scripts of the program resource. *)
Lemma init_creates_on_local_connection_witness :
  ∃ s',
    init (E := engine_create) (Ap := app) (process (initial_world (E := engine)))
      = (Returns true, s') ∧
    trace (world s') = [(1, entry_data archive_file_sql); (1, entry_data archive_map_sql)] ∧
    databases (world s') !! 1 = None ∧
    connection_rw_ <$> contexts (world s') !! db_global = Some (Some 3).
Proof.
  destruct (init_creates_on_local_connection (E := engine_create) (Ap := app)
              (process (initial_world (E := engine))) (worker 0) slade_pk3 tables
              {[ "slade.sqlite" := ∅ ]})
    as (o & s' & ran & Hrun & _ & _ & _ & Hgone & _).
  - run.
  - run.
  - reflexivity.
  - reflexivity.
  - run.
  - split; reflexivity.
  - run.
  - intros d. reflexivity.
  - intros fs' flags. reflexivity.
  - vm_compute in Hrun. injection Hrun as <- <-.
    eexists. split; [run|]. split; [run|]. split; [exact Hgone|run].
Defined.

(** [db tables] on the open program database. *)
Lemma c_db_tables_prints_rows_witness :
  ∃ s',
    c_db (E := engine) (Ap := app) 0 ["tables"] (process world_open) = (Returns tt, s') ∧
    console s' = ["archive_file"] ∧
    statements (world s') = statements world_open.
Proof.
  destruct (c_db_tables_prints_rows (E := engine) (Ap := app) 0 [] (process world_open)
              0 1 world_open main_open connection_ro
              [{| column_text := "archive_file"; column_integer := 0 |}] None)
    as (s' & Hrun & Hcon & _ & Hst & _); [run..|].
  exists s'. split; [exact Hrun|]. split; [rewrite Hcon; reflexivity|exact Hst].
Defined.

(** [db reset archive_file] with an engine that drops the table and does
    not know the script. *)
Lemma c_db_reset_drops_first_witness :
  ∃ s',
    c_db (E := engine_drop) (Ap := app) 0 ["reset"; "archive_file"] (process world_open)
      = (Returns tt, s') ∧
    log (world s') = [(Error, "syntax error")] ∧
    files (world s') !! "slade.sqlite" = Some ∅ ∧
    console s' = [].
Proof.
  eexists. split.
  - eapply (c_db_reset_drops_first (E := engine_drop) (Ap := app) 0 "archive_file" []
             (process world_open) 0 2 world_open _ main_open connection_rw connection_rw
             slade_pk3 archive_file_sql 0%Z ∅ syntax).
    + run.
    + run.
    + reflexivity.
    + run.
    + reflexivity.
    + run.
    + run.
    + reflexivity.
    + run.
  - split; [run|]. split; run.
Defined.

(** [db rowcount archive_file] while the main context is closed. *)
Lemma c_db_closed_context_runs_nothing_witness :
  c_db (E := engine) (Ap := app) 0 ["rowcount"; "archive_file"] (process world0)
    = (Returns tt, process world0).
Proof.
  destruct (c_db_closed_context_runs_nothing (E := engine) (Ap := app) "rowcount"
              ["archive_file"] (process world0) (worker 0)) as [Hrun|[Hrest _]].
  - run.
  - split; reflexivity.
  - exact Hrun.
  - discriminate.
Defined.

End FurtherWitnesses.
